(** * A9u/xmpp: a shallow embedding of the JID type, the session byte
    channel, the stream-feature negotiator and the STARTTLS / SASL features,
    with the properties the specification states about them.

    Go strings are byte sequences: they are modelled as [string] (one
    [ascii] per byte).  Go's multiple return values [(v, err)] are pairs
    whose second component is an [option error] ([None] is [nil]). *)

From Stdlib Require Import ZArith NArith Ascii String List Lia Bool Permutation.
From stdpp Require Import base option gmap strings list.

Local Open Scope Z_scope.

(** ** Go values shared by every package *)

Module go.

(** The [error] values that occur in the modelled sources.  [errors_New] is
    [errors.New(msg)]; [StreamError] a condition of the [streamerror]
    package; [io_EOF] the transport's end of file; [ext_error] any error
    produced by an external collaborator (tokenizer, transport, SASL
    library, context).

    Go compares error values by identity ([err != io.EOF]): a value that a
    call of [errors.New] makes while the program runs is a new pointer,
    equal to no value made elsewhere, whatever its text.  [errors_New msg]
    stands for such a value.  [error_var name] is the value that the
    package-level variable [name] holds, made once when the package is
    initialised, as [io_EOF] is that of [io.EOF]. *)
Inductive error :=
| errors_New (msg : string)
| StreamError (condition : string)
| io_EOF
| ext_error (code : N)
| error_var (name : string).

#[global] Instance error_eq_dec : EqDecision error.
Proof. solve_decision. Defined.

(** A Go call either returns or panics. *)
Inductive outcome (A : Type) :=
| Returns (a : A)
| Panics (msg : string).
Arguments Returns {A} a.
Arguments Panics {A} msg.

(** [len(s)] *)
Definition len (s : string) : Z := Z.of_nat (String.length s).

Definition byteN (c : ascii) : N := N_of_ascii c.

Definition in_range (lo hi : N) (c : ascii) : bool :=
  ((lo <=? byteN c) && (byteN c <=? hi))%N.

(** [s[lo:hi]]: a run-time panic when the bounds are out of range. *)
Definition slice (s : string) (lo hi : Z) : option string :=
  if (0 <=? lo) && (lo <=? hi) && (hi <=? len s)
  then Some (String.substring (Z.to_nat lo) (Z.to_nat (hi - lo)) s)
  else None.

(** [s[lo:]] *)
Definition slice_from (s : string) (lo : Z) : option string :=
  slice s lo (len s).

End go.

(** ** Package unicode/utf8 and unicode *)

Module utf8.
Import go.

Definition RuneError : N := 0xFFFD%N.

Definition is_cont (c : ascii) : bool := in_range 0x80 0xBF c.

(** Accepted range of the second byte, by lead byte (Go's [acceptRanges]). *)
Definition second_ok (b0 b1 : ascii) : bool :=
  let n := byteN b0 in
  if (n =? 0xE0)%N then in_range 0xA0 0xBF b1
  else if (n =? 0xED)%N then in_range 0x80 0x9F b1
  else if (n =? 0xF0)%N then in_range 0x90 0xBF b1
  else if (n =? 0xF4)%N then in_range 0x80 0x8F b1
  else in_range 0x80 0xBF b1.

(** Width announced by a lead byte; 0 for a byte that starts no sequence. *)
Definition lead_width (b0 : ascii) : nat :=
  if (byteN b0 <? 0x80)%N then 1
  else if in_range 0xC2 0xDF b0 then 2
  else if in_range 0xE0 0xEF b0 then 3
  else if in_range 0xF0 0xF4 b0 then 4
  else 0.

Definition low6 (c : ascii) : N := N.land (byteN c) 0x3F.

(** The runes of [s] as [DecodeRuneInString] yields them from left to
    right, each with the bytes it was decoded from; a byte that starts no
    valid sequence yields [RuneError] of width 1. *)
Fixpoint decode (s : string) : list (N * string) :=
  match s with
  | EmptyString => []
  | String b0 t0 =>
    let invalid := (RuneError, String b0 EmptyString) in
    match lead_width b0 with
    | 1%nat => (byteN b0, String b0 EmptyString) :: decode t0
    | 2%nat =>
      match t0 with
      | String b1 t1 =>
        if is_cont b1
        then (N.lor (N.shiftl (N.land (byteN b0) 0x1F) 6) (low6 b1),
              String b0 (String b1 EmptyString)) :: decode t1
        else invalid :: decode t0
      | _ => invalid :: decode t0
      end
    | 3%nat =>
      match t0 with
      | String b1 (String b2 t2) =>
        if second_ok b0 b1 && is_cont b2
        then (N.lor (N.shiftl (N.land (byteN b0) 0x0F) 12)
                (N.lor (N.shiftl (low6 b1) 6) (low6 b2)),
              String b0 (String b1 (String b2 EmptyString))) :: decode t2
        else invalid :: decode t0
      | _ => invalid :: decode t0
      end
    | 4%nat =>
      match t0 with
      | String b1 (String b2 (String b3 t3)) =>
        if second_ok b0 b1 && is_cont b2 && is_cont b3
        then (N.lor (N.shiftl (N.land (byteN b0) 0x07) 18)
                (N.lor (N.shiftl (low6 b1) 12)
                   (N.lor (N.shiftl (low6 b2) 6) (low6 b3))),
              String b0 (String b1 (String b2 (String b3 EmptyString))))
             :: decode t3
        else invalid :: decode t0
      | _ => invalid :: decode t0
      end
    | _ => invalid :: decode t0
    end
  end.

(** A decoded chunk is an encoding error when it is [RuneError] of width 1. *)
Definition is_invalid (c : N * string) : bool :=
  (c.1 =? RuneError)%N && (String.length c.2 =? 1)%nat.

(** [utf8.ValidString(s)] *)
Definition ValidString (s : string) : bool :=
  forallb (fun c => negb (is_invalid c)) (decode s).

(** [unicode.IsSpace(r)] *)
Definition IsSpace (r : N) : bool :=
  ((9 <=? r) && (r <=? 13) || (r =? 0x20) || (r =? 0x85) || (r =? 0xA0)
   || (r =? 0x1680) || (0x2000 <=? r) && (r <=? 0x200A)
   || (r =? 0x2028) || (r =? 0x2029) || (r =? 0x202F) || (r =? 0x205F)
   || (r =? 0x3000))%N.

End utf8.

(** ** Package strings (the functions the JID code calls) *)

Module strings.
Import go.

Fixpoint mem_byte (c : ascii) (cs : string) : bool :=
  match cs with
  | EmptyString => false
  | String d t => if Ascii.eqb c d then true else mem_byte c t
  end.

(** [strings.IndexByte(s, c)]; this is also [strings.IndexRune(s, c)] for a
    rune below [utf8.RuneSelf], the only use the sources make of it. *)
Fixpoint IndexByte (s : string) (c : ascii) : Z :=
  match s with
  | EmptyString => -1
  | String d t =>
    if Ascii.eqb d c then 0
    else let i := IndexByte t c in if i <? 0 then -1 else i + 1
  end.

Definition IndexRune (s : string) (r : ascii) : Z := IndexByte s r.

(** [strings.ContainsRune(s, r)] is [IndexRune(s, r) >= 0]. *)
Definition ContainsRune (s : string) (r : ascii) : bool :=
  0 <=? IndexRune s r.

(** [strings.ContainsAny(s, chars)] for an ASCII [chars]: Go then tests
    membership byte by byte. *)
Fixpoint ContainsAny (s chars : string) : bool :=
  match s with
  | EmptyString => false
  | String c t => mem_byte c chars || ContainsAny t chars
  end.

(** [strings.TrimRight(s, cutset)] for an ASCII [cutset]. *)
Fixpoint TrimRight (s cutset : string) : string :=
  match s with
  | EmptyString => EmptyString
  | String c t =>
    match TrimRight t cutset with
    | EmptyString => if mem_byte c cutset then EmptyString else String c EmptyString
    | t' => String c t'
    end
  end.

(** [strings.TrimPrefix(s, prefix)] *)
Definition TrimPrefix (s prefix : string) : string :=
  if String.prefix prefix s
  then String.substring (String.length prefix)
         (String.length s - String.length prefix) s
  else s.

Definition HasSuffix (s suffix : string) : bool :=
  (String.length suffix <=? String.length s)%nat
  && String.eqb
       (String.substring (String.length s - String.length suffix)
          (String.length suffix) s) suffix.

(** [strings.TrimSuffix(s, suffix)] *)
Definition TrimSuffix (s suffix : string) : string :=
  if HasSuffix s suffix
  then String.substring 0 (String.length s - String.length suffix) s
  else s.

Fixpoint drop_spaces (cs : list (N * string)) : list (N * string) :=
  match cs with
  | c :: cs' => if utf8.IsSpace c.1 then drop_spaces cs' else cs
  | [] => []
  end.

Definition join_bytes (cs : list (N * string)) : string :=
  fold_right (fun c acc => c.2 +:+ acc) EmptyString cs.

(** [strings.TrimSpace(s)]: leading and trailing runs of [unicode.IsSpace]
    runes removed.  (Go scans the tail with [DecodeLastRuneInString]; on
    valid UTF-8, which is all [FromString] passes, that finds the same runes
    as the forward scan used here.) *)
Definition TrimSpace (s : string) : string :=
  join_bytes (rev (drop_spaces (rev (drop_spaces (utf8.decode s))))).

Fixpoint fields (cs : list (N * string)) (cur : option string) : list string :=
  match cs with
  | [] => match cur with Some f => [f] | None => [] end
  | c :: cs' =>
    if utf8.IsSpace c.1
    then match cur with
         | Some f => f :: fields cs' None
         | None => fields cs' None
         end
    else fields cs' (Some (match cur with
                           | Some f => f +:+ c.2
                           | None => c.2
                           end))
  end.

(** [strings.Fields(s)]: the maximal runs of non-space runes. *)
Definition Fields (s : string) : list string := fields (utf8.decode s) None.

End strings.

(** ** Package regexp, for the fragment of the syntax [JIDMatch] uses:
    literals, bracket classes [[...]] and [[^...]], and the postfix
    operators [+], [*] and [?], concatenated. *)

Module regexp.
Import go.

Inductive Regexp :=
| reNone
| reEps
| reChar (c : ascii)
| reClass (negated : bool) (cs : string)
| reCat (a b : Regexp)
| reAlt (a b : Regexp)
| reStar (a : Regexp).

(** Reads a bracket class body up to the closing bracket. *)
Fixpoint class_body (p : string) : option (string * string) :=
  match p with
  | EmptyString => None
  | String c t =>
    if Ascii.eqb c "]" then Some (EmptyString, t)
    else match class_body t with
         | Some (cs, rest) => Some (String c cs, rest)
         | None => None
         end
  end.

Definition atom (p : string) : option (Regexp * string) :=
  match p with
  | EmptyString => None
  | String c t =>
    if Ascii.eqb c "[" then
      match t with
      | String d t' =>
        if Ascii.eqb d "^"
        then match class_body t' with
             | Some (cs, rest) => Some (reClass true cs, rest)
             | None => None
             end
        else match class_body t with
             | Some (cs, rest) => Some (reClass false cs, rest)
             | None => None
             end
      | EmptyString => None
      end
    else if strings.mem_byte c "]+*?()|.\^$" then None
    else Some (reChar c, t)
  end.

Definition postfix (a : Regexp) (p : string) : Regexp * string :=
  match p with
  | String c t =>
    if Ascii.eqb c "+" then (reCat a (reStar a), t)
    else if Ascii.eqb c "*" then (reStar a, t)
    else if Ascii.eqb c "?" then (reAlt reEps a, t)
    else (a, p)
  | EmptyString => (a, p)
  end.

Fixpoint compile (fuel : nat) (p : string) : option Regexp :=
  match p with
  | EmptyString => Some reEps
  | _ =>
    match fuel with
    | O => None
    | S fuel' =>
      match atom p with
      | Some (a, rest) =>
        let '(a', rest') := postfix a rest in
        match rest' with
        | EmptyString => Some a'
        | _ => match compile fuel' rest' with
               | Some r => Some (reCat a' r)
               | None => None
               end
        end
      | None => None
      end
    end
  end.

(** [regexp.Compile(pattern)]; [None] is a syntax error. *)
Definition Compile (pattern : string) : option Regexp :=
  compile (String.length pattern) pattern.

Fixpoint nullable (r : Regexp) : bool :=
  match r with
  | reNone => false
  | reEps => true
  | reChar _ => false
  | reClass _ _ => false
  | reCat a b => nullable a && nullable b
  | reAlt a b => nullable a || nullable b
  | reStar _ => true
  end.

Definition class_accepts (negated : bool) (cs : string) (c : ascii) : bool :=
  if negated then negb (strings.mem_byte c cs) else strings.mem_byte c cs.

(** Brzozowski derivative of [r] by the byte [c]. *)
Fixpoint deriv (c : ascii) (r : Regexp) : Regexp :=
  match r with
  | reNone => reNone
  | reEps => reNone
  | reChar d => if Ascii.eqb c d then reEps else reNone
  | reClass n cs => if class_accepts n cs c then reEps else reNone
  | reCat a b =>
    if nullable a
    then reAlt (reCat (deriv c a) b) (deriv c b)
    else reCat (deriv c a) b
  | reAlt a b => reAlt (deriv c a) (deriv c b)
  | reStar a => reCat (deriv c a) (reStar a)
  end.

(** Some prefix of [s] is in the language of [r]. *)
Fixpoint match_prefix (r : Regexp) (s : string) : bool :=
  nullable r ||
  match s with
  | EmptyString => false
  | String c t => match_prefix (deriv c r) t
  end.

(** Some substring of [s] is in the language of [r]: the pattern is not
    anchored. *)
Fixpoint match_anywhere (r : Regexp) (s : string) : bool :=
  match_prefix r s ||
  match s with
  | EmptyString => false
  | String _ t => match_anywhere r t
  end.

(** [regexp.MatchString(pattern, s)]: [(matched, err)].  The matcher works
    on bytes; Go's works on runes, which selects the same strings for a
    pattern whose literals and class members are ASCII when [s] is valid
    UTF-8 (no byte of a multi-byte sequence is an ASCII byte). *)
Definition MatchString (pattern s : string) : bool * option error :=
  match Compile pattern with
  | Some r => (match_anywhere r s, None)
  | None => (false, Some (errors_New "error parsing regexp"))
  end.

End regexp.

(** ** Package jid (the draft of [src/starttls.go], second document) *)

Module jid.
Import go.

(** What the package takes from outside the repository: the NFKC
    normalizer of [go.text/unicode/norm] and the IP parser of [net]. *)
Class Platform := {
  NF_String : string -> string;          (* [NF.String], [NF = norm.NFKC] *)
  IP : Type;
  net_ParseIP : string -> option IP;     (* [None] is the nil IP *)
  IP_To4 : IP -> option IP;
}.

Definition ERROR_INVALID_STRING : string := "String is not valid UTF-8".
Definition ERROR_EMPTY_PART : string := "JID parts must be greater than 0 bytes".
Definition ERROR_LONG_PART : string := "JID parts must be less than 1023 bytes".
Definition ERROR_NO_RESOURCE : string := "String is a bare JID".
Definition ERROR_INVALID_JID : string := "String is not a valid JID".
Definition ERROR_ILLEGAL_RUNE : string := "String contains an illegal chartacter".
Definition ERROR_ILLEGAL_SPACE : string := "String contains illegal whitespace".

Record JID := {
  localpart : string;
  domainpart : string;
  resourcepart : string;
}.

#[global] Instance JID_eq_dec : EqDecision JID.
Proof. solve_decision. Defined.

Definition LocalPart (address : JID) : string := localpart address.
Definition DomainPart (address : JID) : string := domainpart address.
Definition ResourcePart (address : JID) : string := resourcepart address.

Definition Equals (jid jid2 : JID) : bool :=
  String.eqb (LocalPart jid) (LocalPart jid2)
  && String.eqb (DomainPart jid) (DomainPart jid2)
  && String.eqb (ResourcePart jid) (ResourcePart jid2).

(** The characters no part may contain: the double quote and [&'/:<>@]. *)
Definition illegal_chars : string := String (ascii_of_nat 34) "&'/:<>@".

(** Used to match JIDs; it does not match bare JIDs. *)
Definition JIDMatch : string := "[^@/]+@[^@/]+/[^@/]+".

(** Return the full JID as a string. *)
Definition String_ (address : JID) : string :=
  LocalPart address +:+ "@" +:+ DomainPart address +:+ "/" +:+ ResourcePart address.

(** Return the bare JID as a string. *)
Definition Bare (address : JID) : string :=
  LocalPart address +:+ "@" +:+ DomainPart address.

Section WithPlatform.
Context {P : Platform}.

Definition NormalizeJIDPart (part : string) : string * option error :=
  let normalized := NF_String part in
  if len normalized =? 0 then
    (EmptyString, Some (errors_New ERROR_EMPTY_PART))
  else if 1023 <? len normalized then
    (EmptyString, Some (errors_New ERROR_LONG_PART))
  else if negb (utf8.ValidString part) then
    (EmptyString, Some (errors_New ERROR_INVALID_STRING))
  else if strings.ContainsAny part illegal_chars then
    (EmptyString, Some (errors_New ERROR_ILLEGAL_RUNE))
  else if negb (Nat.eqb (length (strings.Fields ("'" +:+ normalized +:+ "'"))) 1) then
    (EmptyString, Some (errors_New ERROR_ILLEGAL_SPACE))
  else (normalized, None).

Definition SetLocalPart (address : JID) (localpart : string)
  : JID * option error :=
  match NormalizeJIDPart localpart with
  | (_, Some err) => (address, Some err)
  | (normalized, None) =>
    ({| localpart := normalized;
        domainpart := domainpart address;
        resourcepart := resourcepart address |}, None)
  end.

Definition SetDomainPart (address : JID) (domainpart : string)
  : JID * option error :=
  let domainpart := strings.TrimRight domainpart "." in
  match NormalizeJIDPart domainpart with
  | (_, Some err) => (address, Some err)
  | (normalized, None) =>
    let normalized := strings.TrimPrefix normalized "[" in
    let normalized := strings.TrimSuffix normalized "]" in
    let normalized :=
      match net_ParseIP normalized with
      | Some ip =>
        match IP_To4 ip with
        | None => "[" +:+ normalized +:+ "]"
        | Some _ => normalized
        end
      | None => normalized
      end in
    ({| localpart := localpart address;
        domainpart := normalized;
        resourcepart := resourcepart address |}, None)
  end.

Definition SetResourcePart (address : JID) (resourcepart : string)
  : JID * option error :=
  match NormalizeJIDPart resourcepart with
  | (_, Some err) => (address, Some err)
  | (normalized, None) =>
    ({| localpart := localpart address;
        domainpart := domainpart address;
        resourcepart := normalized |}, None)
  end.

Definition slice_panic : string := "slice bounds out of range".

(** Set the existing JID from a string.  The receiver is updated in place,
    so the parts set before a failure stay set. *)
Definition FromString (address : JID) (s : string)
  : outcome (JID * option error) :=
  if negb (utf8.ValidString s) then
    Returns (address, Some (errors_New ERROR_INVALID_STRING))
  else
    match regexp.MatchString JIDMatch s with
    | (_, Some err) => Returns (address, Some err)
    | (matched, None) =>
      if negb matched && negb (strings.ContainsRune s "/") then
        Returns (address, Some (errors_New ERROR_NO_RESOURCE))
      else if negb matched then
        Returns (address, Some (errors_New ERROR_INVALID_JID))
      else
        let s := strings.TrimSpace s in
        let atLoc := strings.IndexRune s "@" in
        let slashLoc := strings.IndexRune s "/" in
        match slice s 0 atLoc with
        | None => Panics slice_panic
        | Some lp =>
          match SetLocalPart address lp with
          | (address, Some err) => Returns (address, Some err)
          | (address, None) =>
            match slice s (atLoc + 1) slashLoc with
            | None => Panics slice_panic
            | Some dp =>
              match SetDomainPart address dp with
              | (address, Some err) => Returns (address, Some err)
              | (address, None) =>
                match slice_from s (slashLoc + 1) with
                | None => Panics slice_panic
                | Some rp =>
                  match SetResourcePart address rp with
                  | (address, Some err) => Returns (address, Some err)
                  | (address, None) => Returns (address, None)
                  end
                end
              end
            end
          end
        end
    end.

(** Create a new JID from the given string. *)
Definition NewJID (s : string) : outcome (JID * option error) :=
  FromString {| localpart := EmptyString;
                domainpart := EmptyString;
                resourcepart := EmptyString |} s.

End WithPlatform.

(** A platform for evaluating the package on ASCII text: NFKC leaves every
    ASCII string as it is, and [net.ParseIP] finds no address in a string
    that has neither a dot-separated quad of numbers nor a colon.  The
    instance answers only for such inputs. *)
Definition ascii_platform : Platform := {|
  NF_String := fun s => s;
  IP := unit;
  net_ParseIP := fun _ => None;
  IP_To4 := fun _ => None;
|}.

End jid.

(** ** Package encoding/xml: names and tokens *)

Module xml.

Record Name := { Space : string; Local : string }.

#[global] Instance Name_eq_dec : EqDecision Name.
Proof. solve_decision. Defined.

#[global] Instance Name_countable : Countable Name.
Proof.
  refine (inj_countable' (fun n => (Space n, Local n))
            (fun p => {| Space := p.1; Local := p.2 |}) _).
  intros []; reflexivity.
Defined.

Record Attr := { attr_Name : Name; Value : string }.

Record StartElement := { Name_ : Name; Attr_ : list Attr }.

Inductive Token :=
| TStartElement (s : StartElement)
| TEndElement (n : Name)
| TCharData (d : string)
| TComment (c : string)
| TProcInst (target inst : string)
| TDirective (d : string).

(** [start.End()] *)
Definition End (s : StartElement) : Token := TEndElement (Name_ s).

End xml.

(** ** Package ns *)

Module ns.
Definition Bind : string := "urn:ietf:params:xml:ns:xmpp-bind".
Definition Client : string := "jabber:client".
Definition SASL : string := "urn:ietf:params:xml:ns:xmpp-sasl".
Definition Server : string := "jabber:server".
Definition Stanza : string := "urn:ietf:params:xml:ns:xmpp-stanzas".
Definition StartTLS : string := "urn:ietf:params:xml:ns:xmpp-tls".
Definition Stream : string := "http://etherx.jabber.org/streams".
Definition XML : string := "http://www.w3.org/XML/1998/namespace".
End ns.

(** ** Package xmpp: what the session code takes from outside *)

Module xmpp.
Import go.

(** Modelled from the spec: the declaration of the [SessionState] constants
    is not among the sources.  The spec (section 3) describes them as
    orthogonal bits that are OR-combined, and the code tests them with
    [state & X == X]; each constant is therefore one bit, at a position the
    model leaves open.  [EndStream] and [StreamRestartRequired] are the two
    further bits the STARTTLS draft returns. *)
Class StateBits := {
  Secure_bit : N;
  Authn_bit : N;
  Ready_bit : N;
  Received_bit : N;
  InputStreamClosed_bit : N;
  OutputStreamClosed_bit : N;
  EndStream_bit : N;
  StreamRestartRequired_bit : N;
}.

Section Bits.
Context {B : StateBits}.
Definition state_bit (k : N) : Z := Z.shiftl 1 (Z.of_N k).
Definition Secure : Z := state_bit Secure_bit.
Definition Authn : Z := state_bit Authn_bit.
Definition Ready : Z := state_bit Ready_bit.
Definition Received : Z := state_bit Received_bit.
Definition InputStreamClosed : Z := state_bit InputStreamClosed_bit.
Definition OutputStreamClosed : Z := state_bit OutputStreamClosed_bit.
Definition EndStream : Z := state_bit EndStream_bit.
Definition StreamRestartRequired : Z := state_bit StreamRestartRequired_bit.
End Bits.

(** The stream errors the negotiation code returns. *)
Definition BadFormat : error := StreamError "bad-format".
Definition BadNamespacePrefix : error := StreamError "bad-namespace-prefix".
Definition InvalidXML : error := StreamError "invalid-xml".
Definition PolicyViolation : error := StreamError "policy-violation".
Definition RestrictedXML : error := StreamError "restricted-xml".
Definition UnsupportedStanzaType : error := StreamError "unsupported-stanza-type".

Definition ErrTLSUpgradeFailed : error :=
  errors_New "The underlying connection cannot be upgraded to TLS".

(** A [*tls.Config]; [None] is nil. *)
Definition TLSConfig := option N.

(** The byte transport behind a connection ([io.ReadWriteCloser]), by its
    dynamic type: the code asks whether it is a [net.Conn] or a [*tls.Conn]
    and wraps it with [tls.Client] / [tls.Server]. *)
Inductive Transport :=
| rwc_plain (handle : N)    (* a ReadWriteCloser that is no net.Conn *)
| rwc_net (handle : N)      (* a net.Conn *)
| tls_Client (conn : Transport) (config : TLSConfig)
| tls_Server (conn : Transport) (config : TLSConfig).

#[global] Instance Transport_eq_dec : EqDecision Transport.
Proof. solve_decision. Defined.

(** [_, ok := rwc.(net.Conn)] *)
Definition is_net_Conn (t : Transport) : bool :=
  match t with rwc_plain _ => false | _ => true end.

(** whether [rwc] is a TLS connection (a pointer to [tls.Conn]) *)
Definition is_tls_Conn (t : Transport) : bool :=
  match t with tls_Client _ _ | tls_Server _ _ => true | _ => false end.

(** A value of type [interface{}] as the features pass it around. *)
Inductive any :=
| any_nil
| any_strings (l : list string)     (* a [[]string] *)
| any_other (tag : N).

(** [sasl.Mechanism]: its name and (opaque) step functions. *)
Record Mechanism := { mech_Name : string; mech_impl : N }.

Definition zero_Mechanism : Mechanism := {| mech_Name := EmptyString; mech_impl := 0 |}.

Inductive sasl_Option :=
| sasl_Authz (identity : string)
| sasl_Credentials (username password : string)
| sasl_RemoteMechanisms (names : list string)
| sasl_ConnState (conn : Transport).

(** *** The monad of the session code

    A computation runs against the state [W] of everything outside the
    session value (transport, tokenizer, encoder, context, SASL client) and
    either yields a value, panics, or exhausts the loop bound the model
    gives to a Go [for] loop. *)
Inductive res (A : Type) :=
| Val (a : A)
| Panic (msg : string)
| Unfinished.
Arguments Val {A} a.
Arguments Panic {A} msg.
Arguments Unfinished {A}.

Definition M (W A : Type) : Type := W -> res A * W.

Definition ret {W A} (a : A) : M W A := fun w => (Val a, w).

Definition panic {W A} (msg : string) : M W A := fun w => (Panic msg, w).

Definition unfinished {W A} : M W A := fun w => (Unfinished, w).

Definition bind {W A B} (m : M W A) (k : A -> M W B) : M W B :=
  fun w =>
    match m w with
    | (Val a, w') => k a w'
    | (Panic msg, w') => (Panic msg, w')
    | (Unfinished, w') => (Unfinished, w')
    end.

Declare Scope go_scope.
Delimit Scope go_scope with go.
Notation "'let*' x ':=' m 'in' k" := (bind m (fun x => k))
  (at level 10, x name, m at level 100, k at level 200, only parsing) : go_scope.
Notation "'let*' ' pat ':=' m 'in' k" := (bind m (fun pat => k))
  (at level 10, pat pattern, m at level 100, k at level 200, only parsing) : go_scope.

(** The operations of the collaborators, as functions of the outside state. *)
Class Runtime (W : Type) := {
  (* the byte transport *)
  rwc_Read : Transport -> Z -> M W (string * option error);
  rwc_Write : Transport -> string -> M W (Z * option error);
  rwc_Close : Transport -> M W (option error);
  (* the session's xml.Decoder and xml.Encoder *)
  Decoder_Token : M W (xml.Token + error);
  Decoder_Skip : M W (option error);
  Decoder_DecodeElement_strings : xml.StartElement -> M W (list string * option error);
  Decoder_DecodeElement_chardata : xml.StartElement -> M W (string * option error);
  Decoder_DecodeElement_failure : xml.StartElement -> M W (error * option error);
  Encoder_EncodeToken : xml.Token -> M W (option error);
  Encoder_Flush : M W (option error);
  (* the context: [Some err] once [ctx.Done()] is closed *)
  ctx_Err : M W (option error);
  (* the SASL client of mellium.im/sasl *)
  sasl_Client : Type;
  sasl_NewClient : Mechanism -> list sasl_Option -> sasl_Client;
  sasl_Step : sasl_Client -> option string -> M W (sasl_Client * (bool * string * option error));
}.

(** *** The connection (src/unnamed/part_004, first document; src/config.go)

    [Config.Features] is kept apart from the record (see [negotiateFeatures])
    because a feature's [Negotiate] takes the connection as an argument.
    The mutexes of [in] and [out] are not modelled: every function below is
    the body that runs while the lock is held. *)
Record Config := {
  Location : jid.JID;
  Origin : jid.JID;
  S2S : bool;
  TLSConfig_ : TLSConfig;
  Identity : string;
  Password : string;
}.

Record Conn := {
  config : Config;
  rwc : Transport;
  state : Z;
  origin : option jid.JID;
  features : gmap string any;     (* advertised for the current streams *)
  negotiated : gset string;       (* [map[string]struct{}] *)
}.

Definition set_rwc (c : Conn) (t : Transport) : Conn :=
  {| config := config c; rwc := t; state := state c; origin := origin c;
     features := features c; negotiated := negotiated c |}.

Definition set_state (c : Conn) (st : Z) : Conn :=
  {| config := config c; rwc := rwc c; state := st; origin := origin c;
     features := features c; negotiated := negotiated c |}.

Definition set_features (c : Conn) (fs : gmap string any) : Conn :=
  {| config := config c; rwc := rwc c; state := state c; origin := origin c;
     features := fs; negotiated := negotiated c |}.

Definition set_negotiated (c : Conn) (n : gset string) : Conn :=
  {| config := config c; rwc := rwc c; state := state c; origin := origin c;
     features := features c; negotiated := n |}.

(** Feature checks if a feature with the given namespace was advertised by
    the server for the current stream: [(data, ok)], the map lookup
    [c.features[namespace]]. *)
Definition Feature (c : Conn) (namespace : string) : any * bool :=
  match features c !! namespace with
  | Some data => (data, true)
  | None => (any_nil, false)
  end.

Section Connection.
Context {B : StateBits} {W : Type} {R : Runtime W}.
Local Open Scope go_scope.

(** Raw returns the Conn's backing net.Conn or other ReadWriteCloser. *)
Definition Raw (c : Conn) : Transport := rwc c.

(** State returns the current state of the session. *)
Definition State (c : Conn) : Z := state c.

(** Read reads data from the connection: [len_b] is [len(b)], the result
    the bytes stored in [b] (their number is Go's [n]) and [err]. *)
Definition Read (c : Conn) (len_b : Z) : M W (string * option error) :=
  if Z.land (state c) InputStreamClosed =? InputStreamClosed then
    ret (EmptyString, Some (errors_New "XML input stream is closed"))
  else rwc_Read (rwc c) len_b.

(** Write writes data to the connection. *)
Definition Write_ (c : Conn) (b : string) : M W (Z * option error) :=
  if Z.land (state c) OutputStreamClosed =? OutputStreamClosed then
    ret (0, Some (errors_New "XML output stream is closed"))
  else rwc_Write (rwc c) b.

(** Close closes the underlying connection. *)
Definition Close (c : Conn) : M W (option error) := rwc_Close (rwc c).

(** LocalAddr returns the Origin address for initiated connections, or the
    Location for received connections. *)
Definition LocalAddr (c : Conn) : jid.JID :=
  if Z.land (state c) Received =? Received then Location (config c)
  else match origin c with
       | Some o => o
       | None => Origin (config c)
       end.

(** RemoteAddr returns the Location address for initiated connections, or
    the Origin address for received connections. *)
Definition RemoteAddr (c : Conn) : jid.JID :=
  if Z.land (state c) Received =? Received then Origin (config c)
  else Location (config c).

(** [fmt.Fprint(conn, s)] and [fmt.Fprintf(conn, ...)] format into a buffer
    and hand it to [conn.Write] in one call. *)
Definition Fprint (c : Conn) (s : string) : M W (Z * option error) := Write_ c s.

End Connection.

(** *** STARTTLS (src/starttls.go, first document) *)

Module starttls.
Section StartTLS.
Context {B : StateBits} {W : Type} {R : Runtime W}.
Local Open Scope go_scope.

(** The stream feature of this draft: a name, a handler that takes over
    the connection, and whether the feature is required.  The handler
    assigns [conn.rwc]; the connection it leaves is part of its result. *)
Record StreamFeature := {
  Name : xml.Name;
  Handler : Conn -> M W (Conn * (Z * option error));
  Required : bool;
}.

Definition NSStartTLS : string := ns.StartTLS.

Definition proceed_element : string := "<proceed xmlns='urn:ietf:params:xml:ns:xmpp-tls'/>".
Definition starttls_element : string := "<starttls xmlns='urn:ietf:params:xml:ns:xmpp-tls'/>".

Definition StartTLS_Handler (conn : Conn) : M W (Conn * (Z * option error)) :=
  if negb (is_net_Conn (rwc conn)) then
    ret (conn, (0, Some ErrTLSUpgradeFailed))
  else if Z.land (state conn) Received =? Received then
    let* n := Fprint conn proceed_element in
    ret (set_rwc conn (tls_Server (rwc conn) (TLSConfig_ (config conn))),
         (Z.lor Secure StreamRestartRequired, None))
  else
    (* Select starttls for negotiation. *)
    let* n := Fprint conn starttls_element in
    (* Receive a <proceed/> or <failure/> response from the server. *)
    let* t := Decoder_Token in
    match t with
    | inr err => ret (conn, (0, Some err))
    | inl (xml.TStartElement tok) =>
      if negb (String.eqb (xml.Space (xml.Name_ tok)) NSStartTLS) then
        ret (conn, (0, Some UnsupportedStanzaType))
      else if String.eqb (xml.Local (xml.Name_ tok)) "proceed" then
        (* Skip the </proceed> token. *)
        let* err := Decoder_Skip in
        match err with
        | Some _ => ret (conn, (EndStream, Some InvalidXML))
        | None =>
          ret (set_rwc conn (tls_Client (rwc conn) (TLSConfig_ (config conn))),
               (Z.lor Secure StreamRestartRequired, None))
        end
      else if String.eqb (xml.Local (xml.Name_ tok)) "failure" then
        (* Skip the </failure> token. *)
        let* err := Decoder_Skip in
        ret (conn, (EndStream,
                    match err with Some _ => Some InvalidXML | None => None end))
      else ret (conn, (0, Some UnsupportedStanzaType))
    | inl _ => ret (conn, (0, Some RestrictedXML))
    end.

(** StartTLS returns a new stream feature that can be used for negotiating
    TLS. *)
Definition StartTLS : StreamFeature := {|
  Name := {| xml.Local := "starttls"; xml.Space := NSStartTLS |};
  Handler := StartTLS_Handler;
  Required := true;
|}.

End StartTLS.
End starttls.

(** *** Stream features and their negotiation (src/unnamed/part_005)

    This draft calls the connection record [Session]. *)

Abbreviation Session := Conn (only parsing).

(** *** The input half of a session

    TestClosedInputStream of src/session_test.go reads a token with
    [Session.Token] and compares the error with [ErrInputStreamClosed];
    neither declaration is among the sources. *)

(** Modelled from the spec: the package variable [ErrInputStreamClosed],
    whose declaration is missing.  Section 4.5 of the spec names it as the
    error of [token()]; the test compares the returned error with it by
    identity, so it is a value of its own, made once. *)
Definition ErrInputStreamClosed : error := error_var "ErrInputStreamClosed".

Section Halves.
Context {B : StateBits} {W : Type} {R : Runtime W}.

(** Modelled from the spec: [Session.Token], which is missing.  Section 4.5
    of the spec: the input half is a tokenizer bound to the byte transport,
    and [token()] fails with [ErrInputStreamClosed] when the
    [InputStreamClosed] bit is set.  With the bit clear the token is the
    tokenizer's next one. *)
Definition Token (s : Session) : M W (xml.Token + error) :=
  if Z.land (state s) InputStreamClosed =? InputStreamClosed
  then ret (inr ErrInputStreamClosed)
  else Decoder_Token.

End Halves.

Section Features.
Context {B : StateBits} {W : Type}.
Local Open Scope go_scope.

(** A StreamFeature represents a feature that may be selected during stream
    negotiation.  [Negotiate] receives the session by value: a feature
    reports the state bits to set through [mask], as its documentation
    prescribes, and the transport to restart on through [rwc].  A feature
    that assigns the session through the pointer it is given is a [call] of
    the module [pointer] below. *)
Record StreamFeature := {
  Name : xml.Name;
  Necessary : Z;
  Prohibited : Z;
  List : xml.StartElement -> M W (bool * option error);
  Parse : xml.StartElement -> M W (bool * any * option error);
  Negotiate : Session -> any -> M W (Z * option Transport * option error);
}.

Record sfData := {
  req : bool;
  data : any;
  feature : StreamFeature;
}.

Record streamFeaturesList := {
  total : Z;
  list_req : bool;
  cache : gmap string sfData;       (* namespace to sfData *)
}.

(** The order in which a [for ... range] statement enumerates a map is not
    specified by Go; it is taken from the outside state.  The laws say that
    the enumeration lists the entries of the map, each once. *)
Class MapOrder := {
  range_Features : W -> gmap xml.Name StreamFeature -> list (xml.Name * StreamFeature);
  range_Features_perm : forall w m, range_Features w m ≡ₚ map_to_list m;
  range_cache : W -> gmap string sfData -> list (string * sfData);
  range_cache_perm : forall w m, range_cache w m ≡ₚ map_to_list m;
}.

Context {R : Runtime W} {MO : MapOrder}.

(** The gate of both [writeStreamFeatures] and [readStreamFeatures]: all the
    necessary bits are set and none of the prohibited bits are set. *)
Definition gate (st : Z) (feature : StreamFeature) : bool :=
  (Z.land st (Necessary feature) =? Necessary feature)
  && (Z.land st (Prohibited feature) =? 0).

(** The [for _, feature := range s.config.Features] loop of
    [writeStreamFeatures], over the enumeration [fs]. *)
Fixpoint writeStreamFeatures_range (s : Session) (fs : list (xml.Name * StreamFeature))
    (list : streamFeaturesList) : M W (streamFeaturesList * option error) :=
  match fs with
  | [] => ret (list, None)
  | (_, feature) :: fs' =>
    if gate (state s) feature then
      let* '(r, err) := List feature {| xml.Name_ := Name feature; xml.Attr_ := [] |} in
      match err with
      | Some e => ret (list, Some e)
      | None =>
        writeStreamFeatures_range s fs'
          {| total := total list + 1;
             list_req := if r then true else list_req list;
             cache := <[ xml.Space (Name feature) :=
                          {| req := r; data := any_nil; feature := feature |} ]>
                        (cache list) |}
      end
    else writeStreamFeatures_range s fs' list
  end.

Definition features_start : xml.StartElement :=
  {| xml.Name_ := {| xml.Space := EmptyString; xml.Local := "stream:features" |};
     xml.Attr_ := [] |}.

Definition empty_list : streamFeaturesList :=
  {| total := 0; list_req := false; cache := ∅ |}.

(** The result is [(list, err)]; [list] is nil ([None]) when the opening
    tag could not be written. *)
Definition writeStreamFeatures (Features : gmap xml.Name StreamFeature) (s : Session)
  : M W (option streamFeaturesList * option error) :=
  let* err := Encoder_EncodeToken (xml.TStartElement features_start) in
  match err with
  | Some e => ret (None, Some e)
  | None =>
    let* '(list, err) :=
      (fun w => writeStreamFeatures_range s (range_Features w Features) empty_list w) in
    match err with
    | Some e => ret (Some list, Some e)
    | None =>
      let* err := Encoder_EncodeToken (xml.End features_start) in
      match err with
      | Some e => ret (Some list, Some e)
      | None =>
        let* err := Encoder_Flush in
        ret (Some list, err)
      end
    end
  end.

(** The [parsefeatures] loop of [readStreamFeatures]. *)
Fixpoint readStreamFeatures_loop (fuel : nat) (Features : gmap xml.Name StreamFeature)
    (s : Session) (sf : streamFeaturesList)
  : M W (Session * (option streamFeaturesList * option error)) :=
  match fuel with
  | O => unfinished
  | S fuel' =>
    let* t := Decoder_Token in
    match t with
    | inr err => ret (s, (None, Some err))
    | inl (xml.TStartElement tok) =>
      (* Increment the total features count regardless. *)
      let sf := {| total := total sf + 1; list_req := list_req sf; cache := cache sf |} in
      (* Always add the feature to the list of features. *)
      let s := set_features s (<[ xml.Space (xml.Name_ tok) := any_nil ]> (features s)) in
      let skip :=
        let* err := Decoder_Skip in
        match err with
        | Some e => ret (s, (None, Some e))
        | None => readStreamFeatures_loop fuel' Features s sf
        end in
      match Features !! xml.Name_ tok with
      | Some feature =>
        if gate (state s) feature then
          let* '(r, d, err) := Parse feature tok in
          match err with
          | Some e => ret (s, (None, Some e))
          | None =>
            let sf :=
              {| total := total sf;
                 list_req := if r then true else list_req sf;
                 cache := <[ xml.Space (xml.Name_ tok) :=
                              {| req := r; data := d; feature := feature |} ]>
                            (cache sf) |} in
            let s := set_features s (<[ xml.Space (xml.Name_ tok) := d ]> (features s)) in
            readStreamFeatures_loop fuel' Features s sf
          end
        else skip
      | None => skip
      end
    | inl (xml.TEndElement name) =>
      if String.eqb (xml.Local name) "features" && String.eqb (xml.Space name) ns.Stream
      then ret (s, (Some sf, None))
      else ret (s, (None, Some InvalidXML))
    | inl _ => ret (s, (None, Some RestrictedXML))
    end
  end.

Definition readStreamFeatures (fuel : nat) (Features : gmap xml.Name StreamFeature)
    (s : Session) (start : xml.StartElement)
  : M W (Session * (option streamFeaturesList * option error)) :=
  if negb (String.eqb (xml.Local (xml.Name_ start)) "features") then
    ret (s, (None, Some InvalidXML))
  else if negb (String.eqb (xml.Space (xml.Name_ start)) ns.Stream) then
    ret (s, (None, Some BadNamespacePrefix))
  else readStreamFeatures_loop fuel Features s empty_list.

(** What one pass through the negotiation loop decides before it calls
    [Negotiate]: to return from the function, or the feature to negotiate. *)
Inductive selection :=
| sel_return (r : bool * option Transport * option error)
| sel_feature (d : sfData).

(** The server reads a new feature to negotiate. *)
Definition select_server (s : Session) (list : streamFeaturesList)
    (rwc : option Transport) : M W selection :=
  let* t := Decoder_Token in
  match t with
  | inr err => ret (sel_return (false, None, Some err))
  | inl (xml.TStartElement start) =>
    (* If the feature was not sent or was already negotiated, error. *)
    let negotiated := bool_decide (xml.Space (xml.Name_ start) ∈ negotiated s) in
    match cache list !! xml.Space (xml.Name_ start) with
    | Some d =>
      if negotiated then ret (sel_return (false, rwc, Some PolicyViolation))
      else ret (sel_feature d)
    | None => ret (sel_return (false, rwc, Some PolicyViolation))
    end
  | inl _ => ret (sel_return (false, None, Some BadFormat))
  end.

(** The client iterates through the cached features and selects one to
    negotiate; [d] is the selection so far ([None]: the zero [sfData]). *)
Fixpoint select_cached (negotiated : gset string) (vs : list (string * sfData))
    (d : option sfData) : option sfData :=
  match vs with
  | [] => d
  | (_, v) :: vs' =>
    if bool_decide (xml.Space (Name (feature v)) ∈ negotiated) then
      (* If this feature has already been negotiated, skip it. *)
      select_cached negotiated vs' d
    else if negb (req v) then Some v            (* optional: select it *)
    else select_cached negotiated vs' (Some v)  (* required: tentatively *)
  end.

Definition select_client (s : Session) (list : streamFeaturesList) : M W selection :=
  fun w =>
    match select_cached (negotiated s) (range_cache w (cache list)) None with
    | Some d =>
      if String.eqb (xml.Local (Name (feature d))) EmptyString
      then (Val (sel_return (true, None, None)), w)
      else (Val (sel_feature d), w)
    | None => (Val (sel_return (true, None, None)), w)
    end.

(** The session once [Negotiate] has returned [(mask, rwc, err)] for the
    feature of [d]. *)
Definition record_negotiation (s : Session) (d : sfData) (mask : Z)
    (err : option error) : Session :=
  let s := match err with
           | None => set_state s (Z.lor (state s) mask)
           | Some _ => s
           end in
  set_negotiated s ({[ xml.Space (Name (feature d)) ]} ∪ negotiated s).

(** The [for] loop of [negotiateFeatures] and the [return] after it. *)
Fixpoint negotiate_loop (fuel : nat) (server : bool) (list : streamFeaturesList)
    (s : Session) (rwc : option Transport)
  : M W (Session * (bool * option Transport * option error)) :=
  match fuel with
  | O => unfinished
  | S fuel' =>
    let* sel := (if server then select_server s list rwc else select_client s list) in
    match sel with
    | sel_return r => ret (s, r)
    | sel_feature d =>
      let* '(mask, rwc, err) := Negotiate (feature d) s (data d) in
      let s := record_negotiation s d mask err in
      (* If we negotiated a required feature or a stream restart is
         required we're done with this feature set. *)
      if bool_decide (rwc <> None) || req d then
        ret (s, (negb (list_req list) || (Z.land (state s) Ready =? Ready), rwc, err))
      else negotiate_loop fuel' server list s rwc
    end
  end.

Definition negotiateFeatures (fuel : nat) (Features : gmap xml.Name StreamFeature)
    (c : Session) : M W (Session * (bool * option Transport * option error)) :=
  let server := Z.land (state c) Received =? Received in
  if server then
    (* If we're the server, write the initial stream features. *)
    let* '(list, err) := writeStreamFeatures Features c in
    match err, list with
    | Some e, _ => ret (c, (false, None, Some e))
    | None, None => panic "nil pointer dereference"
    | None, Some list => negotiate_loop fuel true list c None
    end
  else
    (* Read a new startstream:features token. *)
    let* t := Decoder_Token in
    match t with
    | inr err => ret (c, (false, None, Some err))
    | inl (xml.TStartElement start) =>
      (* If we're the client read the rest of the stream features list. *)
      let* '(c, (list, err)) := readStreamFeatures fuel Features c start in
      match err, list with
      | Some e, _ => ret (c, (false, None, Some e))
      | None, None => panic "nil pointer dereference"
      | None, Some list =>
        if (total list =? 0) || (Z.of_nat (size (cache list)) =? 0)
        then ret (c, (true, None, None))
        else negotiate_loop fuel false list c None
      end
    | inl _ => ret (c, (false, None, Some BadFormat))
    end.

End Features.

Arguments StreamFeature W : clear implicits.
Arguments sfData W : clear implicits.
Arguments streamFeaturesList W : clear implicits.
Arguments MapOrder W : clear implicits.

(** *** Negotiation with features that assign the session

    [Negotiate] is called with a pointer to the session (lines 64 and 162 of
    src/unnamed/part_005), so a feature can assign the session's fields
    before it returns.  A [call] is a call of a feature's [Negotiate]
    together with the session it leaves behind; the loop and the function
    below are [negotiate_loop] and [negotiateFeatures] run with such calls,
    and are equal to them for the calls that leave the session as they found
    it ([by_value]). *)

Module pointer.
Section Pointer.
Context {B : StateBits} {W : Type} {R : Runtime W} {MO : MapOrder W}.
Local Open Scope go_scope.

Definition call : Type :=
  StreamFeature W -> Session -> any
  -> M W (Session * (Z * option Transport * option error)).

(** The feature's [Negotiate] when it assigns nothing. *)
Definition by_value : call :=
  fun feature s data => let* r := Negotiate feature s data in ret (s, r).

(** The [for] loop of [negotiateFeatures] and the [return] after it;
    [invoke (feature d) s (data d)] is the call
    [data.feature.Negotiate(ctx, c, data.data)]. *)
Fixpoint negotiate_loop (invoke : call) (fuel : nat) (server : bool)
    (list : streamFeaturesList W) (s : Session) (rwc : option Transport)
  : M W (Session * (bool * option Transport * option error)) :=
  match fuel with
  | O => unfinished
  | S fuel' =>
    let* sel := (if server then select_server s list rwc else select_client s list) in
    match sel with
    | sel_return r => ret (s, r)
    | sel_feature d =>
      let* '(s, (mask, rwc, err)) := invoke (feature d) s (data d) in
      let s := record_negotiation s d mask err in
      (* If we negotiated a required feature or a stream restart is
         required we're done with this feature set. *)
      if bool_decide (rwc <> None) || req d then
        ret (s, (negb (list_req list) || (Z.land (state s) Ready =? Ready), rwc, err))
      else negotiate_loop invoke fuel' server list s rwc
    end
  end.

Definition negotiateFeatures (invoke : call) (fuel : nat)
    (Features : gmap xml.Name (StreamFeature W)) (c : Session)
  : M W (Session * (bool * option Transport * option error)) :=
  let server := Z.land (state c) Received =? Received in
  if server then
    (* If we're the server, write the initial stream features. *)
    let* '(list, err) := writeStreamFeatures Features c in
    match err, list with
    | Some e, _ => ret (c, (false, None, Some e))
    | None, None => panic "nil pointer dereference"
    | None, Some list => negotiate_loop invoke fuel true list c None
    end
  else
    (* Read a new startstream:features token. *)
    let* t := Decoder_Token in
    match t with
    | inr err => ret (c, (false, None, Some err))
    | inl (xml.TStartElement start) =>
      (* If we're the client read the rest of the stream features list. *)
      let* '(c, (list, err)) := readStreamFeatures fuel Features c start in
      match err, list with
      | Some e, _ => ret (c, (false, None, Some e))
      | None, None => panic "nil pointer dereference"
      | None, Some list =>
        if (total list =? 0) || (Z.of_nat (size (cache list)) =? 0)
        then ret (c, (true, None, None))
        else negotiate_loop invoke fuel false list c None
      end
    | inl _ => ret (c, (false, None, Some BadFormat))
    end.

End Pointer.

Arguments call W : clear implicits.
End pointer.

(** *** Configuration (src/config.go)

    [Config.Features] is the map the constructors fill; it is returned
    beside the record, as [negotiateFeatures] takes it. *)

Section Configuration.
Context {W : Type}.

(** The loop [for _, f := range features { c.Features[f.Name] = f }]. *)
Fixpoint set_Features (m : gmap xml.Name (StreamFeature W))
    (features : list (StreamFeature W)) : gmap xml.Name (StreamFeature W) :=
  match features with
  | [] => m
  | f :: fs => set_Features (<[ Name f := f ]> m) fs
  end.

(** NewServerConfig constructs a new server-to-server session configuration
    with sane defaults. *)
Definition NewServerConfig (location origin : jid.JID)
    (features : list (StreamFeature W)) : Config * gmap xml.Name (StreamFeature W) :=
  ({| Location := location; Origin := origin; S2S := true; TLSConfig_ := None;
      Identity := EmptyString; Password := EmptyString |},
   set_Features ∅ features).

(** NewClientConfig constructs a new client-to-server session configuration
    with sane defaults; [origin_Domain] is [origin.Domain()], of the [jid]
    package. *)
Definition NewClientConfig (origin_Domain origin : jid.JID)
    (features : list (StreamFeature W)) : Config * gmap xml.Name (StreamFeature W) :=
  let c := NewServerConfig origin_Domain origin features in
  ({| Location := Location c.1; Origin := Origin c.1; S2S := false;
      TLSConfig_ := TLSConfig_ c.1; Identity := Identity c.1;
      Password := Password c.1 |}, c.2).

Definition connType (config : Config) : string :=
  if S2S config then "xmpp-server" else "xmpp-client".

End Configuration.

(** *** SASL (src/dial1_7.go, third document) *)

Module sasl.
Section SASL.
Context {B : StateBits} {W : Type} {R : Runtime W}.
Local Open Scope go_scope.

Definition startMechanism : xml.StartElement :=
  {| xml.Name_ := {| xml.Space := EmptyString; xml.Local := "mechanism" |};
     xml.Attr_ := [] |}.

(** The [for _, m := range mechanisms] loop of [List]. *)
Fixpoint List_range (mechanisms : list Mechanism) : M W (option error) :=
  match mechanisms with
  | [] => ret None
  | m :: ms =>
    let* done := ctx_Err in
    match done with
    | Some e => ret (Some e)
    | None =>
      let* err := Encoder_EncodeToken (xml.TStartElement startMechanism) in
      match err with
      | Some e => ret (Some e)
      | None =>
        let* err := Encoder_EncodeToken (xml.TCharData (mech_Name m)) in
        match err with
        | Some e => ret (Some e)
        | None =>
          let* err := Encoder_EncodeToken (xml.End startMechanism) in
          match err with
          | Some e => ret (Some e)
          | None => List_range ms
          end
        end
      end
    end
  end.

Definition SASL_List (mechanisms : list Mechanism) (start : xml.StartElement)
  : M W (bool * option error) :=
  let* err := Encoder_EncodeToken (xml.TStartElement start) in
  match err with
  | Some e => ret (true, Some e)
  | None =>
    let* err := List_range mechanisms in
    match err with
    | Some e => ret (true, Some e)
    | None =>
      let* err := Encoder_EncodeToken (xml.End start) in
      match err with
      | Some e => ret (true, Some e)
      | None =>
        let* err := Encoder_Flush in
        ret (true, err)
      end
    end
  end.

Definition SASL_Parse (start : xml.StartElement) : M W (bool * any * option error) :=
  let* '(parsed_List, err) := Decoder_DecodeElement_strings start in
  ret (true, any_strings parsed_List, err).

Definition decodeSASLChallenge (start : xml.StartElement) (allowChallenge : bool)
  : M W (option string * bool * option error) :=
  let name := xml.Name_ start in
  if String.eqb (xml.Space name) ns.SASL
     && (String.eqb (xml.Local name) "challenge" || String.eqb (xml.Local name) "success")
  then
    if negb allowChallenge && String.eqb (xml.Local name) "challenge" then
      ret (None, false, Some UnsupportedStanzaType)
    else
      let* '(challenge_Data, err) := Decoder_DecodeElement_chardata start in
      match err with
      | Some e => ret (None, false, Some e)
      | None => ret (Some challenge_Data, String.eqb (xml.Local name) "success", None)
      end
  else if String.eqb (xml.Space name) ns.SASL && String.eqb (xml.Local name) "failure"
  then
    let* '(fail, err) := Decoder_DecodeElement_failure start in
    match err with
    | Some e => ret (None, false, Some e)
    | None => ret (None, false, Some fail)
    end
  else ret (None, false, Some UnsupportedStanzaType).

(** Select a mechanism, prefering the client order: the first of
    [mechanisms] whose name the peer offers, or the zero [Mechanism]. *)
Fixpoint select_mechanism (mechanisms : list Mechanism) (names : list string)
  : Mechanism :=
  match mechanisms with
  | [] => zero_Mechanism
  | m :: ms =>
    if existsb (fun name => String.eqb name (mech_Name m)) names then m
    else select_mechanism ms names
  end.

(** The text of the [<auth/>] element for a mechanism name and a payload. *)
Definition auth_element (mechanism resp : string) : string :=
  "<auth xmlns='urn:ietf:params:xml:ns:xmpp-sasl' mechanism='" +:+ mechanism
  +:+ "'>" +:+ resp +:+ "</auth>".

Definition response_element (resp : string) : string :=
  "<response xmlns='urn:ietf:params:xml:ns:xmpp-sasl'>" +:+ resp +:+ "</response>".

(** The [for more] loop of [Negotiate] and the [return] after it. *)
Fixpoint challenge_loop (fuel : nat) (conn : Conn) (client : sasl_Client) (more : bool)
  : M W (Z * option Transport * option error) :=
  if negb more then ret (Authn, Some (Raw conn), None)
  else
    match fuel with
    | O => unfinished
    | S fuel' =>
      let* done := ctx_Err in
      match done with
      | Some e => ret (0, None, Some e)
      | None =>
        let* tok := Decoder_Token in
        match tok with
        | inr err => ret (0, None, Some err)
        | inl (xml.TStartElement t) =>
          let* '(challenge, success, err) := decodeSASLChallenge t true in
          match err with
          | Some e => ret (0, None, Some e)
          | None =>
            let* '(client, (more, resp, err)) := sasl_Step client challenge in
            match err with
            | Some e => ret (0, None, Some e)
            | None =>
              if negb more && success then
                (* We're done with SASL and we're successful *)
                ret (Authn, Some (Raw conn), None)
              else
                let* '(n, err) := Fprint conn (response_element resp) in
                match err with
                | Some e => ret (0, None, Some e)
                | None => challenge_loop fuel' conn client more
                end
            end
          end
        | inl _ => ret (0, None, Some BadFormat)
        end
      end
    end.

(** [Negotiate] from the point where [<auth/>] has been handed to the
    connection; [w_err] is the error of that write. *)
Definition after_auth (fuel : nat) (conn : Conn) (client : sasl_Client) (more : bool)
    (w_err : option error) : M W (Z * option Transport * option error) :=
  match w_err with
  | Some e => ret (0, None, Some e)
  | None =>
    if negb more then
      (* If we're already done after the first step, decode the <success/>
         or <failure/> before we exit. *)
      let* tok := Decoder_Token in
      match tok with
      | inr err => ret (0, None, Some err)
      | inl (xml.TStartElement t) =>
        let* '(_, _, err) := decodeSASLChallenge t false in
        match err with
        | Some e => ret (0, None, Some e)
        | None => challenge_loop fuel conn client more
        end
      | inl _ => ret (0, None, Some BadFormat)
      end
    else challenge_loop fuel conn client more
  end.

(** The options [Negotiate] creates the SASL client with. *)
Definition opts (conn : Conn) (names : list string) : list sasl_Option :=
  let c := config conn in
  let opts :=
    [ sasl_Authz (Identity c);
      sasl_Credentials (jid.localpart (LocalAddr conn)) (Password c);
      sasl_RemoteMechanisms names ] in
  if is_tls_Conn (rwc conn) then opts ++ [sasl_ConnState (rwc conn)] else opts.

Definition SASL_Negotiate (fuel : nat) (mechanisms : list Mechanism) (conn : Conn)
    (data : any) : M W (Z * option Transport * option error) :=
  if Z.land (state conn) Received =? Received then
    panic "SASL server not yet implemented"
  else
    match mechanisms, data with
    | [], _ =>
      (* the range loop never reads [data]; nothing is selected *)
      ret (0, None, Some (errors_New "No matching SASL mechanisms found"))
    | _ :: _, any_strings names =>
      let selected := select_mechanism mechanisms names in
      (* No matching mechanism found *)
      if String.eqb (mech_Name selected) EmptyString then
        ret (0, None, Some (errors_New "No matching SASL mechanisms found"))
      else
        let client := sasl_NewClient selected (opts conn names) in
        let* '(client, (more, resp, err)) := sasl_Step client None in
        match err with
        | Some e => ret (0, None, Some e)
        | None =>
          (* RFC6120 6.4.2: a zero-length initial response is transmitted
             as a single equals sign. *)
          let resp := if len resp =? 0 then "=" else resp in
          (* Send <auth/> and the initial payload to start SASL auth. *)
          let* '(n, err) := Fprint conn (auth_element (mech_Name selected) resp) in
          after_auth fuel conn client more err
        end
    | _ :: _, _ => panic "interface conversion: interface {} is not []string"
    end.

Definition no_mechanisms_panic : string := "xmpp: Must specify at least 1 SASL mechanism".

(** SASL returns a stream feature for performing authentication using the
    Simple Authentication and Security Layer (SASL) as defined in RFC 4422.
    It panics if no mechanisms are specified.  [fuel] bounds the
    challenge/response loop of the feature's [Negotiate]. *)
Definition SASL (fuel : nat) (mechanisms : list Mechanism) : outcome (StreamFeature W) :=
  match mechanisms with
  | [] => Panics no_mechanisms_panic
  | _ :: _ =>
    Returns {|
      Name := {| xml.Space := ns.SASL; xml.Local := "mechanisms" |};
      Necessary := Secure;
      Prohibited := Authn;
      List := SASL_List mechanisms;
      Parse := SASL_Parse;
      Negotiate := SASL_Negotiate fuel mechanisms;
    |}
  end.

End SASL.
End sasl.

End xmpp.

(** ** Stream headers (src/unnamed/part_007) *)

Module streams.
Import go xmpp.

(** The conditions of package [stream] that this file returns. *)
Definition ImproperAddressing : error := StreamError "improper-addressing".
Definition InvalidNamespace : error := StreamError "invalid-namespace".
Definition NotWellFormed : error := StreamError "not-well-formed".
Definition UnsupportedVersion : error := StreamError "unsupported-version".

(** What the file takes from other packages: the address type of
    [mellium.im/xmpp/jid] with its attribute decoder, the protocol version
    of [internal], the language tag of [golang.org/x/text/language]. *)
Class Platform := {
  Addr : Type;
  (* [j := &jid.JID{}; err := j.UnmarshalXMLAttr(attr)]: the address left
     in [j], and [err] *)
  Addr_UnmarshalXMLAttr : xml.Attr -> Addr * option error;
  Version : Type;
  Version_eq_dec :: EqDecision Version;
  Version_zero : Version;
  DefaultVersion : Version;
  (* [(&v).UnmarshalXMLAttr(attr)]: the version left in [v]; the error is
     dropped by the caller *)
  Version_UnmarshalXMLAttr : Version -> xml.Attr -> Version;
  Tag : Type;
  Tag_zero : Tag;
  language_Make : string -> Tag;
}.

Section Streams.
Context {P : Platform}.

Record streamInfo := {
  to : option Addr;
  from : option Addr;
  id : string;
  version : Version;
  xmlns : string;
  lang : Tag;
}.

Definition zero_streamInfo : streamInfo :=
  {| to := None; from := None; id := EmptyString; version := Version_zero;
     xmlns := EmptyString; lang := Tag_zero |}.

(** [attr.Name == xml.Name{Space: space, Local: local}] *)
Definition named (space local : string) (attr : xml.Attr) : bool :=
  String.eqb (xml.Space (xml.attr_Name attr)) space
  && String.eqb (xml.Local (xml.attr_Name attr)) local.

(** The loop [for _, attr := range s.Attr] of [streamFromStartElement]. *)
Fixpoint streamFromAttrs (attrs : list xml.Attr) (streamData : streamInfo)
  : streamInfo * option error :=
  match attrs with
  | [] => (streamData, None)
  | attr :: attrs' =>
    if named EmptyString "to" attr then
      let '(j, err) := Addr_UnmarshalXMLAttr attr in
      let streamData :=
        {| to := Some j; from := from streamData; id := id streamData;
           version := version streamData; xmlns := xmlns streamData;
           lang := lang streamData |} in
      match err with
      | Some _ => (streamData, Some ImproperAddressing)
      | None => streamFromAttrs attrs' streamData
      end
    else if named EmptyString "from" attr then
      let '(j, err) := Addr_UnmarshalXMLAttr attr in
      let streamData :=
        {| to := to streamData; from := Some j; id := id streamData;
           version := version streamData; xmlns := xmlns streamData;
           lang := lang streamData |} in
      match err with
      | Some _ => (streamData, Some ImproperAddressing)
      | None => streamFromAttrs attrs' streamData
      end
    else if named EmptyString "id" attr then
      streamFromAttrs attrs'
        {| to := to streamData; from := from streamData; id := xml.Value attr;
           version := version streamData; xmlns := xmlns streamData;
           lang := lang streamData |}
    else if named EmptyString "version" attr then
      streamFromAttrs attrs'
        {| to := to streamData; from := from streamData; id := id streamData;
           version := Version_UnmarshalXMLAttr (version streamData) attr;
           xmlns := xmlns streamData; lang := lang streamData |}
    else if named EmptyString "xmlns" attr then
      if negb (String.eqb (xml.Value attr) "jabber:client")
         && negb (String.eqb (xml.Value attr) "jabber:server")
      then (streamData, Some InvalidNamespace)
      else streamFromAttrs attrs'
             {| to := to streamData; from := from streamData; id := id streamData;
                version := version streamData; xmlns := xml.Value attr;
                lang := lang streamData |}
    else if named "xmlns" "stream" attr then
      if negb (String.eqb (xml.Value attr) ns.Stream)
      then (streamData, Some InvalidNamespace)
      else streamFromAttrs attrs' streamData
    else if named "xml" "lang" attr then
      streamFromAttrs attrs'
        {| to := to streamData; from := from streamData; id := id streamData;
           version := version streamData; xmlns := xmlns streamData;
           lang := language_Make (xml.Value attr) |}
    else streamFromAttrs attrs' streamData
  end.

Definition streamFromStartElement (s : xml.StartElement) : streamInfo * option error :=
  streamFromAttrs (xml.Attr_ s) zero_streamInfo.

Context {B : StateBits} {W : Type} {R : Runtime W}.
Local Open Scope go_scope.

(** [d.DecodeElement(&se, &tok)] for [se] a [stream.Error], which is an
    [error] itself. *)
Context (Decoder_DecodeElement_streamerror : xml.StartElement -> M W (error * option error)).

(** The loop of [expectNewStream] for a session in the state [state].  The
    result is the stream information the function stores in
    [s.in.streamInfo] ([None] when it stores nothing) and its error. *)
Fixpoint expectNewStream_loop (fuel : nat) (state : Z) (foundHeader : bool)
  : M W (option streamInfo * option error) :=
  match fuel with
  | O => unfinished
  | S fuel' =>
    let* done := ctx_Err in
    match done with
    | Some e => ret (None, Some e)
    | None =>
      let* t := Decoder_Token in
      match t with
      | inr err => ret (None, Some err)
      | inl (xml.TStartElement tok) =>
        let name := xml.Name_ tok in
        if String.eqb (xml.Local name) "error" && String.eqb (xml.Space name) ns.Stream then
          let* '(se, err) := Decoder_DecodeElement_streamerror tok in
          match err with
          | Some e => ret (None, Some e)
          | None => ret (None, Some se)
          end
        else if negb (String.eqb (xml.Local name) "stream") then
          ret (None, Some BadFormat)
        else if negb (String.eqb (xml.Space name) ns.Stream) then
          ret (None, Some InvalidNamespace)
        else
          match streamFromStartElement tok with
          | (_, Some err) => ret (None, Some err)
          | (streamData, None) =>
            if negb (bool_decide (version streamData = DefaultVersion)) then
              ret (None, Some UnsupportedVersion)
            else if negb (Z.land state Received =? Received)
                    && String.eqb (id streamData) EmptyString then
              (* if we are the initiating entity and there is no stream ID *)
              ret (None, Some BadFormat)
            else ret (Some streamData, None)
          end
      | inl (xml.TProcInst target inst) =>
        if negb foundHeader && String.eqb target "xml"
        then expectNewStream_loop fuel' state true
        else ret (None, Some RestrictedXML)
      | inl (xml.TEndElement _) => ret (None, Some NotWellFormed)
      | inl _ => ret (None, Some RestrictedXML)
      end
    end
  end.

Definition expectNewStream (fuel : nat) (state : Z)
  : M W (option streamInfo * option error) :=
  expectNewStream_loop fuel state false.

End Streams.
End streams.

(** ** The stream element of the first draft (src/stream.go) *)

Module stream.
Import go.

(** The address type this draft takes from its [jid] package. *)
Class Platform := {
  EnforcedJID : Type;
  (* [jid.EnforcedFromString(s)]: [(j, err)], [j] nil on an error *)
  EnforcedFromString : string -> option EnforcedJID * option error;
  (* [j.String()], called on a pointer that may be nil *)
  EnforcedJID_String : option EnforcedJID -> outcome string;
}.

Section Stream.
Context {P : Platform}.

Record Stream := {
  to : option EnforcedJID;
  from : option EnforcedJID;
  version : string;
  xmlns : string;
  lang : string;
  id : string;
}.

Definition zero_Stream : Stream :=
  {| to := None; from := None; version := EmptyString; xmlns := EmptyString;
     lang := EmptyString; id := EmptyString |}.

(** The loop [for _, attr := range start.Attr]; it switches on the local
    name of the attribute alone. *)
Fixpoint StreamFromAttrs (attrs : list xml.Attr) (stream : Stream)
  : option Stream * option error :=
  match attrs with
  | [] => (Some stream, None)
  | attr :: attrs' =>
    let local := xml.Local (xml.attr_Name attr) in
    if String.eqb local "from" then
      match EnforcedFromString (xml.Value attr) with
      | (_, Some err) => (None, Some err)
      | (j, None) =>
        StreamFromAttrs attrs'
          {| to := to stream; from := j; version := version stream;
             xmlns := xmlns stream; lang := lang stream; id := id stream |}
      end
    else if String.eqb local "to" then
      match EnforcedFromString (xml.Value attr) with
      | (_, Some err) => (None, Some err)
      | (j, None) =>
        StreamFromAttrs attrs'
          {| to := j; from := from stream; version := version stream;
             xmlns := xmlns stream; lang := lang stream; id := id stream |}
      end
    else if String.eqb local "xmlns" then
      StreamFromAttrs attrs'
        {| to := to stream; from := from stream; version := version stream;
           xmlns := xml.Value attr; lang := lang stream; id := id stream |}
    else if String.eqb local "lang" then
      if String.eqb (xml.Space (xml.attr_Name attr)) "xml" then
        StreamFromAttrs attrs'
          {| to := to stream; from := from stream; version := version stream;
             xmlns := xmlns stream; lang := xml.Value attr; id := id stream |}
      else StreamFromAttrs attrs' stream
    else if String.eqb local "id" then
      StreamFromAttrs attrs'
        {| to := to stream; from := from stream; version := version stream;
           xmlns := xmlns stream; lang := lang stream; id := xml.Value attr |}
    else StreamFromAttrs attrs' stream
  end.

(** StreamFromStartElement constructs a new Stream from the given
    xml.StartElement (which must be of the form <stream:stream>). *)
Definition StreamFromStartElement (start : xml.StartElement)
  : option Stream * option error :=
  if negb (String.eqb (xml.Local (xml.Name_ start)) "stream")
     || negb (String.eqb (xml.Space (xml.Name_ start)) "stream")
  then (None, Some (errors_New "Start element must be stream:stream"))
  else StreamFromAttrs (xml.Attr_ start) zero_Stream.

Definition attribute (space local value : string) : xml.Attr :=
  {| xml.attr_Name := {| xml.Space := space; xml.Local := local |};
     xml.Value := value |}.

(** StartElement creates an XML start element from the given stream which
    is suitable for starting an XMPP stream. *)
Definition StartElement (s : Stream) : outcome xml.StartElement :=
  match EnforcedJID_String (to s) with
  | Panics msg => Panics msg
  | Returns to_String =>
    match EnforcedJID_String (from s) with
    | Panics msg => Panics msg
    | Returns from_String =>
      Returns
        {| xml.Name_ := {| xml.Space := "stream"; xml.Local := "stream" |};
           xml.Attr_ :=
             [ attribute EmptyString "to" to_String;
               attribute EmptyString "from" from_String;
               attribute EmptyString "version" (version s);
               attribute "xml" "lang" (lang s);
               attribute EmptyString "id" (id s);
               attribute EmptyString "xmlns" (xmlns s) ] |}
    end
  end.

End Stream.
End stream.

(** ** Dial deadlines (src/dial.go) *)

Module dial.

(** [time.Time] with the operations the file uses.  [Before] is a strict
    order in which two times may be neither before the other. *)
Class Clock := {
  Time : Type;
  Time_zero : Time;                       (* the zero value of [time.Time] *)
  IsZero : Time -> bool;
  Before : Time -> Time -> bool;
  Add : Time -> Z -> Time;                (* [t.Add(d)], [d] a [time.Duration] *)
  IsZero_zero : IsZero Time_zero = true;
  Before_asym : forall a b, Before a b = true -> Before b a = false;
  Before_trans : forall a b c, Before a b = false -> Before b c = false -> Before a c = false;
}.

Section Deadline.
Context {C : Clock}.

(** The fields of [net.Dialer] that [deadline] reads. *)
Record Dialer := {
  Timeout : Z;
  Deadline : Time;
}.

Definition minNonzeroTime (a b : Time) : Time :=
  if IsZero a then b
  else if IsZero b || Before a b then a
  else b.

(** deadline returns the earliest of now+Timeout, d.Deadline and the
    context's deadline, or zero if none of them is set.  [ctx_Deadline] is
    the result of [ctx.Deadline()]: [Some d] when [ok]. *)
Definition deadline (d : Dialer) (ctx_Deadline : option Time) (now : Time) : Time :=
  let earliest := if negb (Timeout d =? 0) then Add now (Timeout d) else Time_zero in
  let earliest :=
    match ctx_Deadline with
    | Some d' => minNonzeroTime earliest d'
    | None => earliest
    end in
  minNonzeroTime earliest (Deadline d).

End Deadline.
End dial.

(** ** A scripted environment

    In the manner of the repository's tests, which run a session over a
    [bytes.Buffer] or a [strings.Reader]: the bytes and tokens the peer will
    deliver are given in advance, and what the session writes is recorded. *)

Module sim.
Import go xmpp.

Record World := {
  rx : string;                    (* bytes the transport has still to deliver *)
  tx : list string;               (* the writes the transport received *)
  tokens : list xml.Token;        (* the tokens the decoder has still to read *)
  encoded : list xml.Token;       (* the tokens given to the encoder *)
  cancelled : option error;       (* the context's error once it is done *)
}.

Definition set_rx (w : World) (s : string) : World :=
  {| rx := s; tx := tx w; tokens := tokens w; encoded := encoded w;
     cancelled := cancelled w |}.

Definition set_tx (w : World) (l : list string) : World :=
  {| rx := rx w; tx := l; tokens := tokens w; encoded := encoded w;
     cancelled := cancelled w |}.

Definition set_tokens (w : World) (l : list xml.Token) : World :=
  {| rx := rx w; tx := tx w; tokens := l; encoded := encoded w;
     cancelled := cancelled w |}.

Definition set_encoded (w : World) (l : list xml.Token) : World :=
  {| rx := rx w; tx := tx w; tokens := tokens w; encoded := l;
     cancelled := cancelled w |}.

(** [bytes.Buffer.Read]: end of file on an empty buffer, unless [len(b)] is
    zero. *)
Definition Read_buffer (len_b : Z) : M World (string * option error) :=
  fun w =>
    if len_b =? 0 then (Val (EmptyString, None), w)
    else match rx w with
         | EmptyString => (Val (EmptyString, Some io_EOF), w)
         | data =>
           let n := Z.to_nat (Z.min len_b (len data)) in
           (Val (String.substring 0 n data, None),
            set_rx w (String.substring n (String.length data - n) data))
         end.

Definition Write_buffer (b : string) : M World (Z * option error) :=
  fun w => (Val (len b, None), set_tx w (tx w ++ [b])).

Definition Token_script : M World (xml.Token + error) :=
  fun w =>
    match tokens w with
    | [] => (Val (inr io_EOF), w)
    | t :: ts => (Val (inl t), set_tokens w ts)
    end.

(** The rest of [ts] after the end of the element whose start was read;
    [depth] counts the elements opened since. *)
Fixpoint skip (depth : nat) (ts : list xml.Token) : option (list xml.Token) :=
  match ts with
  | [] => None
  | xml.TStartElement _ :: ts' => skip (S depth) ts'
  | xml.TEndElement _ :: ts' =>
    match depth with
    | O => Some ts'
    | S d => skip d ts'
    end
  | _ :: ts' => skip depth ts'
  end.

Definition unexpected_EOF : error := errors_New "XML syntax error: unexpected EOF".

Definition Skip_script : M World (option error) :=
  fun w =>
    match skip 0 (tokens w) with
    | Some ts => (Val None, set_tokens w ts)
    | None => (Val (Some unexpected_EOF), set_tokens w [])
    end.

(** The character data directly inside the element, and the names of its
    children's character data, as the decoding of the SASL elements uses
    them. *)
Fixpoint chardata (ts : list xml.Token) : list string :=
  match ts with
  | xml.TCharData d :: ts' => d :: chardata ts'
  | xml.TStartElement _ :: ts' => chardata ts'
  | xml.TEndElement _ :: xml.TStartElement _ :: ts' => chardata ts'
  | _ => []
  end.

Definition DecodeElement_script {A} (f : list string -> A) (start : xml.StartElement)
  : M World (A * option error) :=
  fun w =>
    match skip 0 (tokens w) with
    | Some ts => (Val (f (chardata (tokens w)), None), set_tokens w ts)
    | None => (Val (f [], Some unexpected_EOF), set_tokens w [])
    end.

(** A scripted SASL client: the results its steps will give. *)
Definition Client : Type := list (bool * string * option error).

Definition Step_script (c : Client) (challenge : option string)
  : M World (Client * (bool * string * option error)) :=
  fun w =>
    match c with
    | [] => (Val ([], (false, EmptyString, None)), w)
    | r :: c' => (Val (c', r), w)
    end.

(** The SASL client is created from a script that the mechanism carries in
    [mech_impl]: 0 answers with an empty response, any other number with the
    response ["dXNlcg"]. *)
Definition NewClient_script (m : Mechanism) (o : list sasl_Option) : Client :=
  if (mech_impl m =? 0)%N then [(false, EmptyString, None)]
  else [(false, "dXNlcg", None)].

Definition runtime : Runtime World := {|
  rwc_Read := fun _ => Read_buffer;
  rwc_Write := fun _ => Write_buffer;
  rwc_Close := fun _ => ret None;
  Decoder_Token := Token_script;
  Decoder_Skip := Skip_script;
  Decoder_DecodeElement_strings := DecodeElement_script (fun l => l);
  Decoder_DecodeElement_chardata := DecodeElement_script (fun l => String.concat EmptyString l);
  Decoder_DecodeElement_failure := DecodeElement_script (fun _ => ext_error 1);
  Encoder_EncodeToken := fun t w => (Val None, set_encoded w (encoded w ++ [t]));
  Encoder_Flush := ret None;
  ctx_Err := fun w => (Val (cancelled w), w);
  sasl_Client := Client;
  sasl_NewClient := NewClient_script;
  sasl_Step := Step_script;
|}.

(** One assignment of bit positions, in the order of [1 << iota]. *)
Definition bits : StateBits := {|
  Secure_bit := 0;
  Authn_bit := 1;
  Ready_bit := 2;
  Received_bit := 3;
  OutputStreamClosed_bit := 4;
  InputStreamClosed_bit := 5;
  EndStream_bit := 6;
  StreamRestartRequired_bit := 7;
|}.

(** Maps enumerated in the order of [map_to_list]. *)
Definition order : MapOrder World := {|
  range_Features := fun _ m => map_to_list m;
  range_Features_perm := fun _ m => reflexivity (map_to_list m);
  range_cache := fun _ m => map_to_list m;
  range_cache_perm := fun _ m => reflexivity (map_to_list m);
|}.

(** An idle world with the given input. *)
Definition world (bytes : string) (toks : list xml.Token) : World :=
  {| rx := bytes; tx := []; tokens := toks; encoded := []; cancelled := None |}.

Definition zero_Config : Config :=
  {| Location := {| jid.localpart := EmptyString; jid.domainpart := "example.net";
                    jid.resourcepart := EmptyString |};
     Origin := {| jid.localpart := "mercutio"; jid.domainpart := "example.net";
                  jid.resourcepart := EmptyString |};
     S2S := false; TLSConfig_ := None;
     Identity := EmptyString; Password := "secret" |}.

(** A connection over a socket in the given state. *)
Definition conn (st : Z) : Conn :=
  {| config := zero_Config; rwc := rwc_net 1; state := st; origin := None;
     features := ∅; negotiated := ∅ |}.

End sim.

(** ** Features for the scripted environment *)

Module simfeatures.
Import go xmpp sim.

Definition Secure_ : Z := @Secure bits.
Definition Authn_ : Z := @Authn bits.
Definition Received_ : Z := @Received bits.

(** A [List] that writes an empty element and reports [required]. *)
Definition list_element (required : bool) (start : xml.StartElement)
  : M World (bool * option error) :=
  fun w =>
    (Val (required, None),
     set_encoded w (encoded w ++ [xml.TStartElement start; xml.End start])).

Definition parse_element (required : bool) (start : xml.StartElement)
  : M World (bool * any * option error) :=
  bind (@Decoder_Skip _ runtime) (fun err => ret (required, any_nil, err)).

(** A required feature, advertised until the stream is secure, whose
    negotiation succeeds and replaces the transport. *)
Definition tls_feature : StreamFeature World := {|
  Name := {| xml.Space := ns.StartTLS; xml.Local := "starttls" |};
  Necessary := 0;
  Prohibited := Secure_;
  List := list_element true;
  Parse := parse_element true;
  Negotiate := fun s _ => ret (Secure_, Some (tls_Server (rwc s) None), None);
|}.

(** A required feature, always advertised, whose negotiation fails. *)
Definition failing_error : error := errors_New "negotiation failed".

Definition failing_feature : StreamFeature World := {|
  Name := {| xml.Space := "urn:example:failing"; xml.Local := "failing" |};
  Necessary := 0;
  Prohibited := 0;
  List := list_element true;
  Parse := parse_element true;
  Negotiate := fun _ _ => ret (Authn_, None, Some failing_error);
|}.

(** A feature advertised only on a secure stream. *)
Definition bind_feature : StreamFeature World := {|
  Name := {| xml.Space := ns.Bind; xml.Local := "bind" |};
  Necessary := Secure_;
  Prohibited := 0;
  List := list_element true;
  Parse := parse_element true;
  Negotiate := fun _ _ => ret (0, None, None);
|}.

Definition configure (fs : list (StreamFeature World))
  : gmap xml.Name (StreamFeature World) :=
  list_to_map (map (fun f => (Name f, f)) fs).

Definition element (space local : string) : list xml.Token :=
  [ xml.TStartElement {| xml.Name_ := {| xml.Space := space; xml.Local := local |};
                         xml.Attr_ := [] |};
    xml.TEndElement {| xml.Space := space; xml.Local := local |} ].

Definition entry (f : StreamFeature World) (r : bool) : sfData World :=
  {| req := r; data := any_nil; feature := f |}.

End simfeatures.

(** * Properties *)

(** ** Strings *)

Module strfacts.
Import go.

Lemma app_cons c s t : String c s +:+ t = String c (s +:+ t).
Proof. reflexivity. Qed.

Lemma app_nil_l s : EmptyString +:+ s = s.
Proof. reflexivity. Qed.

Lemma app_nil_r s : s +:+ EmptyString = s.
Proof. induction s as [|c s IH]; [reflexivity|]. rewrite app_cons, IH. reflexivity. Qed.

Lemma app_assoc s t u : (s +:+ t) +:+ u = s +:+ (t +:+ u).
Proof. induction s as [|c s IH]; [reflexivity|]. rewrite !app_cons, IH. reflexivity. Qed.

Lemma app_eq_nil s t : s +:+ t = EmptyString -> s = EmptyString /\ t = EmptyString.
Proof. destruct s; [auto|]. rewrite app_cons. discriminate. Qed.

Lemma length_app s t : String.length (s +:+ t) = (String.length s + String.length t)%nat.
Proof. induction s as [|c s IH]; [reflexivity|]. rewrite app_cons. simpl. rewrite IH. reflexivity. Qed.

Lemma len_app s t : len (s +:+ t) = len s + len t.
Proof. unfold len. rewrite length_app. lia. Qed.

Lemma len_nonneg s : 0 <= len s.
Proof. unfold len. lia. Qed.

Lemma len_cons c s : len (String c s) = 1 + len s.
Proof. unfold len. simpl String.length. lia. Qed.

Lemma mem_byte_app c s t :
  strings.mem_byte c (s +:+ t) = strings.mem_byte c s || strings.mem_byte c t.
Proof.
  induction s as [|d s IH]; [reflexivity|].
  rewrite app_cons. simpl. destruct (Ascii.eqb c d); [reflexivity|apply IH].
Qed.

(** [IndexByte] finds a byte exactly when the byte occurs. *)
Lemma IndexByte_mem s c : (0 <=? strings.IndexByte s c) = strings.mem_byte c s.
Proof.
  induction s as [|d s IH]; [reflexivity|].
  simpl. rewrite (Ascii.eqb_sym d c). destruct (Ascii.eqb c d); [reflexivity|].
  rewrite <- IH. destruct (strings.IndexByte s c <? 0) eqn:E.
  - apply Z.ltb_lt in E. symmetry. apply Z.leb_gt. lia.
  - apply Z.ltb_ge in E. transitivity true; [apply Z.leb_le; lia|symmetry; apply Z.leb_le; lia].
Qed.

Lemma IndexByte_absent s c : strings.mem_byte c s = false -> strings.IndexByte s c = -1.
Proof.
  induction s as [|d s IH]; [reflexivity|].
  simpl. rewrite (Ascii.eqb_sym d c). destruct (Ascii.eqb c d); [discriminate|].
  intros H. rewrite (IH H). reflexivity.
Qed.

Lemma IndexByte_app s c t :
  strings.mem_byte c s = false -> strings.IndexByte (s +:+ String c t) c = len s.
Proof.
  induction s as [|d s IH].
  - intros _. rewrite app_nil_l. simpl. rewrite Ascii.eqb_refl. reflexivity.
  - rewrite app_cons. simpl. rewrite (Ascii.eqb_sym d c).
    destruct (Ascii.eqb c d); [discriminate|]. intros H. rewrite (IH H).
    pose proof (len_nonneg s). rewrite len_cons.
    destruct (len s <? 0) eqn:E; [apply Z.ltb_lt in E; lia|lia].
Qed.

Lemma substring_0_app s t : String.substring 0 (String.length s) (s +:+ t) = s.
Proof.
  induction s as [|c s IH].
  - rewrite app_nil_l. destruct t; reflexivity.
  - rewrite app_cons. simpl. rewrite IH. reflexivity.
Qed.

Lemma substring_skip s t n :
  String.substring (String.length s) n (s +:+ t) = String.substring 0 n t.
Proof.
  induction s as [|c s IH]; [reflexivity|].
  rewrite app_cons. simpl. apply IH.
Qed.

Lemma substring_all s : String.substring 0 (String.length s) s = s.
Proof. rewrite <- (app_nil_r s) at 2. apply substring_0_app. Qed.

End strfacts.

(** ** Regular expressions: the matcher decides the language *)

Module refacts.
Import go regexp strfacts.

(** The language of a regular expression. *)
Inductive lang : Regexp -> string -> Prop :=
| lang_eps : lang reEps EmptyString
| lang_char c : lang (reChar c) (String c EmptyString)
| lang_class n cs c :
    class_accepts n cs c = true -> lang (reClass n cs) (String c EmptyString)
| lang_cat a b u v : lang a u -> lang b v -> lang (reCat a b) (u +:+ v)
| lang_alt_l a b u : lang a u -> lang (reAlt a b) u
| lang_alt_r a b u : lang b u -> lang (reAlt a b) u
| lang_star_nil a : lang (reStar a) EmptyString
| lang_star_cons a u v : lang a u -> lang (reStar a) v -> lang (reStar a) (u +:+ v).

#[local] Hint Constructors lang : core.

Lemma nullable_lang r : nullable r = true <-> lang r EmptyString.
Proof.
  split.
  - induction r; simpl; intros H; try discriminate; auto.
    + apply andb_true_iff in H as [Ha Hb].
      change EmptyString with (EmptyString +:+ EmptyString). auto.
    + apply orb_true_iff in H as [Ha|Hb]; auto.
  - intros H. remember EmptyString as s eqn:E.
    induction H; simpl; try discriminate; auto.
    + apply app_eq_nil in E as [-> ->]. rewrite IHlang1, IHlang2; auto.
    + rewrite IHlang; auto.
    + rewrite IHlang; auto using orb_true_r.
Qed.

Lemma deriv_sound c r w : lang (deriv c r) w -> lang r (String c w).
Proof.
  revert w. induction r; simpl; intros w H.
  - inversion H.
  - inversion H.
  - destruct (Ascii.eqb_spec c c0); inversion H; subst. constructor.
  - destruct (class_accepts negated cs c) eqn:E; inversion H; subst. constructor; exact E.
  - destruct (nullable r1) eqn:N.
    + inversion H; subst.
      * match goal with Hc : lang (reCat _ _) _ |- _ => inversion Hc; subst end.
        rewrite <- app_cons. constructor; auto.
      * rewrite <- (app_nil_l (String c w)). constructor; [apply nullable_lang; exact N|auto].
    + inversion H; subst. rewrite <- app_cons. constructor; auto.
  - inversion H; subst; auto.
  - inversion H; subst. rewrite <- app_cons. constructor; auto.
Qed.

Lemma deriv_complete c r s :
  lang r s -> forall w, s = String c w -> lang (deriv c r) w.
Proof.
  induction 1; intros w E; simpl.
  - discriminate.
  - injection E as -> <-. rewrite Ascii.eqb_refl. constructor.
  - injection E as -> <-. rewrite H. constructor.
  - destruct u as [|d u].
    + rewrite app_nil_l in E. subst v.
      assert (N : nullable a = true) by (apply nullable_lang; assumption).
      rewrite N. apply lang_alt_r. auto.
    + rewrite app_cons in E. injection E as -> <-.
      specialize (IHlang1 _ eq_refl).
      destruct (nullable a); [apply lang_alt_l|]; constructor; auto.
  - apply lang_alt_l; auto.
  - apply lang_alt_r; auto.
  - discriminate.
  - destruct u as [|d u].
    + rewrite app_nil_l in E. auto.
    + rewrite app_cons in E. injection E as -> <-. constructor; auto.
Qed.

Lemma match_prefix_spec r s :
  match_prefix r s = true <-> exists u v, s = u +:+ v /\ lang r u.
Proof.
  revert r. induction s as [|c s IH]; intros r; simpl.
  - rewrite orb_false_r, nullable_lang. split.
    + intros H. exists EmptyString, EmptyString. auto.
    + intros (u & v & E & H). symmetry in E. apply app_eq_nil in E as [-> _]. exact H.
  - rewrite orb_true_iff, nullable_lang, IH. split.
    + intros [H|(u & v & -> & H)].
      * exists EmptyString, (String c s). auto.
      * exists (String c u), v. split; [reflexivity|]. apply deriv_sound, H.
    + intros (u & v & E & H). destruct u as [|d u]; [left; exact H|right].
      rewrite app_cons in E. injection E as <- ->.
      exists u, v. split; [reflexivity|]. eapply deriv_complete; eauto.
Qed.

Lemma match_anywhere_spec r s :
  match_anywhere r s = true <-> exists a u v, s = a +:+ u +:+ v /\ lang r u.
Proof.
  induction s as [|c s IH].
  - change (match_anywhere r EmptyString) with (match_prefix r EmptyString || false).
    rewrite orb_false_r, match_prefix_spec. split.
    + intros (u & v & E & H). exists EmptyString, u, v. auto.
    + intros (a & u & v & E & H). symmetry in E.
      apply app_eq_nil in E as [-> E]. exists u, v. auto.
  - change (match_anywhere r (String c s))
      with (match_prefix r (String c s) || match_anywhere r s).
    rewrite orb_true_iff, match_prefix_spec, IH. split.
    + intros [(u & v & E & H)|(a & u & v & -> & H)].
      * exists EmptyString, u, v. auto.
      * exists (String c a), u, v. auto.
    + intros (a & u & v & E & H). destruct a as [|d a].
      * left. exists u, v. auto.
      * right. rewrite app_cons in E. injection E as <- ->. exists a, u, v. auto.
Qed.

(** A non-empty run of bytes of a class is in the language of its [+]. *)
Lemma lang_plus_class n cs s :
  s <> EmptyString ->
  (forall c, strings.mem_byte c s = true -> class_accepts n cs c = true) ->
  lang (reCat (reClass n cs) (reStar (reClass n cs))) s.
Proof.
  induction s as [|c s IH]; [congruence|]. intros _ H.
  change (String c s) with (String c EmptyString +:+ s). constructor.
  - constructor. apply H. simpl. rewrite Ascii.eqb_refl. reflexivity.
  - destruct s as [|d s]; [constructor|].
    assert (IH' : lang (reCat (reClass n cs) (reStar (reClass n cs))) (String d s)).
    { apply IH; [discriminate|]. intros e He. apply H. simpl.
      destruct (Ascii.eqb e c); [reflexivity|exact He]. }
    inversion IH'; subst. constructor; auto.
Qed.

End refacts.

(** ** UTF-8 decoding and white space *)

Module utf8facts.
Import go utf8 strfacts.

Lemma decode_app_aux n : forall a b,
  (String.length a <= n)%nat -> ValidString a = true ->
  decode (a +:+ b) = decode a ++ decode b.
Proof.
  induction n as [|n IH]; intros a b Hn Hv.
  - destruct a; [reflexivity|simpl in Hn; lia].
  - destruct a as [|b0 t0]; [reflexivity|].
    rewrite app_cons. unfold ValidString in Hv. simpl in Hn.
    simpl in Hv |- *.
    destruct (lead_width b0) as [|[|[|[|[|k]]]]]; simpl in Hv; try discriminate.
    + apply andb_true_iff in Hv as [_ Hv].
      rewrite (IH t0 b); [reflexivity|lia|exact Hv].
    + destruct t0 as [|b1 t1]; [discriminate|]. rewrite app_cons.
      destruct (is_cont b1); simpl in Hv; [|discriminate].
      apply andb_true_iff in Hv as [_ Hv].
      simpl in Hn. rewrite (IH t1 b); [reflexivity|lia|exact Hv].
    + destruct t0 as [|b1 [|b2 t2]]; try discriminate. rewrite !app_cons.
      destruct (second_ok b0 b1 && is_cont b2); simpl in Hv; [|discriminate].
      apply andb_true_iff in Hv as [_ Hv].
      simpl in Hn. rewrite (IH t2 b); [reflexivity|lia|exact Hv].
    + destruct t0 as [|b1 [|b2 [|b3 t3]]]; try discriminate. rewrite !app_cons.
      destruct (second_ok b0 b1 && is_cont b2 && is_cont b3); simpl in Hv; [|discriminate].
      apply andb_true_iff in Hv as [_ Hv].
      simpl in Hn. rewrite (IH t3 b); [reflexivity|lia|exact Hv].
Qed.

(** Decoding goes through a concatenation whose left part is valid UTF-8. *)
Lemma decode_app a b :
  ValidString a = true -> decode (a +:+ b) = decode a ++ decode b.
Proof. apply (decode_app_aux (String.length a)). lia. Qed.

Lemma ValidString_app a b :
  ValidString a = true -> ValidString b = true -> ValidString (a +:+ b) = true.
Proof.
  intros Ha Hb. unfold ValidString. rewrite (decode_app a b Ha), forallb_app.
  unfold ValidString in Ha, Hb. rewrite Ha, Hb. reflexivity.
Qed.

Lemma join_bytes_cons c cs :
  strings.join_bytes (c :: cs) = c.2 +:+ strings.join_bytes cs.
Proof. reflexivity. Qed.

Lemma join_decode_aux n : forall s,
  (String.length s <= n)%nat -> strings.join_bytes (decode s) = s.
Proof.
  induction n as [|n IH]; intros s Hn.
  - destruct s; [reflexivity|simpl in Hn; lia].
  - destruct s as [|b0 t0]; [reflexivity|]. simpl in Hn. simpl decode.
    assert (Hinv : strings.join_bytes ((RuneError, String b0 EmptyString) :: decode t0)
                   = String b0 t0).
    { rewrite join_bytes_cons, (IH t0) by lia. reflexivity. }
    destruct (lead_width b0) as [|[|[|[|[|k]]]]]; cbv beta iota zeta; try exact Hinv.
    + destruct t0 as [|b1 t1]; [exact Hinv|].
      destruct (is_cont b1); [|exact Hinv].
      simpl in Hn. rewrite join_bytes_cons, (IH t1) by lia. reflexivity.
    + destruct t0 as [|b1 [|b2 t2]]; try exact Hinv.
      destruct (second_ok b0 b1 && is_cont b2); [|exact Hinv].
      simpl in Hn. rewrite join_bytes_cons, (IH t2) by lia. reflexivity.
    + destruct t0 as [|b1 [|b2 [|b3 t3]]]; try exact Hinv.
      destruct (second_ok b0 b1 && is_cont b2 && is_cont b3); [|exact Hinv].
      simpl in Hn. rewrite join_bytes_cons, (IH t3) by lia. reflexivity.
Qed.

(** The decoded chunks of a string spell the string. *)
Lemma join_decode s : strings.join_bytes (decode s) = s.
Proof. apply (join_decode_aux (String.length s)). lia. Qed.

Lemma decode_nonempty s : s <> EmptyString -> decode s <> [].
Proof.
  intros Hs Hd. pose proof (join_decode s) as H. rewrite Hd in H. simpl in H. congruence.
Qed.

(** No rune of [s] is white space. *)
Definition no_space (s : string) : bool :=
  forallb (fun c => negb (IsSpace c.1)) (decode s).

Lemma fields_last_length cs q cur :
  IsSpace q.1 = false -> (1 <= length (strings.fields (cs ++ [q]) cur))%nat.
Proof.
  revert cur. induction cs as [|c cs IH]; intros cur Hq; simpl.
  - rewrite Hq. destruct cur; simpl; lia.
  - destruct (IsSpace c.1).
    + destruct cur; simpl; [pose proof (IH None Hq); lia|apply IH, Hq].
    + apply IH, Hq.
Qed.

Lemma fields_one_no_space cs q f :
  IsSpace q.1 = false ->
  length (strings.fields (cs ++ [q]) (Some f)) = 1%nat ->
  forallb (fun c => negb (IsSpace c.1)) cs = true.
Proof.
  revert f. induction cs as [|c cs IH]; intros f Hq; simpl; [reflexivity|].
  destruct (IsSpace c.1) eqn:E; simpl.
  - pose proof (fields_last_length cs q None Hq). lia.
  - apply IH, Hq.
Qed.

(** The white-space test of [NormalizeJIDPart]: quoting the part and
    splitting it into fields gives one field only if the part has no space. *)
Lemma Fields_one_no_space p :
  ValidString p = true ->
  length (strings.Fields ("'" +:+ p +:+ "'")) = 1%nat ->
  no_space p = true.
Proof.
  intros Hv H. unfold strings.Fields in H.
  change ("'" +:+ p +:+ "'") with (String "'" (p +:+ "'")) in H.
  change (decode (String "'" (p +:+ "'")))
    with ((39%N, String "'" EmptyString) :: decode (p +:+ "'")) in H.
  rewrite (decode_app p "'" Hv) in H.
  eapply fields_one_no_space; [|exact H]. reflexivity.
Qed.

Lemma drop_spaces_head c cs :
  IsSpace c.1 = false -> strings.drop_spaces (c :: cs) = c :: cs.
Proof. intros H. simpl. rewrite H. reflexivity. Qed.

Lemma drop_spaces_no_space cs cs' :
  cs <> [] -> forallb (fun c => negb (IsSpace c.1)) cs = true ->
  strings.drop_spaces (cs ++ cs') = cs ++ cs'.
Proof.
  destruct cs as [|c cs]; [congruence|]. intros _ H. simpl in H.
  apply andb_true_iff in H as [H _]. apply negb_true_iff in H.
  apply (drop_spaces_head c (cs ++ cs') H).
Qed.

(** A string that begins and ends with a non-empty space-free part is left
    alone by [TrimSpace]. *)
Lemma TrimSpace_fixed l m r :
  ValidString l = true -> ValidString m = true ->
  l <> EmptyString -> r <> EmptyString ->
  no_space l = true -> no_space r = true ->
  strings.TrimSpace (l +:+ m +:+ r) = l +:+ m +:+ r.
Proof.
  intros Hl Hm Nl Nr Sl Sr. unfold strings.TrimSpace.
  rewrite (decode_app l _ Hl), (decode_app m _ Hm).
  rewrite (drop_spaces_no_space (decode l)); [|apply decode_nonempty, Nl|exact Sl].
  assert (E : rev (decode l ++ decode m ++ decode r)
              = rev (decode r) ++ (rev (decode m) ++ rev (decode l))).
  { rewrite !rev_app_distr, List.app_assoc. reflexivity. }
  rewrite E, (drop_spaces_no_space (rev (decode r))).
  - rewrite <- E, rev_involutive.
    rewrite <- (decode_app m _ Hm), <- (decode_app l _ Hl). apply join_decode.
  - intros E'. apply (decode_nonempty r Nr).
    rewrite <- (rev_involutive (decode r)), E'. reflexivity.
  - unfold no_space in Sr. rewrite forallb_forall in Sr |- *.
    intros c Hc. apply Sr. apply in_rev. exact Hc.
Qed.

End utf8facts.

(** ** The JID package *)

Module jidfacts.
Import go jid strfacts refacts utf8facts.

Lemma slice_prefix l t : slice (l +:+ t) 0 (len l) = Some l.
Proof.
  unfold slice. rewrite len_app. pose proof (len_nonneg l). pose proof (len_nonneg t).
  replace ((0 <=? 0) && (0 <=? len l) && (len l <=? len l + len t)) with true
    by (symmetry; rewrite !andb_true_iff, !Z.leb_le; lia).
  rewrite Z.sub_0_r. unfold len. rewrite Nat2Z.id. simpl Z.to_nat.
  rewrite substring_0_app. reflexivity.
Qed.

Lemma slice_middle a m t : slice (a +:+ m +:+ t) (len a) (len a + len m) = Some m.
Proof.
  unfold slice. rewrite !len_app.
  pose proof (len_nonneg a). pose proof (len_nonneg m). pose proof (len_nonneg t).
  replace ((0 <=? len a) && (len a <=? len a + len m)
           && (len a + len m <=? len a + (len m + len t))) with true
    by (symmetry; rewrite !andb_true_iff, !Z.leb_le; lia).
  replace (len a + len m - len a) with (len m) by lia.
  unfold len. rewrite !Nat2Z.id, substring_skip, substring_0_app. reflexivity.
Qed.

Lemma slice_from_suffix a t : slice_from (a +:+ t) (len a) = Some t.
Proof.
  unfold slice_from, slice. rewrite !len_app.
  pose proof (len_nonneg a). pose proof (len_nonneg t).
  replace ((0 <=? len a) && (len a <=? len a + len t)
           && (len a + len t <=? len a + len t)) with true
    by (symmetry; rewrite !andb_true_iff, !Z.leb_le; lia).
  replace (len a + len t - len a) with (len t) by lia.
  unfold len. rewrite !Nat2Z.id, substring_skip, substring_all. reflexivity.
Qed.

(** The pattern [JIDMatch], compiled. *)
Definition JIDre : regexp.Regexp :=
  let part := regexp.reCat (regexp.reClass true "@/")
                (regexp.reStar (regexp.reClass true "@/")) in
  regexp.reCat part
    (regexp.reCat (regexp.reChar "@")
       (regexp.reCat part (regexp.reCat (regexp.reChar "/") part))).

Lemma Compile_JIDMatch : regexp.Compile JIDMatch = Some JIDre.
Proof. reflexivity. Qed.

Lemma MatchString_JIDMatch s :
  regexp.MatchString JIDMatch s = (regexp.match_anywhere JIDre s, None).
Proof. unfold regexp.MatchString. rewrite Compile_JIDMatch. reflexivity. Qed.

(** Every string the pattern matches contains a slash. *)
Lemma lang_JIDre_slash u : lang JIDre u -> strings.mem_byte "/" u = true.
Proof.
  unfold JIDre. cbv zeta. intros H.
  inversion H as [| | |? ? u1 v1 _ H1| | | |]; subst.
  inversion H1 as [| | |? ? u2 v2 _ H2| | | |]; subst.
  inversion H2 as [| | |? ? u3 v3 _ H3| | | |]; subst.
  inversion H3 as [| | |? ? u4 v4 H4 _| | | |]; subst.
  inversion H4; subst.
  rewrite !mem_byte_app. simpl. rewrite !orb_true_r. reflexivity.
Qed.

Lemma no_slash_no_match s :
  strings.mem_byte "/" s = false -> regexp.match_anywhere JIDre s = false.
Proof.
  intros Hs. destruct (regexp.match_anywhere JIDre s) eqn:E; [|reflexivity].
  apply match_anywhere_spec in E as (a & u & v & -> & H).
  apply lang_JIDre_slash in H. rewrite !mem_byte_app, H, orb_true_r in Hs. discriminate.
Qed.

Lemma ContainsRune_mem s c : strings.ContainsRune s c = strings.mem_byte c s.
Proof. apply IndexByte_mem. Qed.

Lemma ContainsAny_false_mem p cs c :
  strings.ContainsAny p cs = false -> strings.mem_byte c cs = true ->
  strings.mem_byte c p = false.
Proof.
  intros Hp Hc. induction p as [|d p IH]; [reflexivity|].
  simpl in Hp |- *. apply orb_false_iff in Hp as [Hd Hp].
  destruct (Ascii.eqb_spec c d) as [->|_]; [congruence|auto].
Qed.

Lemma class_accepts_part p c :
  strings.ContainsAny p illegal_chars = false ->
  strings.mem_byte c p = true -> regexp.class_accepts true "@/" c = true.
Proof.
  intros Hp Hc. unfold regexp.class_accepts. simpl.
  destruct (Ascii.eqb_spec c "@") as [->|_].
  - rewrite (ContainsAny_false_mem p illegal_chars "@" Hp eq_refl) in Hc. discriminate.
  - destruct (Ascii.eqb_spec c "/") as [->|_]; [|reflexivity].
    rewrite (ContainsAny_false_mem p illegal_chars "/" Hp eq_refl) in Hc. discriminate.
Qed.

Definition zero_JID : JID :=
  {| localpart := EmptyString; domainpart := EmptyString; resourcepart := EmptyString |}.

Section WithPlatform.
Context {P : Platform}.

(** What [NormalizeJIDPart] has checked when it accepts a part. *)
Lemma NormalizeJIDPart_accepts p n :
  NormalizeJIDPart p = (n, None) ->
  n = NF_String p /\ len n <> 0 /\ len n <= 1023
  /\ utf8.ValidString p = true
  /\ strings.ContainsAny p illegal_chars = false
  /\ length (strings.Fields ("'" +:+ n +:+ "'")) = 1%nat.
Proof.
  unfold NormalizeJIDPart. cbv zeta.
  destruct (len (NF_String p) =? 0) eqn:E0; [discriminate|].
  destruct (1023 <? len (NF_String p)) eqn:E1; [discriminate|].
  destruct (utf8.ValidString p) eqn:Ev; [|discriminate]. simpl negb. cbv iota.
  destruct (strings.ContainsAny p illegal_chars) eqn:Ec; [discriminate|].
  destruct (Nat.eqb_spec (length (strings.Fields ("'" +:+ NF_String p +:+ "'"))) 1)
    as [Ef|Ef]; [|discriminate].
  simpl negb. cbv iota. intros [= <-].
  apply Z.eqb_neq in E0. apply Z.ltb_ge in E1. repeat split; assumption.
Qed.

(** A part that [NormalizeJIDPart] accepts unchanged. *)
Definition normal_part (p : string) : Prop := NormalizeJIDPart p = (p, None).

Lemma normal_part_facts p :
  normal_part p ->
  p <> EmptyString /\ utf8.ValidString p = true /\ no_space p = true
  /\ strings.mem_byte "@" p = false /\ strings.mem_byte "/" p = false
  /\ (forall c, strings.mem_byte c p = true -> regexp.class_accepts true "@/" c = true).
Proof.
  intros H. apply NormalizeJIDPart_accepts in H as (_ & Hn & _ & Hv & Hc & Hf).
  repeat split.
  - intros ->. apply Hn. reflexivity.
  - exact Hv.
  - apply Fields_one_no_space; assumption.
  - apply (ContainsAny_false_mem p illegal_chars "@" Hc eq_refl).
  - apply (ContainsAny_false_mem p illegal_chars "/" Hc eq_refl).
  - intros c. apply class_accepts_part, Hc.
Qed.

(** A domainpart that [SetDomainPart] stores as it is: no trailing dot, no
    enclosing bracket, and not an IPv6 address. *)
Definition plain_domain (d : string) : Prop :=
  strings.TrimRight d "." = d
  /\ strings.TrimPrefix d "[" = d
  /\ strings.TrimSuffix d "]" = d
  /\ (forall ip, net_ParseIP d = Some ip -> IP_To4 ip <> None).

End WithPlatform.
End jidfacts.

Module jidclaims.
Import go jid strfacts refacts utf8facts jidfacts.

Section WithPlatform.
Context {P : Platform}.

Lemma SetLocalPart_normal a l :
  normal_part l ->
  SetLocalPart a l
  = ({| localpart := l; domainpart := domainpart a; resourcepart := resourcepart a |}, None).
Proof. intros H. unfold SetLocalPart. rewrite H. reflexivity. Qed.

Lemma SetResourcePart_normal a r :
  normal_part r ->
  SetResourcePart a r
  = ({| localpart := localpart a; domainpart := domainpart a; resourcepart := r |}, None).
Proof. intros H. unfold SetResourcePart. rewrite H. reflexivity. Qed.

Lemma SetDomainPart_plain a d :
  normal_part d -> plain_domain d ->
  SetDomainPart a d
  = ({| localpart := localpart a; domainpart := d; resourcepart := resourcepart a |}, None).
Proof.
  intros H (H1 & H2 & H3 & H4). unfold SetDomainPart. cbv zeta.
  rewrite H1, H, H2, H3.
  destruct (net_ParseIP d) as [ip|] eqn:E; [|reflexivity].
  destruct (IP_To4 ip) eqn:E4; [reflexivity|]. exfalso. exact (H4 ip eq_refl E4).
Qed.

(** [FromString] accepts [local@domain/resource] when it has nothing to
    normalize, and stores the three parts as they are written. *)
Lemma FromString_full a l d r :
  normal_part l -> normal_part d -> normal_part r -> plain_domain d ->
  FromString a (l +:+ "@" +:+ d +:+ "/" +:+ r)
  = Returns ({| localpart := l; domainpart := d; resourcepart := r |}, None).
Proof.
  intros Hl Hd Hr Hp.
  destruct (normal_part_facts l Hl) as (Nl & Vl & Sl & Al & Ll & Cl).
  destruct (normal_part_facts d Hd) as (Nd & Vd & Sd & Ad & Ld & Cd).
  destruct (normal_part_facts r Hr) as (Nr & Vr & Sr & Ar & Lr & Cr).
  set (s := l +:+ "@" +:+ d +:+ "/" +:+ r).
  assert (Vs : utf8.ValidString s = true).
  { unfold s. repeat (apply ValidString_app; [try reflexivity; assumption|]). exact Vr. }
  assert (Ms : regexp.match_anywhere JIDre s = true).
  { apply match_anywhere_spec. exists EmptyString, s, EmptyString.
    split; [rewrite app_nil_l, app_nil_r; reflexivity|].
    unfold s, JIDre. cbv zeta.
    constructor; [apply lang_plus_class; assumption|].
    change ("@" +:+ d +:+ "/" +:+ r) with (String "@" EmptyString +:+ (d +:+ "/" +:+ r)).
    constructor; [constructor|].
    constructor; [apply lang_plus_class; assumption|].
    change ("/" +:+ r) with (String "/" EmptyString +:+ r).
    constructor; [constructor|]. apply lang_plus_class; assumption. }
  assert (Ts : strings.TrimSpace s = s).
  { unfold s. rewrite <- (app_assoc "@" d), <- (app_assoc ("@" +:+ d) "/").
    apply TrimSpace_fixed; try assumption.
    apply ValidString_app; [|reflexivity].
    change ("@" +:+ d) with (String "@" EmptyString +:+ d).
    apply ValidString_app; [reflexivity|exact Vd]. }
  assert (Iat : strings.IndexRune s "@" = len l).
  { unfold s, strings.IndexRune.
    change ("@" +:+ d +:+ "/" +:+ r) with (String "@" (d +:+ "/" +:+ r)).
    apply IndexByte_app, Al. }
  assert (Isl : strings.IndexRune s "/" = len l + 1 + len d).
  { unfold s, strings.IndexRune.
    change ("/" +:+ r) with (String "/" r).
    rewrite <- (app_assoc "@" d), <- (app_assoc l).
    rewrite IndexByte_app.
    - rewrite !len_app. change (len "@") with 1. lia.
    - rewrite !mem_byte_app, Ll, Ld. reflexivity. }
  unfold FromString. rewrite Vs, MatchString_JIDMatch, Ms. simpl negb. cbv iota zeta.
  rewrite andb_false_l. cbv iota.
  rewrite Ts, Iat, Isl.
  unfold s at 1. rewrite slice_prefix, (SetLocalPart_normal _ l Hl).
  assert (Sd' : slice s (len l + 1) (len l + 1 + len d) = Some d).
  { unfold s. rewrite <- (app_assoc l "@").
    change (len l + 1) with (len l + len "@"). rewrite <- len_app.
    apply slice_middle. }
  rewrite Sd', (SetDomainPart_plain _ d Hd Hp).
  assert (Sr' : slice_from s (len l + 1 + len d + 1) = Some r).
  { unfold s. rewrite <- (app_assoc "@" d), <- (app_assoc ("@" +:+ d) "/"), <- (app_assoc l).
    replace (len l + 1 + len d + 1) with (len (l +:+ ("@" +:+ d) +:+ "/")).
    - apply slice_from_suffix.
    - rewrite !len_app. change (len "@") with 1. change (len "/") with 1. lia. }
  rewrite Sr', (SetResourcePart_normal _ r Hr). reflexivity.
Qed.

(** [FromString] rejects whatever has no slash, before any normalization. *)
Lemma FromString_no_slash a s :
  strings.ContainsRune s "/" = false ->
  FromString a s
  = Returns (a, Some (errors_New (if utf8.ValidString s
                                  then ERROR_NO_RESOURCE
                                  else ERROR_INVALID_STRING))).
Proof.
  intros Hs. unfold FromString.
  destruct (utf8.ValidString s); [|reflexivity]. simpl negb. cbv iota.
  rewrite MatchString_JIDMatch, Hs.
  rewrite no_slash_no_match by (rewrite <- ContainsRune_mem; exact Hs).
  reflexivity.
Qed.

(** A part with one of the illegal characters is never accepted. *)
Lemma NormalizeJIDPart_illegal p :
  strings.ContainsAny p illegal_chars = true ->
  exists e, NormalizeJIDPart p = (EmptyString, Some e).
Proof.
  intros H. unfold NormalizeJIDPart. cbv zeta. rewrite H.
  destruct (len (NF_String p) =? 0); [eauto|].
  destruct (1023 <? len (NF_String p)); [eauto|].
  destruct (negb (utf8.ValidString p)); eauto.
Qed.

(** The length test of [NormalizeJIDPart] comes second, after the test for
    the empty part, and decides alone whether the long-part error is
    returned. *)
Lemma NormalizeJIDPart_long p :
  1023 < len (NF_String p) ->
  NormalizeJIDPart p = (EmptyString, Some (errors_New ERROR_LONG_PART)).
Proof.
  intros H. unfold NormalizeJIDPart. cbv zeta.
  destruct (Z.eqb_spec (len (NF_String p)) 0) as [E|_]; [lia|].
  destruct (Z.ltb_spec 1023 (len (NF_String p))) as [_|E]; [reflexivity|lia].
Qed.

Lemma NormalizeJIDPart_not_long p :
  len (NF_String p) <= 1023 ->
  NormalizeJIDPart p <> (EmptyString, Some (errors_New ERROR_LONG_PART)).
Proof.
  intros H. unfold NormalizeJIDPart. cbv zeta.
  destruct (len (NF_String p) =? 0); [discriminate|].
  destruct (Z.ltb_spec 1023 (len (NF_String p))) as [E|_]; [lia|].
  destruct (negb (utf8.ValidString p)); [discriminate|].
  destruct (strings.ContainsAny p illegal_chars); [discriminate|].
  destruct (negb _); discriminate.
Qed.

Lemma NormalizeJIDPart_in_range p :
  0 < len (NF_String p) <= 1023 ->
  utf8.ValidString p = true ->
  strings.ContainsAny p illegal_chars = false ->
  length (strings.Fields ("'" +:+ NF_String p +:+ "'")) = 1%nat ->
  NormalizeJIDPart p = (NF_String p, None).
Proof.
  intros H Hv Hc Hf. unfold NormalizeJIDPart. cbv zeta.
  destruct (Z.eqb_spec (len (NF_String p)) 0) as [E|_]; [lia|].
  destruct (Z.ltb_spec 1023 (len (NF_String p))) as [E|_]; [lia|].
  rewrite Hv, Hc, Hf. reflexivity.
Qed.

End WithPlatform.

(** *** The fixtures of [TestValidJIDs], evaluated on ASCII text *)

Definition parse_ascii (s : string) : outcome (JID * option error) :=
  @NewJID ascii_platform s.

Definition rejected (e : string) : outcome (JID * option error) :=
  Returns (zero_JID, Some (errors_New e)).

Example fixture_domain_only : parse_ascii "example.net" = rejected ERROR_NO_RESOURCE.
Proof. vm_compute. reflexivity. Qed.

Example fixture_domain_resource : parse_ascii "example.net/rp" = rejected ERROR_INVALID_JID.
Proof. vm_compute. reflexivity. Qed.

Example fixture_bare : parse_ascii "mercutio@example.net" = rejected ERROR_NO_RESOURCE.
Proof. vm_compute. reflexivity. Qed.

Example fixture_full :
  parse_ascii "mercutio@example.net/rp"
  = Returns ({| localpart := "mercutio"; domainpart := "example.net";
                resourcepart := "rp" |}, None).
Proof. vm_compute. reflexivity. Qed.

Example fixture_resource_at :
  parse_ascii "mercutio@example.net/rp@rp"
  = Returns ({| localpart := "mercutio"; domainpart := "example.net";
                resourcepart := EmptyString |},
             Some (errors_New ERROR_ILLEGAL_RUNE)).
Proof. vm_compute. reflexivity. Qed.

Example fixture_resource_at_slash :
  parse_ascii "mercutio@example.net/rp@rp/rp"
  = Returns ({| localpart := "mercutio"; domainpart := "example.net";
                resourcepart := EmptyString |},
             Some (errors_New ERROR_ILLEGAL_RUNE)).
Proof. vm_compute. reflexivity. Qed.

Example fixture_resource_only_at :
  parse_ascii "mercutio@example.net/@" = rejected ERROR_INVALID_JID.
Proof. vm_compute. reflexivity. Qed.

Example fixture_resource_slash_at :
  parse_ascii "mercutio@example.net//@" = rejected ERROR_INVALID_JID.
Proof. vm_compute. reflexivity. Qed.

Example fixture_resource_slashes :
  parse_ascii "mercutio@example.net//@//" = rejected ERROR_INVALID_JID.
Proof. vm_compute. reflexivity. Qed.

(** The format of [String_] always writes both separators. *)
Example String_domain_only :
  String_ {| localpart := EmptyString; domainpart := "example.net";
             resourcepart := EmptyString |} = "@example.net/".
Proof. reflexivity. Qed.

(** *** The claims about the JID package *)

(** The round trip the specification states: parsing [s] succeeds and
    formatting the result gives [s] back. *)
Definition round_trips {P : Platform} (s : string) : Prop :=
  exists j, NewJID s = Returns (j, None) /\ String_ j = s.

(** C1 (counterexample): the fixture [mercutio@example.net//@//], named in
    the claim, does not round-trip on any platform; parsing rejects it. *)
Lemma fixture_round_trip_fails :
  ~ exists P : Platform, @round_trips P "mercutio@example.net//@//".
Proof. intros (P & j & H & _). vm_compute in H. discriminate. Qed.

(** C1 (amended): for every string [local@domain/resource] whose three
    parts part validation accepts unchanged, and whose domainpart has no
    trailing dot, no enclosing bracket and is no IPv6 address, parsing
    succeeds and formatting the result gives the string back. *)
Theorem parse_String_round_trip {P : Platform} (l d r : string) :
  normal_part l -> normal_part d -> normal_part r -> plain_domain d ->
  round_trips (l +:+ "@" +:+ d +:+ "/" +:+ r).
Proof.
  intros Hl Hd Hr Hp. eexists. split.
  - unfold NewJID. apply FromString_full; assumption.
  - reflexivity.
Qed.

Lemma parse_String_round_trip_witness :
  @round_trips ascii_platform "mercutio@example.net/rp".
Proof.
  apply (@parse_String_round_trip ascii_platform "mercutio" "example.net" "rp").
  - vm_compute. reflexivity.
  - vm_compute. reflexivity.
  - vm_compute. reflexivity.
  - repeat split; try (vm_compute; reflexivity). intros ip H. discriminate H.
Defined.

(** C2 (counterexample): parsing the domain-only string [example.net]
    succeeds on no platform. *)
Lemma domain_only_is_rejected :
  ~ exists (P : Platform) (j : JID), @NewJID P "example.net" = Returns (j, None).
Proof. intros (P & j & H). vm_compute in H. discriminate. Qed.

(** C2 (amended): JID parsing rejects every string that contains no [/],
    in particular one with neither [@] nor [/]: the error is
    [ERROR_NO_RESOURCE] ("String is a bare JID") for valid UTF-8 and
    [ERROR_INVALID_STRING] otherwise, and no part is set. *)
Theorem parse_rejects_bare {P : Platform} (s : string) :
  strings.ContainsRune s "/" = false ->
  NewJID s = Returns (zero_JID,
                      Some (errors_New (if utf8.ValidString s
                                        then ERROR_NO_RESOURCE
                                        else ERROR_INVALID_STRING))).
Proof. intros H. unfold NewJID. apply FromString_no_slash, H. Qed.

Lemma parse_rejects_bare_witness :
  @NewJID ascii_platform "example.net"
  = Returns (zero_JID, Some (errors_New ERROR_NO_RESOURCE)).
Proof.
  apply (@parse_rejects_bare ascii_platform "example.net"). vm_compute. reflexivity.
Defined.

(** C3: a part longer than 1023 bytes after NFKC normalization is rejected
    with the long-part error; a part of at most 1023 bytes never is, and a
    part of exactly 1023 bytes is accepted when it passes the tests that do
    not look at the length (valid UTF-8, no illegal character, no white
    space). *)
Theorem NormalizeJIDPart_length_boundary {P : Platform} (part : string) :
  (1023 < len (NF_String part) ->
   NormalizeJIDPart part = (EmptyString, Some (errors_New ERROR_LONG_PART)))
  /\ (len (NF_String part) <= 1023 ->
      NormalizeJIDPart part <> (EmptyString, Some (errors_New ERROR_LONG_PART)))
  /\ (len (NF_String part) = 1023 ->
      utf8.ValidString part = true ->
      strings.ContainsAny part illegal_chars = false ->
      length (strings.Fields ("'" +:+ NF_String part +:+ "'")) = 1%nat ->
      NormalizeJIDPart part = (NF_String part, None)).
Proof.
  split; [|split].
  - apply NormalizeJIDPart_long.
  - apply NormalizeJIDPart_not_long.
  - intros H. apply NormalizeJIDPart_in_range. lia.
Qed.

(** A part of [n] bytes. *)
Definition part_of_length (n : nat) : string :=
  string_of_list_ascii (repeat "a"%char n).

Lemma NormalizeJIDPart_length_boundary_witness :
  @NormalizeJIDPart ascii_platform (part_of_length 1024)
  = (EmptyString, Some (errors_New ERROR_LONG_PART))
  /\ @NormalizeJIDPart ascii_platform (part_of_length 1023)
     = (part_of_length 1023, None).
Proof.
  split.
  - apply (proj1 (@NormalizeJIDPart_length_boundary ascii_platform (part_of_length 1024))).
    vm_compute. reflexivity.
  - apply (proj2 (proj2 (@NormalizeJIDPart_length_boundary ascii_platform
                           (part_of_length 1023)))); vm_compute; reflexivity.
Defined.

End jidclaims.

(** ** The session state bits *)

Module bitfacts.
Import go xmpp.

Lemma state_bit_pow k : state_bit k = 2 ^ Z.of_N k.
Proof. unfold state_bit. apply Z.shiftl_1_l. Qed.

Lemma state_bit_nonzero k : state_bit k <> 0.
Proof. rewrite state_bit_pow. apply Z.pow_nonzero; lia. Qed.

(** Masking with a state bit keeps that bit and nothing else. *)
Lemma land_state_bit m k :
  Z.land m (state_bit k) = if Z.testbit m (Z.of_N k) then state_bit k else 0.
Proof.
  rewrite state_bit_pow. apply Z.bits_inj'. intros i Hi.
  rewrite Z.land_spec, Z.pow2_bits_eqb by lia.
  destruct (Z.eqb_spec (Z.of_N k) i) as [<-|Hne].
  - rewrite andb_true_r. destruct (Z.testbit m (Z.of_N k)) eqn:E.
    + rewrite Z.pow2_bits_true by lia. reflexivity.
    + rewrite Z.bits_0. reflexivity.
  - rewrite andb_false_r. destruct (Z.testbit m (Z.of_N k)).
    + rewrite Z.pow2_bits_false by lia. reflexivity.
    + rewrite Z.bits_0. reflexivity.
Qed.

(** The test [state & X == X] of the sources reads the bit of [X]. *)
Lemma has_bit m k :
  (Z.land m (state_bit k) =? state_bit k) = Z.testbit m (Z.of_N k).
Proof.
  rewrite land_state_bit. destruct (Z.testbit m (Z.of_N k)).
  - apply Z.eqb_refl.
  - apply Z.eqb_neq. intros E. symmetry in E. exact (state_bit_nonzero k E).
Qed.

End bitfacts.

(** ** Reading from a closed input stream: tokens and bytes *)

Module connfacts.
Import go xmpp bitfacts.

Section Connection.
Context {B : StateBits} {W : Type} {R : Runtime W}.

(** The error that [Conn.Read] makes when the input stream is closed. *)
Definition closed_input_error : error := errors_New "XML input stream is closed".

Lemma Read_closed c len_b w :
  Z.testbit (state c) (Z.of_N InputStreamClosed_bit) = true ->
  Read c len_b w = (Val (EmptyString, Some closed_input_error), w).
Proof. intros H. unfold Read, InputStreamClosed. rewrite has_bit, H. reflexivity. Qed.

Lemma Read_open c len_b w :
  Z.testbit (state c) (Z.of_N InputStreamClosed_bit) = false ->
  Read c len_b w = rwc_Read (rwc c) len_b w.
Proof. intros H. unfold Read, InputStreamClosed. rewrite has_bit, H. reflexivity. Qed.

Lemma Token_closed (s : Session) w :
  Z.testbit (state s) (Z.of_N InputStreamClosed_bit) = true ->
  Token s w = (Val (inr ErrInputStreamClosed), w).
Proof. intros H. unfold Token, InputStreamClosed. rewrite has_bit, H. reflexivity. Qed.

Lemma Token_open (s : Session) w :
  Z.testbit (state s) (Z.of_N InputStreamClosed_bit) = false ->
  Token s w = Decoder_Token w.
Proof. intros H. unfold Token, InputStreamClosed. rewrite has_bit, H. reflexivity. Qed.

(** C4 (amended): for every state mask [m], on a session whose state is
    [m].  When the [InputStreamClosed] bit of [m] is set, reading a token
    returns the value of [ErrInputStreamClosed], and reading bytes returns
    no byte and an error that [Conn.Read] makes on the spot with the text
    "XML input stream is closed", which is not that value; neither read
    touches the tokenizer or the transport.  When the bit is clear the reads
    are the tokenizer's and the transport's, hence end of file when these
    report it, as they do on an empty buffer.  Every mask is in one of the
    two cases. *)
Theorem closed_input_stream (m : Z) (c : Conn) (len_b : Z) (w : W) :
  let s := set_state c m in
  (Z.land m InputStreamClosed = InputStreamClosed ->
   Token s w = (Val (inr ErrInputStreamClosed), w)
   /\ Read s len_b w = (Val (EmptyString, Some (errors_New "XML input stream is closed")), w)
   /\ errors_New "XML input stream is closed" <> ErrInputStreamClosed)
  /\ (Z.land m InputStreamClosed = 0 ->
      Token s w = Decoder_Token w
      /\ Read s len_b w = rwc_Read (rwc c) len_b w
      /\ (forall w', Decoder_Token w = (Val (inr io_EOF), w') ->
                     Token s w = (Val (inr io_EOF), w'))
      /\ (forall w', rwc_Read (rwc c) len_b w = (Val (EmptyString, Some io_EOF), w') ->
                     Read s len_b w = (Val (EmptyString, Some io_EOF), w')))
  /\ (Z.land m InputStreamClosed = InputStreamClosed
      \/ Z.land m InputStreamClosed = 0).
Proof.
  cbv zeta. unfold InputStreamClosed. rewrite (land_state_bit m InputStreamClosed_bit).
  destruct (Z.testbit m (Z.of_N InputStreamClosed_bit)) eqn:E.
  - split; [|split].
    + intros _. split; [apply Token_closed; exact E|].
      split; [apply Read_closed; exact E|discriminate].
    + intros H. exfalso. exact (state_bit_nonzero _ H).
    + left. reflexivity.
  - split; [|split].
    + intros H. exfalso. symmetry in H. exact (state_bit_nonzero _ H).
    + intros _.
      assert (Ht : Token (set_state c m) w = Decoder_Token w)
        by exact (Token_open (set_state c m) w E).
      assert (Hr : Read (set_state c m) len_b w = rwc_Read (rwc c) len_b w)
        by exact (Read_open (set_state c m) len_b w E).
      split; [exact Ht|]. split; [exact Hr|]. split.
      * intros w' Hw. rewrite Ht. exact Hw.
      * intros w' Hw. rewrite Hr. exact Hw.
    + right. reflexivity.
Qed.

End Connection.

(** *** The test of the repository on the scripted transport *)

(** An empty buffer, as the test's [new(bytes.Buffer)]. *)
Definition idle : sim.World := sim.world EmptyString [].

Definition token_empty (m : Z) : option (xml.Token + error) :=
  match @Token sim.bits sim.World sim.runtime (sim.conn m) idle with
  | (Val r, _) => Some r
  | _ => None
  end.

Definition read_empty (m : Z) : option (string * option error) :=
  match @Read sim.bits sim.World sim.runtime (sim.conn m) 512 idle with
  | (Val r, _) => Some r
  | _ => None
  end.

(** The test's comparison [err != want]. *)
Definition differs (r : option (xml.Token + error)) (want : error) : bool :=
  match r with
  | Some (inr err) => negb (bool_decide (err = want))
  | _ => true
  end.

(** TestClosedInputStream passes for [Session.Token]: on every mask from 0
    to 255 neither of its two cases reports an error. *)
Example TestClosedInputStream :
  forallb (fun i =>
             let mask := Z.of_nat i in
             let closed := Z.land mask (@InputStreamClosed sim.bits) in
             negb ((closed =? @InputStreamClosed sim.bits)
                   && differs (token_empty mask) ErrInputStreamClosed)
             && negb ((closed =? 0) && differs (token_empty mask) io_EOF))
    (seq 0 256) = true.
Proof. vm_compute. reflexivity. Qed.

(** The same masks read through [Conn.Read]. *)
Example Read_on_every_mask :
  forallb (fun i =>
             bool_decide (read_empty (Z.of_nat i)
                          = Some (EmptyString,
                                  Some (if Z.testbit (Z.of_nat i) 5
                                        then closed_input_error else io_EOF))))
    (seq 0 256) = true.
Proof. vm_compute. reflexivity. Qed.

(** C4 (counterexample): the state mask 32 has the [InputStreamClosed] bit
    set, and reading bytes from a connection in that state does not return
    the value of [ErrInputStreamClosed]: the error is one that [Conn.Read]
    has just made. *)
Lemma Read_error_is_not_ErrInputStreamClosed :
  Z.land 32 (@InputStreamClosed sim.bits) = @InputStreamClosed sim.bits
  /\ @Read sim.bits _ sim.runtime (sim.conn 32) 512 idle
     = (Val (EmptyString, Some (errors_New "XML input stream is closed")), idle)
  /\ ~ exists b w',
         @Read sim.bits _ sim.runtime (sim.conn 32) 512 idle
         = (Val (b, Some ErrInputStreamClosed), w').
Proof.
  split; [vm_compute; reflexivity|]. split; [vm_compute; reflexivity|].
  intros (b & w' & H). vm_compute in H. discriminate H.
Qed.

Lemma closed_input_stream_witness :
  (@Token sim.bits _ sim.runtime (set_state (sim.conn 0) 32) idle
   = (Val (inr ErrInputStreamClosed), idle)
   /\ @Read sim.bits _ sim.runtime (set_state (sim.conn 0) 32) 512 idle
      = (Val (EmptyString, Some (errors_New "XML input stream is closed")), idle)
   /\ errors_New "XML input stream is closed" <> ErrInputStreamClosed)
  /\ @Token sim.bits _ sim.runtime (set_state (sim.conn 0) 3) idle
     = (Val (inr io_EOF), idle)
  /\ @Read sim.bits _ sim.runtime (set_state (sim.conn 0) 3) 512 idle
     = (Val (EmptyString, Some io_EOF), idle).
Proof.
  split.
  - apply (proj1 (@closed_input_stream sim.bits _ sim.runtime 32 (sim.conn 0) 512 idle)).
    vm_compute. reflexivity.
  - destruct (proj1 (proj2 (@closed_input_stream sim.bits _ sim.runtime 3 (sim.conn 0)
                              512 idle)) ltac:(vm_compute; reflexivity))
      as (_ & _ & Htoken & Hread).
    split.
    + apply Htoken. vm_compute. reflexivity.
    + apply Hread. vm_compute. reflexivity.
Defined.

End connfacts.

(** ** STARTTLS *)

Module starttlsfacts.
Import go xmpp xmpp.starttls bitfacts.

Section StartTLS.
Context {B : StateBits} {W : Type} {R : Runtime W}.

(** The handler on the initiating side, up to the token it reads in answer
    to [<starttls/>]. *)
Lemma Handler_initiator conn w n w1 :
  is_net_Conn (rwc conn) = true ->
  Z.testbit (state conn) (Z.of_N Received_bit) = false ->
  Fprint conn starttls_element w = (Val n, w1) ->
  StartTLS_Handler conn w
  = bind Decoder_Token
      (fun t =>
         match t with
         | inr err => ret (conn, (0, Some err))
         | inl (xml.TStartElement tok) =>
           if negb (String.eqb (xml.Space (xml.Name_ tok)) NSStartTLS) then
             ret (conn, (0, Some UnsupportedStanzaType))
           else if String.eqb (xml.Local (xml.Name_ tok)) "proceed" then
             bind Decoder_Skip
               (fun err =>
                  match err with
                  | Some _ => ret (conn, (EndStream, Some InvalidXML))
                  | None =>
                    ret (set_rwc conn (tls_Client (rwc conn) (TLSConfig_ (config conn))),
                         (Z.lor Secure StreamRestartRequired, None))
                  end)
           else if String.eqb (xml.Local (xml.Name_ tok)) "failure" then
             bind Decoder_Skip
               (fun err =>
                  ret (conn, (EndStream,
                              match err with Some _ => Some InvalidXML | None => None end)))
           else ret (conn, (0, Some UnsupportedStanzaType))
         | inl _ => ret (conn, (0, Some RestrictedXML))
         end) w1.
Proof.
  intros Hn Hr Hw. unfold StartTLS_Handler. rewrite Hn.
  unfold Received. rewrite has_bit, Hr. cbv beta iota delta [negb].
  unfold bind at 1. rewrite Hw. reflexivity.
Qed.


End StartTLS.






End starttlsfacts.

(** ** SASL *)

Module saslfacts.
Import go xmpp xmpp.sasl bitfacts.

Section SASL.
Context {B : StateBits} {W : Type} {R : Runtime W}.

(** The payload of [<auth/>] for the response of the first client step. *)
Definition initial_payload (resp : string) : string :=
  match resp with
  | EmptyString => "="
  | _ => resp
  end.

Lemma len_zero s : (len s =? 0) = match s with EmptyString => true | _ => false end.
Proof.
  destruct s; [reflexivity|]. apply Z.eqb_neq. rewrite strfacts.len_cons.
  pose proof (strfacts.len_nonneg s). lia.
Qed.

(** [Negotiate] on the initiating side, from the first client step on. *)
Lemma Negotiate_initiator fuel m ms conn names w client more resp w1 :
  Z.testbit (state conn) (Z.of_N Received_bit) = false ->
  mech_Name (select_mechanism (m :: ms) names) <> EmptyString ->
  sasl_Step (sasl_NewClient (select_mechanism (m :: ms) names) (opts conn names)) None w
  = (Val (client, (more, resp, None)), w1) ->
  SASL_Negotiate fuel (m :: ms) conn (any_strings names) w
  = bind (Fprint conn (auth_element (mech_Name (select_mechanism (m :: ms) names))
                         (initial_payload resp)))
      (fun r => after_auth fuel conn client more r.2) w1.
Proof.
  intros Hr Hn Hs. unfold SASL_Negotiate, Received. rewrite has_bit, Hr. cbv iota.
  destruct (String.eqb_spec (mech_Name (select_mechanism (m :: ms) names)) EmptyString)
    as [E|_]; [contradiction|].
  cbv zeta. unfold bind at 1. rewrite Hs. cbv beta iota.
  rewrite len_zero. unfold initial_payload, bind.
  destruct resp; destruct (Fprint _ _ w1) as [[[n e]| |] w2]; reflexivity.
Qed.

(** C7: on the initiating side, when a mechanism is selected and the first
    client step succeeds with the response [resp], the next thing handed to
    the connection is the [<auth/>] element of the selected mechanism, whose
    content is the single character [=] if [resp] has length zero and
    [resp] itself otherwise; negotiation goes on from the result of that
    write. *)
Theorem SASL_initial_response (fuel : nat) (m : Mechanism) (ms : list Mechanism)
    (conn : Conn) (names : list string) (w w1 : W) (client : sasl_Client)
    (more : bool) (resp : string) :
  let selected := select_mechanism (m :: ms) names in
  Z.land (state conn) Received <> Received ->
  mech_Name selected <> EmptyString ->
  sasl_Step (sasl_NewClient selected (opts conn names)) None w
  = (Val (client, (more, resp, None)), w1) ->
  (len resp = 0 ->
   SASL_Negotiate fuel (m :: ms) conn (any_strings names) w
   = bind (Fprint conn
             ("<auth xmlns='urn:ietf:params:xml:ns:xmpp-sasl' mechanism='"
              +:+ mech_Name selected +:+ "'>" +:+ "=" +:+ "</auth>"))
       (fun r => after_auth fuel conn client more r.2) w1)
  /\ (len resp <> 0 ->
      SASL_Negotiate fuel (m :: ms) conn (any_strings names) w
      = bind (Fprint conn
                ("<auth xmlns='urn:ietf:params:xml:ns:xmpp-sasl' mechanism='"
                 +:+ mech_Name selected +:+ "'>" +:+ resp +:+ "</auth>"))
          (fun r => after_auth fuel conn client more r.2) w1).
Proof.
  cbv zeta. intros Hr Hn Hs.
  assert (Hr' : Z.testbit (state conn) (Z.of_N Received_bit) = false).
  { destruct (Z.testbit (state conn) (Z.of_N Received_bit)) eqn:E; [|reflexivity].
    exfalso. apply Hr. unfold Received. rewrite land_state_bit, E. reflexivity. }
  rewrite (Negotiate_initiator fuel m ms conn names w client more resp w1 Hr' Hn Hs).
  split; intros Hl.
  - destruct resp; [reflexivity|]. rewrite strfacts.len_cons in Hl.
    pose proof (strfacts.len_nonneg resp). lia.
  - destruct resp; [contradiction Hl; reflexivity|reflexivity].
Qed.

(** C9: constructing the SASL feature with no mechanism panics; with at
    least one it returns a feature that is advertised once the stream is
    secure ([Necessary] is [Secure]) and not yet authenticated
    ([Prohibited] is [Authn]). *)
Theorem SASL_constructor (fuel : nat) :
  @SASL B W R fuel [] = Panics no_mechanisms_panic
  /\ forall (m : Mechanism) (ms : list Mechanism),
       exists f, @SASL B W R fuel (m :: ms) = Returns f
                 /\ Necessary f = Secure /\ Prohibited f = Authn
                 /\ Name f = {| xml.Space := ns.SASL; xml.Local := "mechanisms" |}.
Proof.
  split; [reflexivity|]. intros m ms. eexists. split; [reflexivity|]. auto.
Qed.

End SASL.

(** Two mechanisms for the scripted client: the first step of [EXTERNAL]
    answers with an empty response, that of [PLAIN] with a non-empty one. *)
Definition EXTERNAL : Mechanism := {| mech_Name := "EXTERNAL"; mech_impl := 0 |}.
Definition PLAIN : Mechanism := {| mech_Name := "PLAIN"; mech_impl := 1 |}.

Definition success_tokens : list xml.Token :=
  [ xml.TStartElement {| xml.Name_ := {| xml.Space := ns.SASL; xml.Local := "success" |};
                         xml.Attr_ := [] |};
    xml.TEndElement {| xml.Space := ns.SASL; xml.Local := "success" |} ].

(** What the initiator writes when it negotiates with the first of
    [mechanisms] that the peer offers. *)
Definition negotiate_writes (mechanisms : list Mechanism) (offered : list string)
  : list string :=
  sim.tx (@SASL_Negotiate sim.bits _ sim.runtime 4 mechanisms (sim.conn 1)
            (any_strings offered) (sim.world EmptyString success_tokens)).2.

Example auth_empty_response :
  negotiate_writes [EXTERNAL; PLAIN] ["PLAIN"; "EXTERNAL"]
  = ["<auth xmlns='urn:ietf:params:xml:ns:xmpp-sasl' mechanism='EXTERNAL'>=</auth>"].
Proof. vm_compute. reflexivity. Qed.

Example auth_response :
  negotiate_writes [EXTERNAL; PLAIN] ["PLAIN"]
  = ["<auth xmlns='urn:ietf:params:xml:ns:xmpp-sasl' mechanism='PLAIN'>dXNlcg</auth>"].
Proof. vm_compute. reflexivity. Qed.

Lemma SASL_initial_response_witness :
  @SASL_Negotiate sim.bits _ sim.runtime 4 [EXTERNAL; PLAIN] (sim.conn 1)
    (any_strings ["EXTERNAL"]) (sim.world EmptyString success_tokens)
  = (Val (@Authn sim.bits, Some (rwc_net 1), None),
     sim.set_tx (sim.world EmptyString [])
       ["<auth xmlns='urn:ietf:params:xml:ns:xmpp-sasl' mechanism='EXTERNAL'>=</auth>"]).
Proof.
  rewrite (proj1 (@SASL_initial_response sim.bits _ sim.runtime 4 EXTERNAL [PLAIN]
                    (sim.conn 1) ["EXTERNAL"] (sim.world EmptyString success_tokens)
                    (sim.world EmptyString success_tokens) [] false EmptyString
                    ltac:(vm_compute; discriminate) ltac:(vm_compute; discriminate)
                    ltac:(vm_compute; reflexivity)) ltac:(vm_compute; reflexivity)).
  vm_compute. reflexivity.
Defined.

End saslfacts.

(** ** Stream features *)

Module featurefacts.
Import go xmpp bitfacts.

Lemma filter_length_Permutation {A} (f : A -> bool) (l l' : list A) :
  Permutation l l' -> length (List.filter f l) = length (List.filter f l').
Proof.
  induction 1 as [|x l l' _ IH|x y l|l l' l'' _ IH1 _ IH2]; simpl.
  - reflexivity.
  - destruct (f x); simpl; congruence.
  - destruct (f x), (f y); reflexivity.
  - congruence.
Qed.

Lemma NoDup_List_filter {A} (f : A -> bool) (l : list A) :
  NoDup l -> NoDup (List.filter f l).
Proof.
  induction 1 as [|x l Hx _ IH]; simpl; [constructor|].
  destruct (f x); [|exact IH]. constructor; [|exact IH].
  intros Hin. apply Hx. apply list_elem_of_In in Hin. apply filter_In in Hin as [Hin _].
  apply list_elem_of_In. exact Hin.
Qed.

Section Features.
Context {B : StateBits} {W : Type} {R : Runtime W} {MO : MapOrder W}.

(** All of the feature's [Necessary] bits are set in the state and none of
    its [Prohibited] bits. *)
Definition advertisable (st : Z) (f : StreamFeature W) : Prop :=
  Z.land st (Necessary f) = Necessary f /\ Z.land st (Prohibited f) = 0.

Lemma gate_spec st f : gate st f = true <-> advertisable st f.
Proof. unfold gate, advertisable. rewrite andb_true_iff, !Z.eqb_eq. reflexivity. Qed.

Definition gated (s : Session) (kf : xml.Name * StreamFeature W) : bool :=
  gate (state s) kf.2.

(** The entry of the advertised cache for a feature whose [List] reported
    [r]. *)
Definition advertised (list : streamFeaturesList W) (feature : StreamFeature W) (r : bool)
  : streamFeaturesList W :=
  {| total := total list + 1;
     list_req := if r then true else list_req list;
     cache := <[ xml.Space (Name feature) :=
                  {| req := r; data := any_nil; feature := feature |} ]> (cache list) |}.

(** In the words of the specification: call the [List] of each of the
    features to advertise, and note which are required. *)
Fixpoint advertise_each (fs : list (xml.Name * StreamFeature W))
    (list : streamFeaturesList W) : M W (streamFeaturesList W * option error) :=
  match fs with
  | [] => ret (list, None)
  | (_, feature) :: fs' =>
    bind (List feature {| xml.Name_ := Name feature; xml.Attr_ := [] |})
      (fun '(r, err) =>
         match err with
         | Some e => ret (list, Some e)
         | None => advertise_each fs' (advertised list feature r)
         end)
  end.

(** The loop of [writeStreamFeatures] lists exactly the features that pass
    the gate, in the order of the enumeration. *)
Lemma writeStreamFeatures_range_filter s fs list w :
  writeStreamFeatures_range s fs list w
  = advertise_each (List.filter (gated s) fs) list w.
Proof.
  revert list w. induction fs as [|[k f] fs IH]; intros list w; [reflexivity|].
  simpl. unfold gated at 1. simpl. destruct (gate (state s) f); [|apply IH].
  simpl. unfold bind. destruct (List f _ w) as [[[r [e|]]| |] w']; try reflexivity.
  apply IH.
Qed.

Lemma advertise_each_cache fs : forall list w list' err w',
  advertise_each fs list w = (Val (list', err), w') ->
  forall ns d, cache list' !! ns = Some d ->
    cache list !! ns = Some d
    \/ (exists k, In (k, feature d) fs) /\ ns = xml.Space (Name (feature d))
       /\ data d = any_nil.
Proof.
  induction fs as [|[k f] fs IH]; intros list w list' err w' H ns d Hd; simpl in H.
  - injection H as <- _ _. left. exact Hd.
  - unfold bind in H. destruct (List f _ w) as [[[r [e|]]| |] w1]; try discriminate.
    + injection H as <- _ _. left. exact Hd.
    + destruct (IH _ _ _ _ _ H ns d Hd) as [Hc|(Hin & Hns & Hdata)].
      * unfold advertised in Hc. simpl in Hc.
        destruct (decide (xml.Space (Name f) = ns)) as [<-|Hne].
        -- rewrite lookup_insert_eq in Hc. injection Hc as <-. simpl.
           right. split; [exists k; left; reflexivity|]. split; reflexivity.
        -- rewrite lookup_insert_ne in Hc by exact Hne. left. exact Hc.
      * right. destruct Hin as [k' Hin]. split; [exists k'; right; exact Hin|]. split; assumption.
Qed.

Lemma advertise_each_keeps fs : forall list w list' err w',
  advertise_each fs list w = (Val (list', err), w') ->
  forall ns, is_Some (cache list !! ns) -> is_Some (cache list' !! ns).
Proof.
  induction fs as [|[k f] fs IH]; intros list w list' err w' H ns Hs; simpl in H.
  - injection H as <- _ _. exact Hs.
  - unfold bind in H. destruct (List f _ w) as [[[r [e|]]| |] w1]; try discriminate.
    + injection H as <- _ _. exact Hs.
    + apply (IH _ _ _ _ _ H). unfold advertised. simpl.
      destruct (decide (xml.Space (Name f) = ns)) as [<-|Hne].
      * rewrite lookup_insert_eq. eauto.
      * rewrite lookup_insert_ne by exact Hne. exact Hs.
Qed.

Lemma advertise_each_complete fs : forall list w list' w',
  advertise_each fs list w = (Val (list', None), w') ->
  (forall k f, In (k, f) fs -> is_Some (cache list' !! xml.Space (Name f)))
  /\ total list' = total list + Z.of_nat (length fs).
Proof.
  induction fs as [|[k f] fs IH]; intros list w list' w' H; simpl in H.
  - injection H as <- _. split; [intros k f []|simpl; lia].
  - unfold bind in H. destruct (List f _ w) as [[[r [e|]]| |] w1]; try discriminate.
    destruct (IH _ _ _ _ H) as [Hall Htot]. split.
    + intros k' f' [E|Hin]; [|eapply Hall; exact Hin]. injection E as _ <-.
      eapply advertise_each_keeps; [exact H|]. unfold advertised. simpl.
      rewrite lookup_insert_eq. eauto.
    + rewrite Htot. unfold advertised. simpl total. simpl length. lia.
Qed.

(** What [writeStreamFeatures] returns with a list, it returns from the
    loop over the enumeration of the configured features. *)
Lemma writeStreamFeatures_inv Features s w list err w' :
  writeStreamFeatures Features s w = (Val (Some list, err), w') ->
  exists w0 w1 err0,
    advertise_each (List.filter (gated s) (range_Features w0 Features)) empty_list w0
    = (Val (list, err0), w1)
    /\ (err = None -> err0 = None).
Proof.
  unfold writeStreamFeatures, bind. intros H.
  destruct (Encoder_EncodeToken _ w) as [[[e|]| |] w0]; try discriminate.
  rewrite writeStreamFeatures_range_filter in H.
  destruct (advertise_each _ empty_list w0) as [[[l [e|]]| |] w1] eqn:E; try discriminate.
  - injection H as <- <- _. exists w0, w1, (Some e). split; [exact E|discriminate].
  - exists w0, w1, None. split; [|reflexivity].
    destruct (Encoder_EncodeToken _ w1) as [[[e|]| |] w2]; try discriminate.
    + injection H as <- _ _. exact E.
    + destruct (Encoder_Flush w2) as [[e| |] w3]; try discriminate.
      injection H as <- _ _. exact E.
Qed.

Lemma In_range_Features w Features k f :
  In (k, f) (range_Features w Features) <-> Features !! k = Some f.
Proof.
  rewrite <- list_elem_of_In, (range_Features_perm w Features).
  apply elem_of_map_to_list.
Qed.

(** Every cached entry of the list that [writeStreamFeatures] returns
    belongs to a configured feature. *)
Lemma writeStreamFeatures_configured Features s w sf err w' :
  writeStreamFeatures Features s w = (Val (Some sf, err), w') ->
  forall ns d, cache sf !! ns = Some d -> exists k, Features !! k = Some (feature d).
Proof.
  intros H ns d Hd.
  destruct (writeStreamFeatures_inv _ _ _ _ _ _ H) as (w0 & w1 & err0 & Hadv & _).
  destruct (advertise_each_cache _ _ _ _ _ _ Hadv ns d Hd) as [Hc|((k & Hin) & _)].
  - unfold empty_list in Hc. simpl in Hc. rewrite lookup_empty in Hc. discriminate.
  - apply filter_In in Hin as [Hin _]. exists k. apply (In_range_Features w0). exact Hin.
Qed.

(** In the words of the specification: the features to emit are the
    configured features whose [Necessary] bits are set in the state and
    whose [Prohibited] bits are clear; [fs] is the configuration in the order
    in which it is enumerated. *)
Definition to_advertise (st : Z) (fs : list (xml.Name * StreamFeature W))
  : list (xml.Name * StreamFeature W) :=
  List.filter (fun kf => (Z.land st (Necessary kf.2) =? Necessary kf.2)
                         && (Z.land st (Prohibited kf.2) =? 0)) fs.

(** In the words of the specification: emit [<stream:features>] containing
    each of them.  The opening tag is encoded, then each of these features
    is listed, then the closing tag is encoded and the encoder flushed; the
    first error ends the emission. *)
Definition emit_features (Features : gmap xml.Name (StreamFeature W)) (st : Z)
  : M W (option (streamFeaturesList W) * option error) :=
  bind (Encoder_EncodeToken (xml.TStartElement features_start))
    (fun err =>
       match err with
       | Some e => ret (None, Some e)
       | None =>
         bind (fun w => advertise_each (to_advertise st (range_Features w Features))
                          empty_list w)
           (fun '(list, err) =>
              match err with
              | Some e => ret (Some list, Some e)
              | None =>
                bind (Encoder_EncodeToken (xml.End features_start))
                  (fun err =>
                     match err with
                     | Some e => ret (Some list, Some e)
                     | None => bind Encoder_Flush (fun err => ret (Some list, err))
                     end)
              end)
       end).

Lemma to_advertise_gated s fs : to_advertise (state s) fs = List.filter (gated s) fs.
Proof. reflexivity. Qed.

(** [writeStreamFeatures] is this emission: what it encodes, the callbacks
    it runs and what it returns. *)
Lemma writeStreamFeatures_emits Features s w :
  writeStreamFeatures Features s w = emit_features Features (state s) w.
Proof.
  unfold writeStreamFeatures, emit_features, bind.
  destruct (Encoder_EncodeToken _ w) as [[[e|]| |] w0]; try reflexivity.
  rewrite writeStreamFeatures_range_filter, <- to_advertise_gated. reflexivity.
Qed.

Lemma to_advertise_In st w Features k f :
  In (k, f) (to_advertise st (range_Features w Features))
  <-> Features !! k = Some f /\ advertisable st f.
Proof.
  unfold to_advertise. rewrite filter_In, In_range_Features. cbn [snd].
  rewrite andb_true_iff, !Z.eqb_eq. reflexivity.
Qed.

Lemma to_advertise_NoDup st w Features :
  NoDup (to_advertise st (range_Features w Features)).
Proof.
  unfold to_advertise. apply NoDup_List_filter.
  rewrite (range_Features_perm w Features). apply NoDup_map_to_list.
Qed.

End Features.
End featurefacts.

Module featureclaims.
Import go xmpp bitfacts featurefacts.

Section Features.
Context {B : StateBits} {W : Type} {R : Runtime W} {MO : MapOrder W}.

(** C5: the responder's features list holds a configured feature if and
    only if all of its [Necessary] bits are set in the session state and
    none of its [Prohibited] bits.  Writing the list is encoding the opening
    tag, running the [List] of the features to advertise and of no other
    feature, encoding the closing tag and flushing; the features to
    advertise are the configured features that pass this gate, each once.
    A feature with a [Necessary] bit that is not set is not among them.
    Every entry of the cache that is returned is a configured feature that
    passes the gate, whatever [List] returned, and when the list was written
    without error every configured feature that passes the gate has its
    namespace in the cache, [total] counting them. *)
Theorem writeStreamFeatures_gate (Features : gmap xml.Name (StreamFeature W))
    (s : Session) (w : W) :
  writeStreamFeatures Features s w = emit_features Features (state s) w
  /\ (forall w0 k f,
        In (k, f) (to_advertise (state s) (range_Features w0 Features))
        <-> Features !! k = Some f
            /\ Z.land (state s) (Necessary f) = Necessary f
            /\ Z.land (state s) (Prohibited f) = 0)
  /\ (forall w0, NoDup (to_advertise (state s) (range_Features w0 Features)))
  /\ (forall w0 k f,
        Z.land (state s) (Necessary f) <> Necessary f ->
        ~ In (k, f) (to_advertise (state s) (range_Features w0 Features)))
  /\ (forall sf err w',
        writeStreamFeatures Features s w = (Val (Some sf, err), w') ->
        (forall ns d, cache sf !! ns = Some d ->
           (exists k, Features !! k = Some (feature d))
           /\ advertisable (state s) (feature d)
           /\ ns = xml.Space (Name (feature d)))
        /\ (err = None ->
            (forall k f, Features !! k = Some f -> advertisable (state s) f ->
                         is_Some (cache sf !! xml.Space (Name f)))
            /\ total sf
               = Z.of_nat (length (to_advertise (state s) (map_to_list Features))))).
Proof.
  split; [apply writeStreamFeatures_emits|].
  split; [intros w0 k f; apply to_advertise_In|].
  split; [intros w0; apply to_advertise_NoDup|].
  split.
  { intros w0 k f Hn Hin. apply to_advertise_In in Hin as (_ & Hnec & _). exact (Hn Hnec). }
  intros sf err w' H.
  destruct (writeStreamFeatures_inv _ _ _ _ _ _ H) as (w0 & w1 & err0 & Hadv & Herr).
  split.
  - intros ns d Hd.
    destruct (advertise_each_cache _ _ _ _ _ _ Hadv ns d Hd)
      as [Hc|((k & Hin) & Hns & _)].
    + unfold empty_list in Hc. simpl in Hc. rewrite lookup_empty in Hc. discriminate.
    + apply filter_In in Hin as [Hin Hg]. split; [|split].
      * exists k. apply (In_range_Features w0). exact Hin.
      * apply gate_spec. exact Hg.
      * exact Hns.
  - intros ->. rewrite (Herr eq_refl) in Hadv.
    destruct (advertise_each_complete _ _ _ _ _ Hadv) as [Hall Htot]. split.
    + intros k f Hk Hg. apply (Hall k). apply filter_In. split.
      * apply In_range_Features. exact Hk.
      * apply gate_spec. exact Hg.
    + rewrite Htot. unfold empty_list. simpl total. rewrite to_advertise_gated.
      rewrite (filter_length_Permutation _ _ (map_to_list Features)); [reflexivity|].
      apply (range_Features_perm w0 Features).
Qed.

(** The rest of a pass through the negotiation loop once [Negotiate] has
    returned for the feature of [d]. *)
Definition negotiated_feature (fuel : nat) (server : bool) (list : streamFeaturesList W)
    (s : Session) (d : sfData W) (r : Z * option Transport * option error)
  : M W (Session * (bool * option Transport * option error)) :=
  let '(mask, rwc, err) := r in
  let s := record_negotiation s d mask err in
  if bool_decide (rwc <> None) || req d
  then ret (s, (negb (list_req list) || (Z.land (state s) Ready =? Ready), rwc, err))
  else negotiate_loop fuel server list s rwc.

Lemma negotiate_loop_selected fuel (server : bool) (list : streamFeaturesList W)
    (s : Session) rwc0 (w : W) d w1 :
  (if server then select_server s list rwc0 else select_client s list) w
  = (Val (sel_feature d), w1) ->
  negotiate_loop (S fuel) server list s rwc0 w
  = bind (Negotiate (feature d) s (data d)) (negotiated_feature fuel server list s d) w1.
Proof.
  intros H. simpl negotiate_loop. unfold bind at 1. rewrite H.
  unfold bind, negotiated_feature.
  destruct (Negotiate (feature d) s (data d) w1) as [[[[mask rwc] err]| |] w2]; reflexivity.
Qed.

Lemma negotiate_loop_returned fuel (server : bool) (list : streamFeaturesList W)
    (s : Session) rwc0 (w : W) r w1 :
  (if server then select_server s list rwc0 else select_client s list) w
  = (Val (sel_return r), w1) ->
  negotiate_loop (S fuel) server list s rwc0 w = (Val (s, r), w1).
Proof. intros H. simpl negotiate_loop. unfold bind. rewrite H. reflexivity. Qed.

Lemma negotiateFeatures_server fuel Features (c : Session) (w : W)
    (list : streamFeaturesList W) w1 :
  Z.land (state c) Received = Received ->
  writeStreamFeatures Features c w = (Val (Some list, None), w1) ->
  negotiateFeatures fuel Features c w = negotiate_loop fuel true list c None w1.
Proof.
  intros Hr Hw. unfold negotiateFeatures. rewrite Hr, Z.eqb_refl. cbv iota zeta.
  unfold bind at 1. rewrite Hw. reflexivity.
Qed.

(** C6: on the responder side, once the features are advertised, one token
    is read from the peer.  When it is a start element whose namespace is
    not in the advertised cache, or is already negotiated in this session,
    negotiation fails with the policy-violation stream error, having read
    that element and nothing more, the session unchanged; otherwise the
    [Negotiate] of the cached feature runs next, on the cached data. *)
Theorem responder_reads_one_feature (fuel : nat)
    (Features : gmap xml.Name (StreamFeature W)) (c : Session) (w w1 w2 : W)
    (list : streamFeaturesList W) (start : xml.StartElement) :
  Z.land (state c) Received = Received ->
  writeStreamFeatures Features c w = (Val (Some list, None), w1) ->
  Decoder_Token w1 = (Val (inl (xml.TStartElement start)), w2) ->
  (cache list !! xml.Space (xml.Name_ start) = None
   \/ xml.Space (xml.Name_ start) ∈ negotiated c ->
   negotiateFeatures (S fuel) Features c w
   = (Val (c, (false, None, Some PolicyViolation)), w2))
  /\ (forall d, cache list !! xml.Space (xml.Name_ start) = Some d ->
        xml.Space (xml.Name_ start) ∉ negotiated c ->
        negotiateFeatures (S fuel) Features c w
        = bind (Negotiate (feature d) c (data d))
            (negotiated_feature fuel true list c d) w2).
Proof.
  intros Hr Hw Ht. rewrite (negotiateFeatures_server _ _ _ _ _ _ Hr Hw). split.
  - intros Hbad. apply negotiate_loop_returned.
    unfold select_server, bind. rewrite Ht.
    destruct (cache list !! xml.Space (xml.Name_ start)) as [d|] eqn:E; [|reflexivity].
    destruct Hbad as [Hbad|Hbad]; [discriminate|].
    rewrite bool_decide_eq_true_2 by exact Hbad. reflexivity.
  - intros d Hd Hn. apply negotiate_loop_selected.
    unfold select_server, bind. rewrite Ht, Hd.
    rewrite bool_decide_eq_false_2 by exact Hn. reflexivity.
Qed.

(** C10: once [Negotiate] has returned for the selected feature, in either
    role, the feature's namespace is recorded as negotiated whether or not
    an error was returned, the returned mask is OR-ed into the state only
    when no error was returned, and nothing else of the session changes;
    the pass ends the loop when a transport was returned or the feature is
    required, and goes round again otherwise. *)
Theorem Negotiate_is_recorded (fuel : nat) (server : bool) (list : streamFeaturesList W)
    (s : Session) (rwc0 : option Transport) (w w1 w2 : W) (d : sfData W)
    (mask : Z) (rwc' : option Transport) (err : option error) :
  (if server then select_server s list rwc0 else select_client s list) w
  = (Val (sel_feature d), w1) ->
  Negotiate (feature d) s (data d) w1 = (Val (mask, rwc', err), w2) ->
  exists s' : Session,
    negotiated s' = {[ xml.Space (Name (feature d)) ]} ∪ negotiated s
    /\ state s' = match err with
                  | None => Z.lor (state s) mask
                  | Some _ => state s
                  end
    /\ (config s', rwc s', origin s', features s')
       = (config s, rwc s, origin s, features s)
    /\ negotiate_loop (S fuel) server list s rwc0 w
       = (if bool_decide (rwc' <> None) || req d
          then ret (s', (negb (list_req list) || (Z.land (state s') Ready =? Ready),
                         rwc', err))
          else negotiate_loop fuel server list s' rwc') w2.
Proof.
  intros Hsel Hneg. exists (record_negotiation s d mask err).
  split; [destruct err; reflexivity|]. split; [destruct err; reflexivity|].
  split; [destruct err; reflexivity|].
  rewrite (negotiate_loop_selected _ _ _ _ _ _ _ _ Hsel).
  unfold bind. rewrite Hneg. reflexivity.
Qed.

End Features.
End featureclaims.

Module featurewitness.
Import go xmpp bitfacts featurefacts featureclaims sim simfeatures.

(** *** The negotiator on the scripted environment *)

Definition write (fs : list (StreamFeature World)) (st : Z) :=
  writeStreamFeatures (R:=runtime) (MO:=order) (configure fs) (conn st)
    (world EmptyString []).

Definition negotiate (fuel : nat) (fs : list (StreamFeature World)) (st : Z)
    (toks : list xml.Token) :=
  negotiateFeatures (B:=bits) (R:=runtime) (MO:=order) fuel (configure fs) (conn st)
    (world EmptyString toks).

(** The advertisement of one required feature [f]. *)
Definition advertisement (f : StreamFeature World) : streamFeaturesList World :=
  {| total := 1; list_req := true;
     cache := {[ xml.Space (Name f) := entry f true ]} |}.

Definition advertised_tokens (f : StreamFeature World) : list xml.Token :=
  [xml.TStartElement features_start;
   xml.TStartElement {| xml.Name_ := Name f; xml.Attr_ := [] |};
   xml.TEndElement (Name f);
   xml.End features_start].

Definition after_write (f : StreamFeature World) (toks : list xml.Token) : World :=
  set_encoded (world EmptyString toks) (advertised_tokens f).

(** With features whose [List] encodes their empty element, the recording
    encoder shows what the peer is sent: the opening tag, the elements of
    the features that pass the gate, in the order of the enumeration, and
    the closing tag. *)
Definition element_of (kf : xml.Name * StreamFeature World) : list xml.Token :=
  [xml.TStartElement {| xml.Name_ := Name kf.2; xml.Attr_ := [] |};
   xml.TEndElement (Name kf.2)].

Lemma advertise_each_recorded (fs : list (xml.Name * StreamFeature World)) :
  (forall k f, In (k, f) fs -> exists r, List f = list_element r) ->
  forall list w, exists list',
    advertise_each fs list w
    = (Val (list', None), set_encoded w (encoded w ++ flat_map element_of fs)).
Proof.
  induction fs as [|[k f] fs IH]; intros Hall list w.
  - exists list. simpl. rewrite app_nil_r. destruct w; reflexivity.
  - destruct (Hall k f (or_introl eq_refl)) as [r Hr].
    destruct (IH (fun k' f' H => Hall k' f' (or_intror H)) (advertised list f r)
                (set_encoded w (encoded w ++ element_of (k, f)))) as [list' E].
    exists list'. simpl advertise_each. unfold bind. rewrite Hr. unfold list_element at 1.
    change (advertise_each fs (advertised list f r)
              (set_encoded w (encoded w ++ element_of (k, f)))
            = (Val (list', None),
               set_encoded w (encoded w ++ flat_map element_of ((k, f) :: fs)))).
    rewrite E. cbn [encoded set_encoded flat_map]. rewrite <- app_assoc. reflexivity.
Qed.

Lemma recorded_advertisement (Features : gmap xml.Name (StreamFeature World)) (s : Session)
    (w : World) :
  (forall k f, Features !! k = Some f -> exists r, List f = list_element r) ->
  exists sf,
    writeStreamFeatures (R:=runtime) (MO:=order) Features s w
    = (Val (Some sf, None),
       set_encoded w
         (encoded w
          ++ xml.TStartElement features_start
             :: flat_map element_of (to_advertise (state s) (map_to_list Features))
          ++ [xml.End features_start])).
Proof.
  intros Hall. rewrite writeStreamFeatures_emits. unfold emit_features, bind.
  cbn [Encoder_EncodeToken runtime Encoder_Flush range_Features order].
  set (w0 := set_encoded w (encoded w ++ [xml.TStartElement features_start])).
  destruct (advertise_each_recorded (to_advertise (state s) (map_to_list Features))
              ltac:(intros k f Hin; apply filter_In in Hin as [Hin _];
                    apply (Hall k), elem_of_map_to_list, list_elem_of_In, Hin)
              empty_list w0) as [sf E].
  exists sf. rewrite E. unfold ret, w0. cbn [encoded set_encoded].
  rewrite <- !app_assoc. reflexivity.
Qed.

(** On a received, not yet secured stream only the TLS feature passes the
    gate: the bind feature needs [Secure].  The peer is sent the features
    element with the TLS feature in it and nothing of the bind feature. *)
Lemma writeStreamFeatures_gate_witness :
  write [tls_feature; bind_feature] Received_
  = (Val (Some (advertisement tls_feature), None), after_write tls_feature []).
Proof.
  unfold write.
  rewrite (proj1 (writeStreamFeatures_gate (R:=runtime) (MO:=order)
                    (configure [tls_feature; bind_feature]) (conn Received_)
                    (world EmptyString []))).
  vm_compute. reflexivity.
Defined.

Lemma responder_reads_one_feature_witness :
  negotiate 1 [tls_feature; bind_feature] Received_ (element ns.Bind "bind")
  = (Val (conn Received_, (false, None, Some PolicyViolation)),
     after_write tls_feature [xml.TEndElement {| xml.Space := ns.Bind; xml.Local := "bind" |}]).
Proof.
  refine (proj1 (responder_reads_one_feature (B:=bits) (R:=runtime) (MO:=order) 0
                   (configure [tls_feature; bind_feature]) (conn Received_)
                   (world EmptyString (element ns.Bind "bind"))
                   (after_write tls_feature (element ns.Bind "bind"))
                   (after_write tls_feature
                      [xml.TEndElement {| xml.Space := ns.Bind; xml.Local := "bind" |}])
                   (advertisement tls_feature)
                   {| xml.Name_ := {| xml.Space := ns.Bind; xml.Local := "bind" |};
                      xml.Attr_ := [] |} _ _ _) _).
  - vm_compute. reflexivity.
  - vm_compute. reflexivity.
  - vm_compute. reflexivity.
  - left. vm_compute. reflexivity.
Defined.

(** A feature whose negotiation fails is recorded as negotiated all the
    same, and its mask is not applied. *)
Lemma Negotiate_is_recorded_witness :
  exists s' : Session,
    negotiated s' = {[ "urn:example:failing" ]} ∪ ∅
    /\ state s' = Received_
    /\ negotiate_loop (B:=bits) (R:=runtime) (MO:=order) 1 true
         (advertisement failing_feature) (conn Received_) None
         (world EmptyString (element "urn:example:failing" "failing"))
       = (Val (s', (false, None, Some failing_error)),
          world EmptyString
            [xml.TEndElement {| xml.Space := "urn:example:failing";
                                xml.Local := "failing" |}]).
Proof.
  destruct (Negotiate_is_recorded (B:=bits) (R:=runtime) (MO:=order) 0 true
              (advertisement failing_feature) (conn Received_) None
              (world EmptyString (element "urn:example:failing" "failing"))
              (world EmptyString
                 [xml.TEndElement {| xml.Space := "urn:example:failing";
                                     xml.Local := "failing" |}])
              (world EmptyString
                 [xml.TEndElement {| xml.Space := "urn:example:failing";
                                     xml.Local := "failing" |}])
              (entry failing_feature true) Authn_ None (Some failing_error)
              ltac:(vm_compute; reflexivity) ltac:(vm_compute; reflexivity))
    as (s' & Hn & Hs & _ & Hloop).
  exists s'. split; [exact Hn|]. split; [exact Hs|].
  rewrite Hloop, Hs. vm_compute. reflexivity.
Defined.

End featurewitness.

(** ** [FromString] never panics *)

Module jidsafety.
Import go jid utf8 strfacts refacts utf8facts jidfacts jidclaims.

(** A chunk of the decoding that holds the byte [c] is not white space. *)
Definition keeps (c : ascii) (ch : N * string) : Prop :=
  strings.mem_byte c ch.2 = true -> IsSpace ch.1 = false.

Lemma mem_byte_one c b : strings.mem_byte c (String b EmptyString) = Ascii.eqb c b.
Proof. simpl. destruct (Ascii.eqb c b); reflexivity. Qed.

Lemma in_range_high lo hi b :
  (0x80 <= lo)%N -> in_range lo hi b = true -> (byteN b <? 0x80)%N = false.
Proof.
  unfold in_range. intros Hlo H. apply andb_true_iff in H as [H _].
  apply N.leb_le in H. apply N.ltb_ge. lia.
Qed.

Lemma is_cont_high b : is_cont b = true -> (byteN b <? 0x80)%N = false.
Proof. apply in_range_high. lia. Qed.

Lemma second_ok_high b0 b1 : second_ok b0 b1 = true -> (byteN b1 <? 0x80)%N = false.
Proof.
  unfold second_ok. cbv zeta.
  destruct (byteN b0 =? 0xE0)%N; [apply in_range_high; lia|].
  destruct (byteN b0 =? 0xED)%N; [apply in_range_high; lia|].
  destruct (byteN b0 =? 0xF0)%N; [apply in_range_high; lia|].
  destruct (byteN b0 =? 0xF4)%N; apply in_range_high; lia.
Qed.

Lemma lead_width_high b : lead_width b <> 1%nat -> (byteN b <? 0x80)%N = false.
Proof. unfold lead_width. destruct (byteN b <? 0x80)%N; [congruence|reflexivity]. Qed.

Section Keeps.
Variable c : ascii.
Hypothesis c_ascii : (byteN c <? 0x80)%N = true.
Hypothesis c_no_space : IsSpace (byteN c) = false.

Lemma not_high b : (byteN b <? 0x80)%N = false -> Ascii.eqb c b = false.
Proof.
  intros H. destruct (Ascii.eqb_spec c b) as [->|]; [|reflexivity]. congruence.
Qed.

Lemma keeps_single r b :
  (lead_width b = 1%nat -> r = byteN b) -> keeps c (r, String b EmptyString).
Proof.
  unfold keeps. simpl fst. simpl snd. rewrite mem_byte_one. intros Hr H.
  apply Ascii.eqb_eq in H. subst b.
  rewrite Hr; [exact c_no_space|]. unfold lead_width. rewrite c_ascii. reflexivity.
Qed.

Lemma keeps_high r bs :
  strings.mem_byte c bs = false -> keeps c (r, bs).
Proof. unfold keeps. simpl. congruence. Qed.

Lemma decode_keeps_aux n : forall s,
  (String.length s <= n)%nat -> Forall (keeps c) (decode s).
Proof.
  induction n as [|n IH]; intros s Hn.
  - destruct s; [constructor|simpl in Hn; lia].
  - destruct s as [|b0 t0]; [constructor|]. simpl in Hn. simpl decode.
    assert (Hinv : lead_width b0 <> 1%nat ->
                   Forall (keeps c) ((RuneError, String b0 EmptyString) :: decode t0)).
    { intros Hw. constructor; [|apply IH; lia].
      apply keeps_single. intros E. contradiction. }
    destruct (lead_width b0) as [|[|[|[|[|k]]]]] eqn:Hw; cbv beta iota zeta;
      try (apply Hinv; discriminate).
    + constructor; [|apply IH; lia]. apply keeps_single. reflexivity.
    + assert (H0 : Ascii.eqb c b0 = false)
        by (apply not_high, lead_width_high; rewrite Hw; discriminate).
      destruct t0 as [|b1 t1]; [apply Hinv; discriminate|].
      destruct (is_cont b1) eqn:E1; [|apply Hinv; discriminate].
      simpl in Hn. constructor; [|apply IH; lia]. apply keeps_high. simpl.
      rewrite H0, (not_high b1 (is_cont_high b1 E1)). reflexivity.
    + assert (H0 : Ascii.eqb c b0 = false)
        by (apply not_high, lead_width_high; rewrite Hw; discriminate).
      destruct t0 as [|b1 [|b2 t2]]; try (apply Hinv; discriminate).
      destruct (second_ok b0 b1 && is_cont b2) eqn:E; [|apply Hinv; discriminate].
      apply andb_true_iff in E as [E1 E2].
      simpl in Hn. constructor; [|apply IH; lia]. apply keeps_high. simpl.
      rewrite H0, (not_high b1 (second_ok_high b0 b1 E1)),
        (not_high b2 (is_cont_high b2 E2)). reflexivity.
    + assert (H0 : Ascii.eqb c b0 = false)
        by (apply not_high, lead_width_high; rewrite Hw; discriminate).
      destruct t0 as [|b1 [|b2 [|b3 t3]]]; try (apply Hinv; discriminate).
      destruct (second_ok b0 b1 && is_cont b2 && is_cont b3) eqn:E;
        [|apply Hinv; discriminate].
      apply andb_true_iff in E as [E E3]. apply andb_true_iff in E as [E1 E2].
      simpl in Hn. constructor; [|apply IH; lia]. apply keeps_high. simpl.
      rewrite H0, (not_high b1 (second_ok_high b0 b1 E1)),
        (not_high b2 (is_cont_high b2 E2)), (not_high b3 (is_cont_high b3 E3)).
      reflexivity.
Qed.

Lemma decode_keeps s : Forall (keeps c) (decode s).
Proof. apply (decode_keeps_aux (String.length s)). lia. Qed.

Lemma mem_byte_join cs :
  strings.mem_byte c (strings.join_bytes cs)
  = existsb (fun ch => strings.mem_byte c ch.2) cs.
Proof.
  induction cs as [|ch cs IH]; [reflexivity|].
  rewrite join_bytes_cons, mem_byte_app, IH. reflexivity.
Qed.

Lemma existsb_drop_spaces cs :
  Forall (keeps c) cs ->
  existsb (fun ch => strings.mem_byte c ch.2) (strings.drop_spaces cs)
  = existsb (fun ch => strings.mem_byte c ch.2) cs.
Proof.
  induction 1 as [|ch cs Hch _ IH]; [reflexivity|]. simpl.
  destruct (IsSpace ch.1) eqn:E; [|reflexivity].
  rewrite IH. destruct (strings.mem_byte c ch.2) eqn:M; [|reflexivity].
  rewrite (Hch M) in E. discriminate.
Qed.

Lemma Forall_drop_spaces cs : Forall (keeps c) cs -> Forall (keeps c) (strings.drop_spaces cs).
Proof.
  induction 1 as [|ch cs Hch Hcs IH]; [constructor|]. simpl.
  destruct (IsSpace ch.1); [exact IH|constructor; assumption].
Qed.

Lemma existsb_rev {A} (f : A -> bool) (l : list A) : existsb f (rev l) = existsb f l.
Proof.
  induction l as [|x l IH]; [reflexivity|]. simpl.
  rewrite existsb_app, IH. simpl. rewrite orb_false_r. apply orb_comm.
Qed.

(** [TrimSpace] removes no byte that is not white space. *)
Lemma TrimSpace_mem s :
  strings.mem_byte c (strings.TrimSpace s) = strings.mem_byte c s.
Proof.
  unfold strings.TrimSpace.
  pose proof (decode_keeps s) as Hs.
  rewrite mem_byte_join, existsb_rev, existsb_drop_spaces.
  - rewrite existsb_rev, existsb_drop_spaces by exact Hs.
    rewrite <- mem_byte_join, join_decode. reflexivity.
  - apply Forall_rev, Forall_drop_spaces, Hs.
Qed.

End Keeps.

Lemma IndexByte_bounds s c :
  strings.mem_byte c s = true -> 0 <= strings.IndexByte s c < len s.
Proof.
  induction s as [|d s IH]; [discriminate|]. simpl. rewrite len_cons.
  pose proof (len_nonneg s) as Hlen. rewrite (Ascii.eqb_sym d c).
  destruct (Ascii.eqb c d); [lia|]. intros Hm. specialize (IH Hm).
  destruct (strings.IndexByte s c <? 0) eqn:E; [apply Z.ltb_lt in E; lia|lia].
Qed.

(** The first occurrence of [c] lies in every prefix that reaches past it. *)
Lemma IndexByte_prefix s c n :
  strings.mem_byte c s = true -> (Z.to_nat (strings.IndexByte s c) < n)%nat ->
  strings.mem_byte c (String.substring 0 n s) = true.
Proof.
  revert n. induction s as [|d s IH]; [discriminate|]. intros n Hm Hn. simpl in Hm, Hn.
  destruct n as [|n]; [lia|]. simpl. rewrite (Ascii.eqb_sym d c) in Hn.
  destruct (Ascii.eqb c d); [reflexivity|].
  pose proof (IndexByte_bounds s c Hm) as Hb.
  destruct (strings.IndexByte s c <? 0) eqn:E; [apply Z.ltb_lt in E; lia|].
  apply IH; [exact Hm|lia].
Qed.

(** Two different bytes are not found at the same place. *)
Lemma IndexByte_differ s c d :
  c <> d -> strings.mem_byte c s = true -> strings.mem_byte d s = true ->
  strings.IndexByte s c <> strings.IndexByte s d.
Proof.
  intros Hcd. induction s as [|e s IH]; [discriminate|]. simpl.
  rewrite (Ascii.eqb_sym e c), (Ascii.eqb_sym e d).
  destruct (Ascii.eqb_spec c e) as [->|Hc], (Ascii.eqb_spec d e) as [->|Hd];
    try congruence; intros Hmc Hmd.
  - pose proof (IndexByte_bounds s d Hmd).
    destruct (strings.IndexByte s d <? 0) eqn:E; [apply Z.ltb_lt in E; lia|lia].
  - pose proof (IndexByte_bounds s c Hmc).
    destruct (strings.IndexByte s c <? 0) eqn:E; [apply Z.ltb_lt in E; lia|lia].
  - specialize (IH Hmc Hmd).
    pose proof (IndexByte_bounds s c Hmc). pose proof (IndexByte_bounds s d Hmd).
    destruct (strings.IndexByte s c <? 0) eqn:Ec; [apply Z.ltb_lt in Ec; lia|].
    destruct (strings.IndexByte s d <? 0) eqn:Ed; [apply Z.ltb_lt in Ed; lia|]. lia.
Qed.

Lemma lang_JIDre_at u : lang JIDre u -> strings.mem_byte "@" u = true.
Proof.
  unfold JIDre. cbv zeta. intros H.
  inversion H as [| | |? ? u1 v1 _ H1| | | |]; subst.
  inversion H1 as [| | |? ? u2 v2 H2 _| | | |]; subst.
  inversion H2; subst.
  rewrite !mem_byte_app. simpl. rewrite !orb_true_r. reflexivity.
Qed.

Lemma slice_in_bounds s lo hi :
  0 <= lo <= hi -> hi <= len s ->
  slice s lo hi = Some (String.substring (Z.to_nat lo) (Z.to_nat (hi - lo)) s).
Proof.
  intros H1 H2. unfold slice.
  replace ((0 <=? lo) && (lo <=? hi) && (hi <=? len s)) with true; [reflexivity|].
  symmetry. rewrite !andb_true_iff, !Z.leb_le. lia.
Qed.

Section WithPlatform.
Context {P : Platform}.

Lemma SetLocalPart_returns a p :
  (exists e, SetLocalPart a p = (a, Some e))
  \/ SetLocalPart a p
     = ({| localpart := NF_String p; domainpart := domainpart a;
           resourcepart := resourcepart a |}, None)
     /\ strings.ContainsAny p illegal_chars = false.
Proof.
  unfold SetLocalPart. destruct (NormalizeJIDPart p) as [n [e|]] eqn:E; [eauto|].
  right. apply NormalizeJIDPart_accepts in E as (-> & _ & _ & _ & Hc & _). auto.
Qed.

(** X1: every slice expression of [FromString] is within bounds: the
    function returns, with or without an error, on every string and never
    panics. *)
Theorem FromString_returns (a : JID) (s : string) :
  exists r, FromString a s = Returns r.
Proof.
  unfold FromString.
  destruct (utf8.ValidString s); [|eauto]. simpl negb. cbv iota.
  rewrite MatchString_JIDMatch.
  destruct (regexp.match_anywhere JIDre s) eqn:Hm;
    [|destruct (strings.ContainsRune s "/"); eauto].
  simpl negb. rewrite andb_false_l. cbv iota zeta.
  apply match_anywhere_spec in Hm as (pre & u & post & -> & Hu).
  set (s := pre +:+ u +:+ post). set (t := strings.TrimSpace s).
  assert (Hat : strings.mem_byte "@" t = true).
  { unfold t. rewrite TrimSpace_mem by reflexivity. unfold s.
    rewrite !mem_byte_app, (lang_JIDre_at u Hu), orb_true_r. reflexivity. }
  assert (Hsl : strings.mem_byte "/" t = true).
  { unfold t. rewrite TrimSpace_mem by reflexivity. unfold s.
    rewrite !mem_byte_app, (lang_JIDre_slash u Hu), orb_true_r. reflexivity. }
  unfold strings.IndexRune.
  pose proof (IndexByte_bounds t "@" Hat) as Bat.
  pose proof (IndexByte_bounds t "/" Hsl) as Bsl.
  rewrite (slice_in_bounds t 0 (strings.IndexByte t "@")) by lia.
  rewrite Z.sub_0_r. change (Z.to_nat 0) with 0%nat.
  destruct (SetLocalPart_returns a
              (String.substring 0 (Z.to_nat (strings.IndexByte t "@")) t))
    as [[e ->]|[-> Hc]]; [eauto|].
  assert (Hlt : strings.IndexByte t "@" + 1 <= strings.IndexByte t "/").
  { pose proof (IndexByte_differ t "@" "/" ltac:(discriminate) Hat Hsl) as Hne.
    destruct (Z.lt_ge_cases (strings.IndexByte t "/") (strings.IndexByte t "@"))
      as [Hbefore|]; [exfalso|lia].
    pose proof (ContainsAny_false_mem _ illegal_chars "/" Hc eq_refl) as Hno.
    rewrite (IndexByte_prefix t "/" _ Hsl) in Hno; [discriminate|lia]. }
  rewrite (slice_in_bounds t _ _) by lia.
  destruct (SetDomainPart _ _) as [a2 [e|]]; [eauto|].
  unfold slice_from. rewrite (slice_in_bounds t _ _) by lia.
  destruct (SetResourcePart _ _) as [a3 [e|]]; eauto.
Qed.

End WithPlatform.
End jidsafety.

(** ** The negotiation loop ends *)

Module looptermination.
Import go xmpp bitfacts featurefacts featureclaims.

Section Features.
Context {B : StateBits} {W : Type} {R : Runtime W} {MO : MapOrder W}.







Lemma select_cached_pending (negotiated : gset string)
    (vs : list (string * sfData W)) : forall d0 d,
  select_cached negotiated vs d0 = Some d ->
  d0 = Some d
  \/ (exists k, In (k, d) vs) /\ xml.Space (Name (feature d)) ∉ negotiated.
Proof.
  induction vs as [|[k v] vs IH]; intros d0 d H; simpl in H; [left; exact H|].
  destruct (bool_decide _) eqn:Hn.
  - destruct (IH _ _ H) as [|[[k' Hin] Hd]]; [left; assumption|right].
    split; [exists k'; right; exact Hin|exact Hd].
  - apply bool_decide_eq_false in Hn. destruct (req v); simpl in H.
    + destruct (IH _ _ H) as [E|[[k' Hin] Hd]].
      * injection E as <-. right. split; [exists k; left; reflexivity|exact Hn].
      * right. split; [exists k'; right; exact Hin|exact Hd].
    + injection H as <-. right. split; [exists k; left; reflexivity|exact Hn].
Qed.




End Features.

Import sim simfeatures featurewitness.


End looptermination.

(** ** More of the JID package: what is accepted, and what an error leaves
    behind *)

Module jidparts.
Import go jid utf8 strfacts refacts utf8facts jidfacts.

(** *** White space *)

Lemma not_cont_low c : (byteN c <? 0x80)%N = true -> is_cont c = false.
Proof.
  unfold is_cont, in_range. intros H. apply N.ltb_lt in H.
  apply andb_false_iff. left. apply N.leb_gt. lia.
Qed.

Lemma not_second_low b0 c : (byteN c <? 0x80)%N = true -> second_ok b0 c = false.
Proof.
  unfold second_ok, in_range. cbv zeta. intros H. apply N.ltb_lt in H.
  destruct (byteN b0 =? 0xE0)%N; [apply andb_false_iff; left; apply N.leb_gt; lia|].
  destruct (byteN b0 =? 0xED)%N; [apply andb_false_iff; left; apply N.leb_gt; lia|].
  destruct (byteN b0 =? 0xF0)%N; [apply andb_false_iff; left; apply N.leb_gt; lia|].
  destruct (byteN b0 =? 0xF4)%N; apply andb_false_iff; left; apply N.leb_gt; lia.
Qed.

(** Decoding goes through a concatenation whose right part begins with an
    ASCII byte, whatever the left part is: an ASCII byte completes no
    sequence. *)
Lemma decode_app_low_aux c b (Hc : (byteN c <? 0x80)%N = true) n : forall a,
  (String.length a <= n)%nat ->
  decode (a +:+ String c b) = decode a ++ decode (String c b).
Proof.
  pose proof (not_cont_low c Hc) as Hcont.
  induction n as [|n IH]; intros a Hn.
  - destruct a; [reflexivity|simpl in Hn; lia].
  - destruct a as [|b0 t0]; [reflexivity|]. simpl in Hn.
    rewrite app_cons.
    assert (Hinv : decode (t0 +:+ String c b) = decode t0 ++ decode (String c b))
      by (apply IH; lia).
    simpl decode.
    destruct (lead_width b0) as [|[|[|[|[|k]]]]]; cbv beta iota zeta;
      try (rewrite Hinv; reflexivity).
    + destruct t0 as [|b1 t1].
      * rewrite app_nil_l. rewrite Hcont. reflexivity.
      * rewrite app_cons. destruct (is_cont b1).
        -- simpl in Hn. rewrite (IH t1) by lia. reflexivity.
        -- rewrite <- app_cons, Hinv. reflexivity.
    + destruct t0 as [|b1 [|b2 t2]].
      * rewrite app_nil_l. rewrite (not_second_low b0 c Hc). simpl andb.
        destruct b; reflexivity.
      * rewrite app_cons, app_nil_l. rewrite Hcont, andb_false_r.
        rewrite <- (app_nil_l (String c b)), <- app_cons, Hinv. reflexivity.
      * rewrite !app_cons. destruct (second_ok b0 b1 && is_cont b2).
        -- simpl in Hn. rewrite (IH t2) by lia. reflexivity.
        -- rewrite <- !app_cons, Hinv. reflexivity.
    + destruct t0 as [|b1 [|b2 [|b3 t3]]].
      * rewrite app_nil_l. rewrite (not_second_low b0 c Hc). simpl andb.
        destruct b as [|x [|y b]]; reflexivity.
      * rewrite app_cons, app_nil_l. rewrite Hcont, andb_false_r. simpl andb.
        rewrite <- (app_nil_l (String c b)), <- app_cons, Hinv.
        destruct b; reflexivity.
      * rewrite !app_cons, app_nil_l. rewrite Hcont, andb_false_r.
        rewrite <- (app_nil_l (String c b)), <- !app_cons, Hinv. reflexivity.
      * rewrite !app_cons. destruct (second_ok b0 b1 && is_cont b2 && is_cont b3).
        -- simpl in Hn. rewrite (IH t3) by lia. reflexivity.
        -- rewrite <- !app_cons, Hinv. reflexivity.
Qed.

Lemma decode_app_low a c b :
  (byteN c <? 0x80)%N = true ->
  decode (a +:+ String c b) = decode a ++ decode (String c b).
Proof. intros Hc. apply (decode_app_low_aux c b Hc (String.length a)). lia. Qed.

Lemma fields_no_space cs : forall f,
  forallb (fun c => negb (IsSpace c.1)) cs = true ->
  length (strings.fields cs (Some f)) = 1%nat.
Proof.
  induction cs as [|c cs IH]; intros f H; [reflexivity|].
  simpl in H. apply andb_true_iff in H as [Hc H]. apply negb_true_iff in Hc.
  simpl. rewrite Hc. apply IH, H.
Qed.

(** The white-space test of [NormalizeJIDPart] is passed exactly by the
    parts without a white-space rune. *)
Lemma Fields_quoted p :
  Nat.eqb (length (strings.Fields ("'" +:+ p +:+ "'"))) 1 = no_space p.
Proof.
  unfold strings.Fields.
  change ("'" +:+ p +:+ "'") with (String "'" (p +:+ "'")).
  change (decode (String "'" (p +:+ "'")))
    with ((39%N, String "'" EmptyString) :: decode (p +:+ "'")).
  rewrite (decode_app_low p "'" EmptyString eq_refl).
  change (decode "'") with [(39%N, String "'" EmptyString)].
  destruct (no_space p) eqn:E.
  - apply Nat.eqb_eq. simpl. apply fields_no_space.
    rewrite forallb_app. unfold no_space in E. rewrite E. reflexivity.
  - apply Nat.eqb_neq. intros H. simpl in H. unfold no_space in E.
    rewrite (fields_one_no_space (decode p) (39%N, String "'" EmptyString) _ eq_refl H) in E.
    discriminate.
Qed.

(** *** Bytes of a part *)

Lemma mem_ContainsAny p cs c :
  strings.mem_byte c cs = true -> strings.mem_byte c p = true ->
  strings.ContainsAny p cs = true.
Proof.
  intros Hc. induction p as [|d p IH]; [discriminate|]. simpl.
  destruct (Ascii.eqb_spec c d) as [<-|_]; [rewrite Hc; reflexivity|].
  intros H. rewrite (IH H). apply orb_true_r.
Qed.

(** [TrimRight] removes bytes of the cutset only. *)
Lemma mem_TrimRight s cut c :
  strings.mem_byte c cut = false ->
  strings.mem_byte c (strings.TrimRight s cut) = strings.mem_byte c s.
Proof.
  intros Hc. induction s as [|d s IH]; [reflexivity|]. simpl.
  destruct (strings.TrimRight s cut) as [|e t'] eqn:E.
  - simpl in IH. rewrite <- IH.
    destruct (strings.mem_byte d cut) eqn:Hd; simpl.
    + destruct (Ascii.eqb_spec c d) as [->|_]; [congruence|reflexivity].
    + reflexivity.
  - change (strings.mem_byte c (String d (String e t')))
      with (if Ascii.eqb c d then true else strings.mem_byte c (String e t')).
    rewrite IH. reflexivity.
Qed.

Lemma ContainsAny_TrimRight s :
  strings.ContainsAny (strings.TrimRight s ".") illegal_chars
  = strings.ContainsAny s illegal_chars.
Proof.
  induction s as [|d s IH]; [reflexivity|]. simpl.
  destruct (strings.TrimRight s ".") as [|e t'] eqn:E.
  - simpl in IH. rewrite <- IH, orb_false_r.
    destruct (Ascii.eqb_spec d ".") as [->|_]; [reflexivity|].
    simpl. rewrite orb_false_r. reflexivity.
  - change (strings.ContainsAny (String d (String e t')) illegal_chars)
      with (strings.mem_byte d illegal_chars
            || strings.ContainsAny (String e t') illegal_chars).
    rewrite IH. reflexivity.
Qed.

(** A trailing dot is trimmed away with the dots before it. *)
Lemma TrimRight_dot s : strings.TrimRight (s +:+ ".") "." = strings.TrimRight s ".".
Proof.
  induction s as [|d s IH]; [reflexivity|].
  rewrite app_cons. simpl. rewrite IH. reflexivity.
Qed.

(** A string splits at the first occurrence of a byte it contains. *)
Lemma IndexByte_split s c :
  strings.mem_byte c s = true ->
  exists l rest, s = l +:+ String c rest /\ strings.mem_byte c l = false.
Proof.
  induction s as [|d s IH]; [discriminate|]. simpl.
  destruct (Ascii.eqb_spec c d) as [<-|Hne].
  - intros _. exists EmptyString, s. split; reflexivity.
  - intros H. destruct (IH H) as (l & rest & -> & Hl).
    exists (String d l), rest. split; [reflexivity|]. simpl.
    destruct (Ascii.eqb_spec c d); [contradiction|exact Hl].
Qed.

Lemma no_at_no_match s :
  strings.mem_byte "@" s = false -> regexp.match_anywhere JIDre s = false.
Proof.
  intros Hs. destruct (regexp.match_anywhere JIDre s) eqn:E; [|reflexivity].
  apply match_anywhere_spec in E as (a & u & v & -> & H).
  apply jidsafety.lang_JIDre_at in H.
  rewrite !mem_byte_app, H, orb_true_r in Hs. discriminate.
Qed.

Section WithPlatform.
Context {P : Platform}.

(** X3: [NormalizeJIDPart] accepts a part exactly when its NFKC form has
    between 1 and 1023 bytes and no white-space rune, and the part itself is
    valid UTF-8 without any of the eight illegal characters; it then
    returns the NFKC form.  In every other case it returns the empty string
    and an error made with [errors.New]. *)
Theorem NormalizeJIDPart_accepts_iff (part : string) :
  (NormalizeJIDPart part = (NF_String part, None)
   <-> 0 < len (NF_String part) <= 1023
       /\ utf8.ValidString part = true
       /\ strings.ContainsAny part illegal_chars = false
       /\ no_space (NF_String part) = true)
  /\ (NormalizeJIDPart part = (NF_String part, None)
      \/ exists msg, NormalizeJIDPart part = (EmptyString, Some (errors_New msg))).
Proof.
  unfold NormalizeJIDPart. cbv zeta. rewrite Fields_quoted.
  pose proof (len_nonneg (NF_String part)) as Hlen.
  destruct (Z.eqb_spec (len (NF_String part)) 0) as [E0|E0].
  { split; [split; [discriminate|intros (? & _); lia]|right; eauto]. }
  destruct (Z.ltb_spec 1023 (len (NF_String part))) as [E1|E1].
  { split; [split; [discriminate|intros (? & _); lia]|right; eauto]. }
  destruct (utf8.ValidString part); simpl negb; cbv iota.
  2:{ split; [split; [discriminate|intros (_ & ? & _); discriminate]|right; eauto]. }
  destruct (strings.ContainsAny part illegal_chars).
  { split; [split; [discriminate|intros (_ & _ & ? & _); discriminate]|right; eauto]. }
  destruct (no_space (NF_String part)); simpl negb; cbv iota.
  - split; [split; [intros _; repeat split; try reflexivity; lia|reflexivity]|left; reflexivity].
  - split; [split; [discriminate|intros (_ & _ & _ & ?); discriminate]|right; eauto].
Qed.

(** X4: [FromString] rejects every string without an [@], leaving the
    receiver as it was: with [ERROR_INVALID_JID] when the string is valid
    UTF-8 and has a slash (a domain with a resource, as [example.net/rp]),
    with [ERROR_NO_RESOURCE] when it has no slash, and with
    [ERROR_INVALID_STRING] when it is not valid UTF-8. *)
Theorem FromString_no_at (a : JID) (s : string) :
  strings.ContainsRune s "@" = false ->
  FromString a s
  = Returns (a, Some (errors_New
                        (if utf8.ValidString s
                         then if strings.ContainsRune s "/"
                              then ERROR_INVALID_JID
                              else ERROR_NO_RESOURCE
                         else ERROR_INVALID_STRING))).
Proof.
  intros Hs. unfold FromString.
  destruct (utf8.ValidString s); [|reflexivity]. simpl negb. cbv iota.
  rewrite MatchString_JIDMatch.
  rewrite no_at_no_match by (rewrite <- ContainsRune_mem; exact Hs).
  destruct (strings.ContainsRune s "/"); reflexivity.
Qed.

(** The domainpart [SetDomainPart] stores does not depend on the receiver. *)
Lemma SetDomainPart_receiver a a' d a2 :
  SetDomainPart a d = (a2, None) ->
  SetDomainPart a' d
  = ({| localpart := localpart a'; domainpart := domainpart a2;
        resourcepart := resourcepart a' |}, None)
  /\ localpart a2 = localpart a /\ resourcepart a2 = resourcepart a
  /\ strings.ContainsAny d illegal_chars = false.
Proof.
  unfold SetDomainPart. cbv zeta.
  destruct (NormalizeJIDPart (strings.TrimRight d ".")) as [n [e|]] eqn:E; [discriminate|].
  intros [= <-]. split; [reflexivity|]. split; [reflexivity|]. split; [reflexivity|].
  apply NormalizeJIDPart_accepts in E as (_ & _ & _ & _ & Hc & _).
  rewrite ContainsAny_TrimRight in Hc. exact Hc.
Qed.

(** X5: a string that [FromString] accepts has, once the white space
    around it is trimmed, the form [l@d/r] with none of the eight illegal
    characters in [l], [d] or [r] (so exactly one [@] and one [/]); the
    localpart and resourcepart stored are the NFKC forms of [l] and [r],
    each of 1 to 1023 bytes, and the domainpart is the one [SetDomainPart]
    makes of [d]. *)
Theorem FromString_accepted (a j : JID) (s : string) :
  FromString a s = Returns (j, None) ->
  exists l d r a',
    strings.TrimSpace s = l +:+ "@" +:+ d +:+ "/" +:+ r
    /\ strings.ContainsAny l illegal_chars = false
    /\ strings.ContainsAny d illegal_chars = false
    /\ strings.ContainsAny r illegal_chars = false
    /\ localpart j = NF_String l /\ 0 < len (localpart j) <= 1023
    /\ resourcepart j = NF_String r /\ 0 < len (resourcepart j) <= 1023
    /\ SetDomainPart a d = (a', None) /\ domainpart j = domainpart a'.
Proof.
  intros H. unfold FromString in H.
  destruct (utf8.ValidString s); [|discriminate]. simpl negb in H. cbv iota in H.
  rewrite MatchString_JIDMatch in H.
  destruct (regexp.match_anywhere JIDre s) eqn:Hm;
    [|destruct (strings.ContainsRune s "/"); discriminate].
  simpl negb in H. rewrite andb_false_l in H. cbv iota zeta in H.
  apply match_anywhere_spec in Hm as (pre & u & post & Es & Hu).
  assert (Hat : strings.mem_byte "@" (strings.TrimSpace s) = true).
  { rewrite jidsafety.TrimSpace_mem by reflexivity. rewrite Es.
    rewrite !mem_byte_app, (jidsafety.lang_JIDre_at u Hu), orb_true_r. reflexivity. }
  assert (Hsl : strings.mem_byte "/" (strings.TrimSpace s) = true).
  { rewrite jidsafety.TrimSpace_mem by reflexivity. rewrite Es.
    rewrite !mem_byte_app, (lang_JIDre_slash u Hu), orb_true_r. reflexivity. }
  clear Es Hu. remember (strings.TrimSpace s) as t eqn:Et. clear Et.
  destruct (IndexByte_split t "@" Hat) as (l & rest & -> & Hl).
  unfold strings.IndexRune in H. rewrite (IndexByte_app l "@" rest Hl) in H.
  rewrite slice_prefix in H.
  unfold SetLocalPart in H at 1.
  destruct (NormalizeJIDPart l) as [nl [e|]] eqn:El; [discriminate|].
  apply NormalizeJIDPart_accepts in El as (-> & Hl0 & Hl1 & _ & Hcl & _).
  pose proof (ContainsAny_false_mem l illegal_chars "/" Hcl eq_refl) as Hls.
  rewrite mem_byte_app, Hls in Hsl. simpl in Hsl.
  destruct (IndexByte_split rest "/" Hsl) as (d & r & -> & Hd).
  assert (Isl : strings.IndexByte (l +:+ String "@" (d +:+ String "/" r)) "/"
                = len l + 1 + len d).
  { change (l +:+ String "@" (d +:+ String "/" r))
      with (l +:+ "@" +:+ d +:+ String "/" r).
    rewrite <- (app_assoc "@" d), <- (app_assoc l). rewrite IndexByte_app.
    - rewrite !len_app. change (len "@") with 1. lia.
    - rewrite !mem_byte_app, Hls, Hd. reflexivity. }
  rewrite Isl in H.
  assert (Sd : slice (l +:+ String "@" (d +:+ String "/" r)) (len l + 1) (len l + 1 + len d)
               = Some d).
  { change (l +:+ String "@" (d +:+ String "/" r))
      with (l +:+ "@" +:+ d +:+ String "/" r).
    rewrite <- (app_assoc l "@").
    change (len l + 1) with (len l + len "@"). rewrite <- len_app. apply slice_middle. }
  rewrite Sd in H.
  destruct (SetDomainPart _ d) as [a2 [e|]] eqn:Ed; [discriminate|].
  assert (Sr : slice_from (l +:+ String "@" (d +:+ String "/" r)) (len l + 1 + len d + 1)
               = Some r).
  { change (l +:+ String "@" (d +:+ String "/" r))
      with (l +:+ "@" +:+ d +:+ "/" +:+ r).
    rewrite <- (app_assoc "@" d), <- (app_assoc ("@" +:+ d) "/"), <- (app_assoc l).
    replace (len l + 1 + len d + 1) with (len (l +:+ ("@" +:+ d) +:+ "/")).
    - apply slice_from_suffix.
    - rewrite !len_app. change (len "@") with 1. change (len "/") with 1. lia. }
  rewrite Sr in H.
  unfold SetResourcePart in H.
  destruct (NormalizeJIDPart r) as [nr [e|]] eqn:Er; [discriminate|].
  injection H as <-.
  apply NormalizeJIDPart_accepts in Er as (-> & Hr0 & Hr1 & _ & Hcr & _).
  destruct (SetDomainPart_receiver _ a d a2 Ed) as (Ed' & Ela & _ & Hcd).
  exists l, d, r,
    {| localpart := localpart a; domainpart := domainpart a2;
       resourcepart := resourcepart a |}.
  pose proof (len_nonneg (NF_String l)). pose proof (len_nonneg (NF_String r)).
  simpl. rewrite Ela. simpl.
  repeat split; try assumption; try reflexivity; try lia.
Qed.

(** X6: [SetDomainPart] strips the final dot (RFC 6122, section 2.2) before
    anything else: a domain written with a trailing dot is stored, or
    rejected, as the same domain without it. *)
Theorem SetDomainPart_trailing_dot (a : JID) (d : string) :
  SetDomainPart a (d +:+ ".") = SetDomainPart a d.
Proof. unfold SetDomainPart. cbv zeta. rewrite TrimRight_dot. reflexivity. Qed.

(** X7: no setter accepts a part that holds one of the eight illegal
    characters, and the JID is left as it was.  The colon is one of them,
    so no domainpart written as an IPv6 literal is accepted. *)
Theorem setters_reject_illegal (a : JID) (p : string) (c : ascii) :
  strings.mem_byte c illegal_chars = true ->
  strings.mem_byte c p = true ->
  (exists e, SetLocalPart a p = (a, Some e))
  /\ (exists e, SetDomainPart a p = (a, Some e))
  /\ (exists e, SetResourcePart a p = (a, Some e)).
Proof.
  intros Hc Hp.
  destruct (jidclaims.NormalizeJIDPart_illegal p (mem_ContainsAny p _ c Hc Hp)) as [e He].
  assert (Hdot : strings.mem_byte c "." = false).
  { simpl. destruct (Ascii.eqb_spec c ".") as [->|_]; [discriminate Hc|reflexivity]. }
  destruct (jidclaims.NormalizeJIDPart_illegal (strings.TrimRight p ".")) as [e' He'].
  { apply (mem_ContainsAny _ _ c Hc). rewrite mem_TrimRight; assumption. }
  split; [|split].
  - exists e. unfold SetLocalPart. rewrite He. reflexivity.
  - exists e'. unfold SetDomainPart. cbv zeta. rewrite He'. reflexivity.
  - exists e. unfold SetResourcePart. rewrite He. reflexivity.
Qed.

(** X8: [FromString] sets the parts one after the other on the receiver:
    when the localpart and the domainpart are accepted and the resourcepart
    is not, the error is returned with the first two parts already
    replaced. *)
Theorem FromString_not_atomic (a : JID) (l d r x : string) (e : error) :
  normal_part l -> normal_part d -> plain_domain d ->
  r <> EmptyString -> utf8.ValidString r = true -> no_space r = true ->
  strings.mem_byte "@" r = false -> strings.mem_byte "/" r = false ->
  NormalizeJIDPart r = (x, Some e) ->
  FromString a (l +:+ "@" +:+ d +:+ "/" +:+ r)
  = Returns ({| localpart := l; domainpart := d; resourcepart := resourcepart a |},
             Some e).
Proof.
  intros Hl Hd Hp Nr Vr Sr Ar Lr Hr.
  destruct (normal_part_facts l Hl) as (Nl & Vl & Sl & Al & Ll & Cl).
  destruct (normal_part_facts d Hd) as (Nd & Vd & Sd & Ad & Ld & Cd).
  assert (Cr : forall c, strings.mem_byte c r = true -> regexp.class_accepts true "@/" c = true).
  { intros c Hc. unfold regexp.class_accepts. simpl.
    destruct (Ascii.eqb_spec c "@") as [->|_]; [congruence|].
    destruct (Ascii.eqb_spec c "/") as [->|_]; [congruence|reflexivity]. }
  set (s := l +:+ "@" +:+ d +:+ "/" +:+ r).
  assert (Vs : utf8.ValidString s = true).
  { unfold s. repeat (apply ValidString_app; [try reflexivity; assumption|]). exact Vr. }
  assert (Ms : regexp.match_anywhere JIDre s = true).
  { apply match_anywhere_spec. exists EmptyString, s, EmptyString.
    split; [rewrite app_nil_l, app_nil_r; reflexivity|].
    unfold s, JIDre. cbv zeta.
    constructor; [apply lang_plus_class; assumption|].
    change ("@" +:+ d +:+ "/" +:+ r) with (String "@" EmptyString +:+ (d +:+ "/" +:+ r)).
    constructor; [constructor|].
    constructor; [apply lang_plus_class; assumption|].
    change ("/" +:+ r) with (String "/" EmptyString +:+ r).
    constructor; [constructor|]. apply lang_plus_class; assumption. }
  assert (Ts : strings.TrimSpace s = s).
  { unfold s. rewrite <- (app_assoc "@" d), <- (app_assoc ("@" +:+ d) "/").
    apply TrimSpace_fixed; try assumption.
    apply ValidString_app; [|reflexivity].
    change ("@" +:+ d) with (String "@" EmptyString +:+ d).
    apply ValidString_app; [reflexivity|exact Vd]. }
  assert (Iat : strings.IndexRune s "@" = len l).
  { unfold s, strings.IndexRune.
    change ("@" +:+ d +:+ "/" +:+ r) with (String "@" (d +:+ "/" +:+ r)).
    apply IndexByte_app, Al. }
  assert (Isl : strings.IndexRune s "/" = len l + 1 + len d).
  { unfold s, strings.IndexRune.
    change ("/" +:+ r) with (String "/" r).
    rewrite <- (app_assoc "@" d), <- (app_assoc l).
    rewrite IndexByte_app.
    - rewrite !len_app. change (len "@") with 1. lia.
    - rewrite !mem_byte_app, Ll, Ld. reflexivity. }
  unfold FromString. rewrite Vs, MatchString_JIDMatch, Ms. simpl negb. cbv iota zeta.
  rewrite andb_false_l. cbv iota.
  rewrite Ts, Iat, Isl.
  unfold s at 1. rewrite slice_prefix, (jidclaims.SetLocalPart_normal _ l Hl).
  assert (Sd' : slice s (len l + 1) (len l + 1 + len d) = Some d).
  { unfold s. rewrite <- (app_assoc l "@").
    change (len l + 1) with (len l + len "@"). rewrite <- len_app.
    apply slice_middle. }
  rewrite Sd', (jidclaims.SetDomainPart_plain _ d Hd Hp).
  assert (Sr' : slice_from s (len l + 1 + len d + 1) = Some r).
  { unfold s. rewrite <- (app_assoc "@" d), <- (app_assoc ("@" +:+ d) "/"), <- (app_assoc l).
    replace (len l + 1 + len d + 1) with (len (l +:+ ("@" +:+ d) +:+ "/")).
    - apply slice_from_suffix.
    - rewrite !len_app. change (len "@") with 1. change (len "/") with 1. lia. }
  rewrite Sr'. unfold SetResourcePart. rewrite Hr. reflexivity.
Qed.

End WithPlatform.

Lemma FromString_no_at_witness :
  @FromString ascii_platform zero_JID "example.net/rp"
  = Returns (zero_JID, Some (errors_New ERROR_INVALID_JID)).
Proof.
  apply (@FromString_no_at ascii_platform zero_JID "example.net/rp").
  vm_compute. reflexivity.
Defined.

Lemma FromString_accepted_witness :
  exists l d r a',
    strings.TrimSpace " mercutio@example.net/rp " = l +:+ "@" +:+ d +:+ "/" +:+ r
    /\ strings.ContainsAny l illegal_chars = false
    /\ strings.ContainsAny d illegal_chars = false
    /\ strings.ContainsAny r illegal_chars = false
    /\ "mercutio" = l /\ 0 < len "mercutio" <= 1023
    /\ "rp" = r /\ 0 < len "rp" <= 1023
    /\ @SetDomainPart ascii_platform zero_JID d = (a', None)
    /\ "example.net" = domainpart a'.
Proof.
  apply (@FromString_accepted ascii_platform zero_JID
           {| localpart := "mercutio"; domainpart := "example.net";
              resourcepart := "rp" |} " mercutio@example.net/rp ").
  vm_compute. reflexivity.
Defined.

Lemma setters_reject_illegal_witness :
  (exists e, @SetLocalPart ascii_platform zero_JID "::1" = (zero_JID, Some e))
  /\ (exists e, @SetDomainPart ascii_platform zero_JID "::1" = (zero_JID, Some e))
  /\ (exists e, @SetResourcePart ascii_platform zero_JID "::1" = (zero_JID, Some e)).
Proof.
  apply (@setters_reject_illegal ascii_platform zero_JID "::1" ":");
    vm_compute; reflexivity.
Defined.

Lemma FromString_not_atomic_witness :
  @FromString ascii_platform zero_JID "mercutio@example.net/a<b"
  = Returns ({| localpart := "mercutio"; domainpart := "example.net";
                resourcepart := EmptyString |},
             Some (errors_New ERROR_ILLEGAL_RUNE)).
Proof.
  apply (@FromString_not_atomic ascii_platform zero_JID "mercutio" "example.net" "a<b"
           EmptyString (errors_New ERROR_ILLEGAL_RUNE));
    try (vm_compute; reflexivity).
  - repeat split; try (vm_compute; reflexivity). intros ip H. discriminate H.
  - discriminate.
Defined.

End jidparts.

(** ** Writing to the connection *)

Module writefacts.
Import go xmpp bitfacts.

Section Connection.
Context {B : StateBits} {W : Type} {R : Runtime W}.

Definition closed_output_error : error := errors_New "XML output stream is closed".

(** X9: for every state mask [m], writing to a connection whose state is
    [m] returns 0 and the closed-output-stream error, and hands nothing to
    the transport, when the [OutputStreamClosed] bit of [m] is set; when the
    bit is clear the write is the transport's.  No other bit matters. *)
Theorem Write_respects_OutputStreamClosed (m : Z) (c : Conn) (b : string) (w : W) :
  let s := set_state c m in
  (Z.land m OutputStreamClosed = OutputStreamClosed ->
   Write_ s b w = (Val (0, Some closed_output_error), w))
  /\ (Z.land m OutputStreamClosed <> OutputStreamClosed ->
      Write_ s b w = rwc_Write (rwc c) b w)
  /\ (forall m', Z.testbit m' (Z.of_N OutputStreamClosed_bit)
                 = Z.testbit m (Z.of_N OutputStreamClosed_bit) ->
                 Write_ (set_state c m') b w = Write_ s b w).
Proof.
  cbv zeta. unfold Write_, OutputStreamClosed. cbn [state rwc set_state].
  split; [|split].
  - intros H. rewrite H, Z.eqb_refl. reflexivity.
  - intros H. destruct (Z.eqb_spec (Z.land m (state_bit OutputStreamClosed_bit))
                          (state_bit OutputStreamClosed_bit)); [contradiction|reflexivity].
  - intros m' H. rewrite !has_bit, H. reflexivity.
Qed.

End Connection.

Lemma Write_respects_OutputStreamClosed_witness :
  @Write_ sim.bits _ sim.runtime (set_state (sim.conn 0) 16) "<a/>" (sim.world EmptyString [])
  = (Val (0, Some closed_output_error), sim.world EmptyString [])
  /\ @Write_ sim.bits _ sim.runtime (set_state (sim.conn 0) 32) "<a/>" (sim.world EmptyString [])
     = (Val (4, None), sim.set_tx (sim.world EmptyString []) ["<a/>"]).
Proof.
  split.
  - apply (proj1 (@Write_respects_OutputStreamClosed sim.bits _ sim.runtime 16 (sim.conn 0)
                    "<a/>" (sim.world EmptyString []))).
    vm_compute. reflexivity.
  - rewrite (proj1 (proj2 (@Write_respects_OutputStreamClosed sim.bits _ sim.runtime 32
                             (sim.conn 0) "<a/>" (sim.world EmptyString [])))).
    + vm_compute. reflexivity.
    + vm_compute. discriminate.
Defined.

End writefacts.

(** ** STARTTLS: every outcome of the handler *)

Module starttlsmore.
Import go xmpp xmpp.starttls bitfacts.

Section StartTLS.
Context {B : StateBits} {W : Type} {R : Runtime W}.

(** The side of the TLS layer the handler puts on the transport. *)
Definition upgraded (conn : Conn) : Conn :=
  set_rwc conn
    ((if Z.land (state conn) Received =? Received then tls_Server else tls_Client)
       (rwc conn) (TLSConfig_ (config conn))).

(** X10: whenever the STARTTLS handler returns, either it reports
    [Secure | StreamRestartRequired] with a nil error and has wrapped the
    transport, which is a [net.Conn], in a TLS layer (server side on a
    received connection, client side otherwise), or the connection is
    exactly as it was and the mask is zero with an error, or [EndStream].
    The transport is never replaced on a failure and [Secure] is never
    reported without the TLS layer. *)
Theorem StartTLS_secure_iff_upgraded (conn conn' : Conn) (w w' : W)
    (mask : Z) (err : option error) :
  StartTLS_Handler conn w = (Val (conn', (mask, err)), w') ->
  (err = None /\ mask = Z.lor Secure StreamRestartRequired
   /\ is_net_Conn (rwc conn) = true /\ conn' = upgraded conn
   /\ is_tls_Conn (rwc conn') = true)
  \/ (conn' = conn /\ ((mask = 0 /\ err <> None) \/ mask = EndStream)).
Proof.
  unfold StartTLS_Handler, upgraded.
  destruct (is_net_Conn (rwc conn)) eqn:Hn; cbv beta iota delta [negb].
  2:{ intros [= <- <- <- _]. right. split; [reflexivity|]. left. split; [reflexivity|discriminate]. }
  destruct (Z.land (state conn) Received =? Received).
  - unfold bind. destruct (Fprint conn proceed_element w) as [[n| |] w1]; try discriminate.
    intros [= <- <- <- _]. left. repeat split; reflexivity.
  - unfold bind. destruct (Fprint conn starttls_element w) as [[n| |] w1]; try discriminate.
    destruct (Decoder_Token w1) as [[[t|e]| |] w2]; try discriminate.
    2:{ intros [= <- <- <- _]. right. split; [reflexivity|]. left. split; [reflexivity|discriminate]. }
    destruct t as [tok| | | | |];
      try (intros [= <- <- <- _]; right; split; [reflexivity|];
           left; split; [reflexivity|discriminate]).
    destruct (String.eqb (xml.Space (xml.Name_ tok)) NSStartTLS); cbv beta iota delta [negb].
    2:{ intros [= <- <- <- _]. right. split; [reflexivity|]. left. split; [reflexivity|discriminate]. }
    destruct (String.eqb (xml.Local (xml.Name_ tok)) "proceed").
    + destruct (Decoder_Skip w2) as [[[e|]| |] w3]; try discriminate.
      * intros [= <- <- <- _]. right. split; [reflexivity|]. right. reflexivity.
      * intros [= <- <- <- _]. left. repeat split; reflexivity.
    + destruct (String.eqb (xml.Local (xml.Name_ tok)) "failure").
      * destruct (Decoder_Skip w2) as [[e| |] w3]; try discriminate.
        intros [= <- <- <- _]. right. split; [reflexivity|]. right. reflexivity.
      * intros [= <- <- <- _]. right. split; [reflexivity|].
        left. split; [reflexivity|discriminate].
Qed.


(** X12: on the initiating side, whatever answers [<starttls/>] other than
    [<proceed/>] or [<failure/>] in the STARTTLS namespace is an error that
    leaves the transport alone and sets no bit: the tokenizer's error is
    passed on, a token that is no start element is [RestrictedXML], an
    element of another namespace or another name is
    [UnsupportedStanzaType].  A [<proceed/>] whose closing tag cannot be
    skipped gives [InvalidXML] with [EndStream], again without TLS. *)
Theorem StartTLS_initiator_rejects (conn : Conn) (w w1 w2 : W) (n : Z * option error)
    (t : xml.Token + error) :
  is_net_Conn (rwc conn) = true ->
  Z.land (state conn) Received <> Received ->
  Fprint conn starttls_element w = (Val n, w1) ->
  Decoder_Token w1 = (Val t, w2) ->
  match t with
  | inr e => StartTLS_Handler conn w = (Val (conn, (0, Some e)), w2)
  | inl (xml.TStartElement tok) =>
    (xml.Space (xml.Name_ tok) <> NSStartTLS
     \/ (xml.Local (xml.Name_ tok) <> "proceed" /\ xml.Local (xml.Name_ tok) <> "failure") ->
     StartTLS_Handler conn w = (Val (conn, (0, Some UnsupportedStanzaType)), w2))
    /\ (forall e w3,
          xml.Name_ tok = {| xml.Space := NSStartTLS; xml.Local := "proceed" |} ->
          Decoder_Skip w2 = (Val (Some e), w3) ->
          StartTLS_Handler conn w = (Val (conn, (EndStream, Some InvalidXML)), w3))
  | inl _ => StartTLS_Handler conn w = (Val (conn, (0, Some RestrictedXML)), w2)
  end.
Proof.
  intros Hn Hr Hw Ht.
  assert (Hr' : Z.testbit (state conn) (Z.of_N Received_bit) = false).
  { destruct (Z.testbit (state conn) (Z.of_N Received_bit)) eqn:E; [|reflexivity].
    exfalso. apply Hr. unfold Received. rewrite land_state_bit, E. reflexivity. }
  rewrite (starttlsfacts.Handler_initiator conn w n w1 Hn Hr' Hw).
  destruct t as [[tok| | | | |]|e];
    try (unfold bind at 1; rewrite Ht; reflexivity).
  split.
  - intros Hbad. unfold bind at 1. rewrite Ht. destruct Hbad as [Hs|[Hp Hf]].
    + destruct (String.eqb_spec (xml.Space (xml.Name_ tok)) NSStartTLS); [contradiction|].
      reflexivity.
    + destruct (String.eqb (xml.Space (xml.Name_ tok)) NSStartTLS); [|reflexivity].
      cbv beta iota delta [negb].
      destruct (String.eqb_spec (xml.Local (xml.Name_ tok)) "proceed"); [contradiction|].
      destruct (String.eqb_spec (xml.Local (xml.Name_ tok)) "failure"); [contradiction|].
      reflexivity.
  - intros e w3 Hname Hk. unfold bind at 1. rewrite Ht, Hname.
    cbn [xml.Space xml.Local].
    rewrite String.eqb_refl. cbv beta iota delta [negb].
    change (String.eqb "proceed" "proceed") with true. cbv iota.
    unfold bind. rewrite Hk. reflexivity.
Qed.

End StartTLS.

(** A connection over a transport that is no [net.Conn]. *)
Definition pipe (st : Z) : Conn := set_rwc (sim.conn st) (rwc_plain 1).

Definition run (c : Conn) (toks : list xml.Token)
  : res (Conn * (Z * option error)) * sim.World :=
  @StartTLS_Handler sim.bits _ sim.runtime c (sim.world EmptyString toks).

Lemma StartTLS_secure_iff_upgraded_witness :
  (pipe 0 = pipe 0
   /\ ((0 = 0 /\ Some ErrTLSUpgradeFailed <> None) \/ 0 = @EndStream sim.bits)).
Proof.
  destruct (@StartTLS_secure_iff_upgraded sim.bits _ sim.runtime (pipe 0) (pipe 0)
              (sim.world EmptyString []) (sim.world EmptyString []) 0
              (Some ErrTLSUpgradeFailed) ltac:(vm_compute; reflexivity))
    as [(H & _)|H]; [discriminate H|exact H].
Defined.


Lemma StartTLS_initiator_rejects_witness :
  run (sim.conn 0) [xml.TCharData "x"]
  = (Val (sim.conn 0, (0, Some RestrictedXML)),
     sim.set_tx (sim.world EmptyString []) [starttls_element]).
Proof.
  apply (@StartTLS_initiator_rejects sim.bits _ sim.runtime (sim.conn 0)
           (sim.world EmptyString [xml.TCharData "x"])
           (sim.set_tx (sim.world EmptyString [xml.TCharData "x"]) [starttls_element])
           (sim.set_tx (sim.world EmptyString []) [starttls_element])
           (len starttls_element, None) (inl (xml.TCharData "x")));
    vm_compute; try reflexivity. discriminate.
Defined.

End starttlsmore.

(** ** SASL: mechanism selection, the challenge decoder, the outcomes of
    [Negotiate] and the advertisement *)

Module saslmore.
Import go xmpp xmpp.sasl bitfacts.

Lemma offered_In name names :
  existsb (fun n => String.eqb n name) names = true <-> In name names.
Proof.
  rewrite existsb_exists. split.
  - intros (n & Hin & E). apply String.eqb_eq in E. subst. exact Hin.
  - intros H. exists name. split; [exact H|apply String.eqb_refl].
Qed.

Lemma select_mechanism_skip pre ms names :
  (forall m', In m' pre -> ~ In (mech_Name m') names) ->
  select_mechanism (pre ++ ms) names = select_mechanism ms names.
Proof.
  induction pre as [|p pre IH]; intros H; [reflexivity|]. simpl.
  destruct (existsb _ names) eqn:E.
  - apply offered_In in E. exfalso. exact (H p (or_introl eq_refl) E).
  - apply IH. intros m' Hm'. apply H. right. exact Hm'.
Qed.

Lemma select_mechanism_none ms names :
  (forall m, In m ms -> ~ In (mech_Name m) names) ->
  select_mechanism ms names = zero_Mechanism.
Proof.
  intros H. rewrite <- (app_nil_r ms). rewrite select_mechanism_skip by exact H.
  reflexivity.
Qed.

(** X13: the mechanism selected for negotiation is the first of the
    mechanisms given to [SASL], in the order they were given, whose name is
    among the names the peer offers; when no name is offered the selection
    is the zero [Mechanism]. *)
Theorem select_mechanism_client_order (names : list string) :
  (forall ms, (forall m, In m ms -> ~ In (mech_Name m) names) ->
              select_mechanism ms names = zero_Mechanism)
  /\ (forall pre m post,
        (forall m', In m' pre -> ~ In (mech_Name m') names) ->
        In (mech_Name m) names ->
        select_mechanism (pre ++ m :: post) names = m).
Proof.
  split; [intros ms; apply select_mechanism_none|].
  intros pre m post Hpre Hm. rewrite select_mechanism_skip by exact Hpre.
  simpl. apply offered_In in Hm. rewrite Hm. reflexivity.
Qed.

Section SASL.
Context {B : StateBits} {W : Type} {R : Runtime W}.

Definition no_mechanism_error : error := errors_New "No matching SASL mechanisms found".

(** X14: on the initiating side, when the peer offers none of the
    configured mechanisms, [Negotiate] returns the error "No matching SASL
    mechanisms found" with a zero mask and no transport, and nothing is sent
    or read. *)
Theorem SASL_no_common_mechanism (fuel : nat) (ms : list Mechanism) (conn : Conn)
    (names : list string) (w : W) :
  Z.land (state conn) Received <> Received ->
  (forall m, In m ms -> ~ In (mech_Name m) names) ->
  SASL_Negotiate fuel ms conn (any_strings names) w
  = (Val (0, None, Some no_mechanism_error), w).
Proof.
  intros Hr Hno. unfold SASL_Negotiate.
  destruct (Z.eqb_spec (Z.land (state conn) Received) Received); [contradiction|].
  destruct ms as [|m ms]; [reflexivity|].
  rewrite (select_mechanism_none (m :: ms) names Hno). reflexivity.
Qed.

Definition SASL_name (local : string) : xml.Name :=
  {| xml.Space := ns.SASL; xml.Local := local |}.

(** X15: [decodeSASLChallenge] returns a nil error only for a [<success/>]
    element, or a [<challenge/>] element where challenges are allowed, in
    the SASL namespace, and then with the decoded payload; [success] is
    reported only for [<success/>] and never with an error.  A
    [<failure/>] therefore always gives an error.  An element of any other
    name, and a challenge where none is allowed, is
    [UnsupportedStanzaType] without anything being decoded. *)
Theorem decodeSASLChallenge_outcomes (start : xml.StartElement) (allowChallenge : bool)
    (w w' : W) (challenge : option string) (success : bool) (err : option error) :
  decodeSASLChallenge start allowChallenge w = (Val (challenge, success, err), w') ->
  (err = None ->
   challenge <> None
   /\ (xml.Name_ start = SASL_name "success" /\ success = true
       \/ xml.Name_ start = SASL_name "challenge" /\ success = false
          /\ allowChallenge = true))
  /\ (err <> None -> challenge = None /\ success = false)
  /\ (xml.Name_ start <> SASL_name "success"
      /\ xml.Name_ start <> SASL_name "failure"
      /\ (xml.Name_ start = SASL_name "challenge" -> allowChallenge = false) ->
      err = Some UnsupportedStanzaType /\ w' = w).
Proof.
  unfold decodeSASLChallenge, SASL_name. cbv zeta.
  destruct start as [[space local] attrs]. cbn [xml.Name_ xml.Space xml.Local].
  destruct (String.eqb_spec space ns.SASL) as [->|Hs]; cbn [andb].
  2:{ intros [= <- <- <- <-]. split; [discriminate|]. split; [auto|]. auto. }
  destruct (String.eqb_spec local "challenge") as [->|Hc]; cbn [orb].
  { destruct allowChallenge; cbn [negb andb].
    - change (String.eqb "challenge" "challenge") with true.
      change (String.eqb "challenge" "success") with false. cbv iota.
      unfold bind.
      destruct (Decoder_DecodeElement_chardata _ w) as [[[d [e|]]| |] w1]; try discriminate.
      + intros [= <- <- <- <-]. split; [discriminate|]. split; [auto|].
        intros (_ & _ & H). discriminate (H eq_refl).
      + intros [= <- <- <- <-]. split; [|split; [congruence|]].
        * intros _. split; [discriminate|]. right. auto.
        * intros (_ & _ & H). discriminate (H eq_refl).
    - change (String.eqb "challenge" "challenge") with true. cbv iota.
      intros [= <- <- <- <-]. split; [discriminate|]. split; auto. }
  destruct (String.eqb_spec local "success") as [->|Hu].
  { cbn [negb andb]. rewrite andb_false_r. cbv iota. unfold bind.
    destruct (Decoder_DecodeElement_chardata _ w) as [[[d [e|]]| |] w1]; try discriminate.
    - intros [= <- <- <- <-]. split; [discriminate|]. split; [auto|].
      intros (H & _). contradiction H. reflexivity.
    - intros [= <- <- <- <-]. split; [|split; [congruence|]].
      + intros _. split; [discriminate|]. left. auto.
      + intros (H & _). contradiction H. reflexivity. }
  cbv iota.
  destruct (String.eqb_spec local "failure") as [->|Hf].
  { unfold bind.
    destruct (Decoder_DecodeElement_failure _ w) as [[[f [e|]]| |] w1]; try discriminate.
    - intros [= <- <- <- <-]. split; [discriminate|]. split; [auto|].
      intros (_ & H & _). contradiction H. reflexivity.
    - intros [= <- <- <- <-]. split; [discriminate|]. split; [auto|].
      intros (_ & H & _). contradiction H. reflexivity. }
  intros [= <- <- <- <-]. split; [discriminate|]. split; auto.
Qed.

(** The outcomes of the challenge loop: authenticated with the raw
    transport and no error, or an error with nothing else. *)
Definition authenticated_or_error (conn : Conn) (r : Z * option Transport * option error)
  : Prop :=
  match r with
  | (mask, rwc, None) => mask = Authn /\ rwc = Some (Raw conn)
  | (mask, rwc, Some _) => mask = 0 /\ rwc = None
  end.

Lemma challenge_loop_outcome fuel conn : forall client more w r w',
  challenge_loop fuel conn client more w = (Val r, w') ->
  authenticated_or_error conn r.
Proof.
  induction fuel as [|fuel IH]; intros client more w r w'.
  - simpl. destruct more; cbn [negb]; [discriminate|].
    intros [= <- _]. split; reflexivity.
  - simpl. destruct more; cbn [negb]; [|intros [= <- _]; split; reflexivity].
    unfold bind.
    destruct (ctx_Err w) as [[[e|]| |] w0]; try discriminate.
    { intros [= <- _]. split; reflexivity. }
    destruct (Decoder_Token w0) as [[[t|e]| |] w1]; try discriminate.
    2:{ intros [= <- _]. split; reflexivity. }
    destruct t as [t| | | | |]; try (intros [= <- _]; split; reflexivity).
    destruct (decodeSASLChallenge t true w1) as [[[[ch su] [e|]]| |] w2]; try discriminate.
    { intros [= <- _]. split; reflexivity. }
    destruct (sasl_Step client ch w2) as [[[cl [[mo resp] [e|]]]| |] w3]; try discriminate.
    { intros [= <- _]. split; reflexivity. }
    destruct (negb mo && su).
    { intros [= <- _]. split; reflexivity. }
    destruct (Fprint conn (response_element resp) w3) as [[[n [e|]]| |] w4]; try discriminate.
    { intros [= <- _]. split; reflexivity. }
    apply IH.
Qed.

(** X16: whenever the [Negotiate] of the SASL feature returns, it returns
    either the mask [Authn] with the connection's raw transport and a nil
    error, or an error with a zero mask and no transport: [Authn] is never
    granted together with an error. *)
Theorem SASL_Negotiate_outcome (fuel : nat) (ms : list Mechanism) (conn : Conn)
    (data : any) (w w' : W) (mask : Z) (rwc' : option Transport) (err : option error) :
  SASL_Negotiate fuel ms conn data w = (Val (mask, rwc', err), w') ->
  match err with
  | None => mask = Authn /\ rwc' = Some (Raw conn)
  | Some _ => mask = 0 /\ rwc' = None
  end.
Proof.
  intros H. change (authenticated_or_error conn (mask, rwc', err)).
  revert H. generalize (mask, rwc', err). clear mask rwc' err. intros r.
  unfold SASL_Negotiate.
  destruct (Z.land (state conn) Received =? Received); [discriminate|].
  destruct ms as [|m ms]; [intros [= <- _]; split; reflexivity|].
  destruct data as [|names|tag]; try discriminate.
  destruct (String.eqb (mech_Name (select_mechanism (m :: ms) names)) EmptyString).
  { intros [= <- _]. split; reflexivity. }
  cbv zeta. unfold bind.
  destruct (sasl_Step _ None w) as [[[cl [[mo resp] [e|]]]| |] w1]; try discriminate.
  { intros [= <- _]. split; reflexivity. }
  destruct (Fprint conn _ w1) as [[[n [e|]]| |] w2]; try discriminate.
  { unfold after_auth. intros [= <- _]. split; reflexivity. }
  unfold after_auth. destruct mo; cbn [negb]; [apply challenge_loop_outcome|].
  unfold bind.
  destruct (Decoder_Token w2) as [[[t|e]| |] w3]; try discriminate.
  2:{ intros [= <- _]. split; reflexivity. }
  destruct t as [t| | | | |]; try (intros [= <- _]; split; reflexivity).
  destruct (decodeSASLChallenge t false w3) as [[[[ch su] [e|]]| |] w4]; try discriminate.
  { intros [= <- _]. split; reflexivity. }
  apply challenge_loop_outcome.
Qed.

(** X17: in the challenge loop, when the client's step on a challenge
    reports that no further step is needed, the response is sent and the
    loop ends: [Negotiate] returns [Authn] with a nil error right after that
    write, without reading the [<success/>] (or [<failure/>]) with which the
    peer answers the last response. *)
Theorem SASL_authn_after_last_response (fuel : nat) (conn : Conn) (client client' : sasl_Client)
    (t : xml.StartElement) (payload resp : string) (n : Z) (w w1 w2 w3 w4 w5 : W) :
  ctx_Err w = (Val None, w1) ->
  Decoder_Token w1 = (Val (inl (xml.TStartElement t)), w2) ->
  xml.Name_ t = SASL_name "challenge" ->
  Decoder_DecodeElement_chardata t w2 = (Val (payload, None), w3) ->
  sasl_Step client (Some payload) w3 = (Val (client', (false, resp, None)), w4) ->
  Fprint conn (response_element resp) w4 = (Val (n, None), w5) ->
  challenge_loop (S fuel) conn client true w = (Val (Authn, Some (Raw conn), None), w5).
Proof.
  intros Hctx Htok Hname Hdec Hstep Hw.
  simpl challenge_loop. unfold bind at 1. rewrite Hctx.
  unfold bind at 1. rewrite Htok.
  unfold bind at 1. unfold decodeSASLChallenge. cbv zeta. rewrite Hname.
  cbn [SASL_name xml.Space xml.Local].
  rewrite String.eqb_refl.
  change (String.eqb "challenge" "challenge") with true. cbn [andb orb negb]. cbv iota.
  unfold bind at 1. rewrite Hdec.
  change (String.eqb "challenge" "success") with false.
  unfold ret at 1. cbv beta iota.
  unfold bind at 1. rewrite Hstep. cbn [negb andb]. cbv iota.
  unfold bind at 1. rewrite Hw.
  destruct fuel; reflexivity.
Qed.

(** X18: the feature [SASL] returns passes the advertisement gate exactly
    in the states that have the [Secure] bit and not the [Authn] bit; so it
    is not offered before the stream is secured, and once a negotiation
    that returned the mask [Authn] without error has been recorded it is not
    offered again. *)
Theorem SASL_offered_once (fuel : nat) (m : Mechanism) (ms : list Mechanism)
    (f : StreamFeature W) :
  SASL fuel (m :: ms) = Returns f ->
  (forall st, gate st f
              = Z.testbit st (Z.of_N Secure_bit) && negb (Z.testbit st (Z.of_N Authn_bit)))
  /\ (forall (s : Session) (d : sfData W),
        gate (state (record_negotiation s d Authn None)) f = false).
Proof.
  intros [= <-]. unfold gate. cbn [Necessary Prohibited].
  assert (Hg : forall st,
            (Z.land st Secure =? Secure) && (Z.land st Authn =? 0)
            = Z.testbit st (Z.of_N Secure_bit) && negb (Z.testbit st (Z.of_N Authn_bit))).
  { intros st. unfold Secure, Authn. rewrite has_bit, land_state_bit.
    destruct (Z.testbit st (Z.of_N Authn_bit)); cbn [negb]; [|rewrite Z.eqb_refl; reflexivity].
    destruct (Z.eqb_spec (state_bit Authn_bit) 0) as [E|_]; [|reflexivity].
    exfalso. exact (state_bit_nonzero _ E). }
  split; [exact Hg|].
  intros s d. rewrite Hg. unfold record_negotiation.
  cbn [state set_negotiated set_state].
  rewrite !Z.lor_spec. unfold Authn. rewrite state_bit_pow.
  rewrite (Z.pow2_bits_true (Z.of_N Authn_bit)) by lia.
  rewrite orb_true_r. apply andb_false_r.
Qed.

End SASL.

(** *** On the scripted environment *)

Import sim.

Definition mechanism_tokens (m : Mechanism) : list xml.Token :=
  [xml.TStartElement startMechanism; xml.TCharData (mech_Name m); xml.End startMechanism].

Lemma List_range_tokens ms : forall w,
  cancelled w = None ->
  List_range (R:=runtime) ms w
  = (Val None, set_encoded w (encoded w ++ flat_map mechanism_tokens ms)).
Proof.
  induction ms as [|m ms IH]; intros w Hc.
  - simpl. rewrite app_nil_r. destruct w; reflexivity.
  - simpl List_range. unfold bind. cbn [ctx_Err runtime]. rewrite Hc.
    cbn [Encoder_EncodeToken runtime].
    rewrite IH by exact Hc. cbn [encoded set_encoded flat_map].
    rewrite <- !app_assoc. reflexivity.
Qed.

(** X19: with an encoder that takes every token and a context that is not
    cancelled, the [List] of the SASL feature reports the feature as
    required and encodes the given start element, one
    [<mechanism>name</mechanism>] per mechanism in the order the mechanisms
    were given to [SASL], and the matching end element.  When the context
    is already cancelled it stops at the first mechanism with the context's
    error, after the start element only. *)
Theorem SASL_List_tokens (ms : list Mechanism) (start : xml.StartElement) (w : World) :
  (cancelled w = None ->
   SASL_List (R:=runtime) ms start w
   = (Val (true, None),
      set_encoded w (encoded w ++ xml.TStartElement start
                     :: flat_map mechanism_tokens ms ++ [xml.End start])))
  /\ (forall e, cancelled w = Some e -> ms <> [] ->
        SASL_List (R:=runtime) ms start w
        = (Val (true, Some e), set_encoded w (encoded w ++ [xml.TStartElement start]))).
Proof.
  split.
  - intros Hc. unfold SASL_List, bind. cbn [Encoder_EncodeToken runtime].
    rewrite List_range_tokens by exact Hc.
    cbn [Encoder_Flush runtime ret encoded set_encoded].
    rewrite <- !app_assoc. reflexivity.
  - intros e Hc Hms. destruct ms as [|m ms]; [contradiction|].
    unfold SASL_List, bind. cbn [Encoder_EncodeToken runtime List_range].
    unfold bind. cbn [ctx_Err runtime cancelled set_encoded]. rewrite Hc. reflexivity.
Qed.

Lemma select_mechanism_client_order_witness :
  select_mechanism [saslfacts.EXTERNAL; saslfacts.PLAIN] ["PLAIN"] = saslfacts.PLAIN
  /\ select_mechanism [saslfacts.EXTERNAL; saslfacts.PLAIN] ["ANONYMOUS"] = zero_Mechanism.
Proof.
  split.
  - apply (proj2 (select_mechanism_client_order ["PLAIN"]) [saslfacts.EXTERNAL]
             saslfacts.PLAIN []).
    + intros m' [<-|[]] [H|[]]. discriminate H.
    + left. reflexivity.
  - apply (proj1 (select_mechanism_client_order ["ANONYMOUS"])).
    intros m [<-|[<-|[]]] [H|[]]; discriminate H.
Defined.

Lemma SASL_no_common_mechanism_witness :
  @SASL_Negotiate bits _ runtime 4 [saslfacts.EXTERNAL; saslfacts.PLAIN] (conn 1)
    (any_strings ["ANONYMOUS"]) (world EmptyString saslfacts.success_tokens)
  = (Val (0, None, Some no_mechanism_error), world EmptyString saslfacts.success_tokens).
Proof.
  apply (@SASL_no_common_mechanism bits _ runtime).
  - vm_compute. discriminate.
  - intros m [<-|[<-|[]]] [H|[]]; discriminate H.
Defined.

Definition challenge_tokens : list xml.Token :=
  [ xml.TStartElement {| xml.Name_ := SASL_name "challenge"; xml.Attr_ := [] |};
    xml.TCharData "cmVhbG0";
    xml.TEndElement (SASL_name "challenge") ].

Lemma decodeSASLChallenge_outcomes_witness :
  Some "cmVhbG0" <> None
  /\ (SASL_name "challenge" = SASL_name "success" /\ false = true
      \/ SASL_name "challenge" = SASL_name "challenge" /\ false = false /\ true = true).
Proof.
  apply (proj1 (@decodeSASLChallenge_outcomes _ runtime
                  {| xml.Name_ := SASL_name "challenge"; xml.Attr_ := [] |} true
                  (world EmptyString (tl challenge_tokens)) (world EmptyString [])
                  (Some "cmVhbG0") false None ltac:(vm_compute; reflexivity))).
  reflexivity.
Defined.

Lemma SASL_Negotiate_outcome_witness :
  @Authn bits = @Authn bits /\ Some (rwc_net 1) = Some (Raw (conn 1)).
Proof.
  apply (@SASL_Negotiate_outcome bits _ runtime 4 [saslfacts.EXTERNAL; saslfacts.PLAIN]
           (conn 1) (any_strings ["EXTERNAL"]) (world EmptyString saslfacts.success_tokens)
           (set_tx (world EmptyString [])
              ["<auth xmlns='urn:ietf:params:xml:ns:xmpp-sasl' mechanism='EXTERNAL'>=</auth>"])
           (@Authn bits) (Some (rwc_net 1)) None).
  vm_compute. reflexivity.
Defined.

(** The peer has sent a challenge and nothing else; the scripted client
    answers it with its last response. *)
Lemma SASL_authn_after_last_response_witness :
  @challenge_loop bits _ runtime 1 (conn 1) [(false, "cmVzcA", None)] true
    (world EmptyString challenge_tokens)
  = (Val (@Authn bits, Some (rwc_net 1), None),
     set_tx (world EmptyString [])
       ["<response xmlns='urn:ietf:params:xml:ns:xmpp-sasl'>cmVzcA</response>"]).
Proof.
  apply (@SASL_authn_after_last_response bits _ runtime 0 (conn 1)
           [(false, "cmVzcA", None)] []
           {| xml.Name_ := SASL_name "challenge"; xml.Attr_ := [] |}
           "cmVhbG0" "cmVzcA" (len (response_element "cmVzcA"))
           (world EmptyString challenge_tokens) (world EmptyString challenge_tokens)
           (world EmptyString (tl challenge_tokens)) (world EmptyString [])
           (world EmptyString []));
    vm_compute; reflexivity.
Defined.

Lemma SASL_offered_once_witness :
  gate (W:=World) (@Secure bits)
    {| Name := {| xml.Space := ns.SASL; xml.Local := "mechanisms" |};
       Necessary := @Secure bits; Prohibited := @Authn bits;
       List := SASL_List (R:=runtime) [saslfacts.PLAIN]; Parse := SASL_Parse (R:=runtime);
       Negotiate := SASL_Negotiate (B:=bits) (R:=runtime) 4 [saslfacts.PLAIN] |}
  = Z.testbit (@Secure bits) 0 && negb (Z.testbit (@Secure bits) 1).
Proof.
  apply (proj1 (@SASL_offered_once bits _ runtime 4 saslfacts.PLAIN [] _ eq_refl)).
Defined.

Lemma SASL_List_tokens_witness :
  SASL_List (R:=runtime) [saslfacts.EXTERNAL; saslfacts.PLAIN]
    {| xml.Name_ := SASL_name "mechanisms"; xml.Attr_ := [] |} (world EmptyString [])
  = (Val (true, None),
     set_encoded (world EmptyString [])
       ([] ++ xml.TStartElement {| xml.Name_ := SASL_name "mechanisms"; xml.Attr_ := [] |}
        :: flat_map mechanism_tokens [saslfacts.EXTERNAL; saslfacts.PLAIN]
        ++ [xml.TEndElement (SASL_name "mechanisms")])).
Proof.
  apply (proj1 (SASL_List_tokens [saslfacts.EXTERNAL; saslfacts.PLAIN]
                  {| xml.Name_ := SASL_name "mechanisms"; xml.Attr_ := [] |}
                  (world EmptyString []))).
  reflexivity.
Defined.

End saslmore.

(** ** Reading the features list, selecting a feature, and what negotiation
    leaves of the session *)

Module featuremore.
Import go xmpp bitfacts featurefacts.

Section Features.
Context {B : StateBits} {W : Type} {R : Runtime W} {MO : MapOrder W}.

(** [s'] is [s] with more advertised namespaces and nothing else changed. *)
Definition advertises_more (s s' : Session) : Prop :=
  config s' = config s /\ rwc s' = rwc s /\ state s' = state s
  /\ origin s' = origin s /\ negotiated s' = negotiated s
  /\ forall ns, is_Some (features s !! ns) -> is_Some (features s' !! ns).

Lemma advertises_more_refl s : advertises_more s s.
Proof. repeat split; auto. Qed.

Lemma advertises_more_insert s s' ns d :
  advertises_more (set_features s (<[ ns := d ]> (features s))) s' ->
  advertises_more s s' /\ is_Some (features s' !! ns).
Proof.
  intros (H1 & H2 & H3 & H4 & H5 & H6). cbn in H1, H2, H3, H4, H5, H6. split.
  - repeat split; try assumption. intros k Hk. apply H6.
    destruct (decide (ns = k)) as [->|Hne].
    + rewrite lookup_insert_eq. eauto.
    + rewrite lookup_insert_ne by exact Hne. exact Hk.
  - apply H6. rewrite lookup_insert_eq. eauto.
Qed.

Lemma advertises_more_step s s' ns d :
  advertises_more (set_features s (<[ ns := d ]> (features s))) s' ->
  advertises_more s s'.
Proof. intros H. apply (advertises_more_insert s s' ns d H). Qed.

(** The parse loop changes the session's advertised namespaces only, and
    only by adding to them. *)
Lemma readStreamFeatures_loop_frame fuel (F : gmap xml.Name (StreamFeature W)) :
  forall s sf w s' r w',
    readStreamFeatures_loop fuel F s sf w = (Val (s', r), w') -> advertises_more s s'.
Proof.
  induction fuel as [|fuel IH]; intros s sf w s' r w'; [discriminate|].
  simpl. unfold bind at 1.
  destruct (Decoder_Token w) as [[[t|e]| |] w0]; try discriminate.
  2:{ intros [= <- _ _]. apply advertises_more_refl. }
  destruct t as [tok|name| | | |];
    try (intros [= <- _ _]; apply advertises_more_refl).
  - set (s1 := set_features s (<[ xml.Space (xml.Name_ tok) := any_nil ]> (features s))).
    assert (Hskip : forall sf1,
              bind Decoder_Skip
                (fun err => match err with
                            | Some e => ret (s1, (None, Some e))
                            | None => readStreamFeatures_loop fuel F s1 sf1
                            end) w0 = (Val (s', r), w') -> advertises_more s s').
    { intros sf1. unfold bind.
      destruct (Decoder_Skip w0) as [[[e|]| |] w1]; try discriminate.
      - intros [= <- _ _]. apply (advertises_more_step s s1 (xml.Space (xml.Name_ tok)) any_nil).
        apply advertises_more_refl.
      - intros H. apply IH in H. apply (advertises_more_step s s' _ any_nil H). }
    destruct (F !! xml.Name_ tok) as [f|]; [|apply Hskip].
    change (state s1) with (state s).
    destruct (gate (state s) f); [|apply Hskip].
    unfold bind.
    destruct (Parse f tok w0) as [[[[rq d] [e|]]| |] w1]; try discriminate.
    + intros [= <- _ _]. apply (advertises_more_step s s1 (xml.Space (xml.Name_ tok)) any_nil).
      apply advertises_more_refl.
    + intros H. apply IH in H.
      apply (advertises_more_step s1 s' _ d) in H.
      apply (advertises_more_step s s' _ any_nil H).
  - destruct (_ && _); intros [= <- _ _]; apply advertises_more_refl.
Qed.

(** The entry [d] is cached under [ns] for a feature that is configured
    under a name of that namespace and passes the gate. *)
Definition configured (F : gmap xml.Name (StreamFeature W)) (st : Z) (ns : string)
    (d : sfData W) : Prop :=
  exists name, F !! name = Some (feature d) /\ xml.Space name = ns
               /\ gate st (feature d) = true.

Definition required_noted (sf : streamFeaturesList W) : Prop :=
  forall ns d, cache sf !! ns = Some d -> req d = true -> list_req sf = true.

Lemma readStreamFeatures_loop_cache fuel (F : gmap xml.Name (StreamFeature W)) :
  forall s sf w s' sf' w',
    readStreamFeatures_loop fuel F s sf w = (Val (s', (Some sf', None)), w') ->
    (forall ns d, cache sf' !! ns = Some d ->
                  cache sf !! ns = Some d \/ configured F (state s) ns d)
    /\ (forall ns, is_Some (cache sf' !! ns) ->
                   is_Some (cache sf !! ns) \/ is_Some (features s' !! ns))
    /\ Z.of_nat (size (cache sf')) - Z.of_nat (size (cache sf)) <= total sf' - total sf
    /\ (required_noted sf -> required_noted sf').
Proof.
  induction fuel as [|fuel IH]; intros s sf w s' sf' w'; [discriminate|].
  simpl. unfold bind at 1.
  destruct (Decoder_Token w) as [[[t|e]| |] w0]; try discriminate.
  destruct t as [tok|name| | | |]; try discriminate.
  - set (s1 := set_features s (<[ xml.Space (xml.Name_ tok) := any_nil ]> (features s))).
    set (sf1 := {| total := total sf + 1; list_req := list_req sf; cache := cache sf |}).
    assert (Hskip :
              bind Decoder_Skip
                (fun err => match err with
                            | Some e => ret (s1, (None, Some e))
                            | None => readStreamFeatures_loop fuel F s1 sf1
                            end) w0 = (Val (s', (Some sf', None)), w') ->
              (forall ns d, cache sf' !! ns = Some d ->
                            cache sf !! ns = Some d \/ configured F (state s) ns d)
              /\ (forall ns, is_Some (cache sf' !! ns) ->
                             is_Some (cache sf !! ns) \/ is_Some (features s' !! ns))
              /\ Z.of_nat (size (cache sf')) - Z.of_nat (size (cache sf))
                 <= total sf' - total sf
              /\ (required_noted sf -> required_noted sf')).
    { unfold bind.
      destruct (Decoder_Skip w0) as [[[e|]| |] w1]; try discriminate.
      intros H. apply IH in H as (H1 & H2 & H3 & H4).
      split; [exact H1|]. split; [exact H2|]. split; [cbn in H3; lia|exact H4]. }
    destruct (F !! xml.Name_ tok) as [f|] eqn:HF; [|apply Hskip].
    change (state s1) with (state s).
    destruct (gate (state s) f) eqn:Hg; [|apply Hskip].
    unfold bind.
    destruct (Parse f tok w0) as [[[[rq d0] [e|]]| |] w1]; try discriminate.
    intros H. pose proof (readStreamFeatures_loop_frame _ _ _ _ _ _ _ _ H) as Hfr.
    apply IH in H as (H1 & H2 & H3 & H4). unfold sf1 in H1, H2, H3, H4.
    cbn [cache total list_req] in H1, H2, H3, H4.
    split; [|split; [|split]].
    + intros ns d Hd. destruct (H1 ns d Hd) as [Hc|Hc]; [|right; exact Hc].
      destruct (decide (xml.Space (xml.Name_ tok) = ns)) as [<-|Hne].
      * rewrite lookup_insert_eq in Hc. injection Hc as <-. right.
        exists (xml.Name_ tok). cbn [feature]. auto.
      * rewrite lookup_insert_ne in Hc by exact Hne. left. exact Hc.
    + intros ns Hs. destruct (H2 ns Hs) as [Hc|Hc]; [|right; exact Hc].
      destruct (decide (xml.Space (xml.Name_ tok) = ns)) as [<-|Hne].
      * right. destruct Hfr as (_ & _ & _ & _ & _ & Hfr). apply Hfr. cbn.
        rewrite lookup_insert_eq. eauto.
      * rewrite lookup_insert_ne in Hc by exact Hne. left. exact Hc.
    + pose proof (map_size_insert (xml.Space (xml.Name_ tok))
                    {| req := rq; data := d0; feature := f |} (cache sf)) as Hsz.
      rewrite Hsz in H3. destruct (cache sf !! xml.Space (xml.Name_ tok)); cbn in H3; lia.
    + intros Hreq. apply H4. intros ns d Hd Hr. cbn [cache list_req] in Hd |- *.
      destruct (decide (xml.Space (xml.Name_ tok) = ns)) as [<-|Hne].
      * rewrite lookup_insert_eq in Hd. injection Hd as <-. cbn in Hr. rewrite Hr. reflexivity.
      * rewrite lookup_insert_ne in Hd by exact Hne.
        rewrite (Hreq ns d Hd Hr). destruct rq; reflexivity.
  - destruct (_ && _); [|discriminate]. intros [= <- <- _].
    split; [auto|]. split; [auto|]. split; [lia|auto].
Qed.

Lemma readStreamFeatures_start fuel (F : gmap xml.Name (StreamFeature W)) s start w s' sf err w' :
  readStreamFeatures fuel F s start w = (Val (s', (Some sf, err)), w') ->
  xml.Name_ start = {| xml.Space := ns.Stream; xml.Local := "features" |}
  /\ err = None
  /\ readStreamFeatures_loop fuel F s empty_list w = (Val (s', (Some sf, None)), w').
Proof.
  unfold readStreamFeatures. destruct start as [[space local] attrs].
  cbn [xml.Name_ xml.Space xml.Local].
  destruct (String.eqb_spec local "features") as [->|]; cbn [negb]; [|discriminate].
  destruct (String.eqb_spec space ns.Stream) as [->|]; cbn [negb]; [|discriminate].
  intros H. split; [reflexivity|].
  assert (E : err = None).
  { clear -H. revert s w H. generalize (@empty_list W). induction fuel as [|fuel IH];
      intros sf0 s w; [discriminate|].
    simpl. unfold bind at 1.
    destruct (Decoder_Token w) as [[[t|e]| |] w0]; try discriminate.
    destruct t as [tok|name| | | |]; try discriminate.
    - assert (Hskip : forall s1 sf1,
                bind Decoder_Skip
                  (fun err0 => match err0 with
                               | Some e => ret (s1, (None, Some e))
                               | None => readStreamFeatures_loop fuel F s1 sf1
                               end) w0 = (Val (s', (Some sf, err)), w') -> err = None).
      { intros s1 sf1. unfold bind.
        destruct (Decoder_Skip w0) as [[[e|]| |] w1]; try discriminate. apply IH. }
      destruct (F !! xml.Name_ tok) as [f|]; [|apply Hskip].
      destruct (gate _ f); [|apply Hskip].
      unfold bind. destruct (Parse f tok w0) as [[[[rq d0] [e|]]| |] w1]; try discriminate.
      apply IH.
    - destruct (_ && _); [|discriminate]. intros [= _ _ <- _]. reflexivity. }
  split; [exact E|]. rewrite <- E. exact H.
Qed.

Lemma readStreamFeatures_frame fuel (F : gmap xml.Name (StreamFeature W)) s start w s' r w' :
  readStreamFeatures fuel F s start w = (Val (s', r), w') -> advertises_more s s'.
Proof.
  unfold readStreamFeatures. intros H.
  destruct (negb _); [injection H as <- _ _; apply advertises_more_refl|].
  destruct (negb _); [injection H as <- _ _; apply advertises_more_refl|].
  eapply readStreamFeatures_loop_frame; exact H.
Qed.

Lemma readStreamFeatures_configured fuel (F : gmap xml.Name (StreamFeature W)) s start w s'
    sf err w' :
  readStreamFeatures fuel F s start w = (Val (s', (Some sf, err)), w') ->
  forall ns d, cache sf !! ns = Some d -> configured F (state s) ns d.
Proof.
  intros H ns d Hd. apply readStreamFeatures_start in H as (_ & _ & H).
  apply readStreamFeatures_loop_cache in H as (H1 & _).
  destruct (H1 ns d Hd) as [Hc|Hc]; [|exact Hc].
  cbn in Hc. rewrite lookup_empty in Hc. discriminate.
Qed.

(** X20: when [readStreamFeatures] returns a list, the element it was
    given is [features] in the stream namespace; every entry of the cache
    belongs to a feature configured under a name of the entry's namespace
    that passes the gate in the session's state; [total] is at least the
    number of cached entries; and the list is marked required as soon as a
    cached entry is. *)
Theorem readStreamFeatures_cache (fuel : nat) (F : gmap xml.Name (StreamFeature W))
    (s s' : Session) (start : xml.StartElement) (w w' : W) (sf : streamFeaturesList W)
    (err : option error) :
  readStreamFeatures fuel F s start w = (Val (s', (Some sf, err)), w') ->
  err = None
  /\ xml.Name_ start = {| xml.Space := ns.Stream; xml.Local := "features" |}
  /\ (forall ns d, cache sf !! ns = Some d ->
        exists name, F !! name = Some (feature d) /\ xml.Space name = ns
                     /\ advertisable (state s) (feature d))
  /\ Z.of_nat (size (cache sf)) <= total sf
  /\ (forall ns d, cache sf !! ns = Some d -> req d = true -> list_req sf = true).
Proof.
  intros H. apply readStreamFeatures_start in H as (Hn & -> & H).
  apply readStreamFeatures_loop_cache in H as (H1 & _ & H3 & H4).
  split; [reflexivity|]. split; [exact Hn|]. split; [|split].
  - intros ns d Hd. destruct (H1 ns d Hd) as [Hc|(name & Hf & Hs & Hg)].
    + cbn in Hc. rewrite lookup_empty in Hc. discriminate.
    + exists name. split; [exact Hf|]. split; [exact Hs|]. apply gate_spec, Hg.
  - cbn in H3. rewrite map_size_empty in H3. lia.
  - apply H4. intros ns d Hd. cbn in Hd. rewrite lookup_empty in Hd. discriminate.
Qed.

(** X21: whatever [readStreamFeatures] returns, it has changed nothing of
    the session but the advertised namespaces, and every namespace that
    [Feature] reported before it still reports; when it returns a list,
    [Feature] reports every cached namespace as advertised. *)
Theorem readStreamFeatures_advertised (fuel : nat) (F : gmap xml.Name (StreamFeature W))
    (s s' : Session) (start : xml.StartElement) (w w' : W)
    (r : option (streamFeaturesList W) * option error) :
  readStreamFeatures fuel F s start w = (Val (s', r), w') ->
  (config s', rwc s', state s', origin s', negotiated s')
  = (config s, rwc s, state s, origin s, negotiated s)
  /\ (forall ns, (Feature s ns).2 = true -> (Feature s' ns).2 = true)
  /\ (forall sf, r.1 = Some sf ->
        forall ns, is_Some (cache sf !! ns) -> (Feature s' ns).2 = true).
Proof.
  intros H.
  assert (Hfeat : forall c ns, (Feature c ns).2 = true <-> is_Some (features c !! ns)).
  { intros c ns. unfold Feature. destruct (features c !! ns); cbn.
    - split; eauto.
    - split; [discriminate|intros [x Hx]; discriminate]. }
  destruct (readStreamFeatures_frame _ _ _ _ _ _ _ _ H) as (H1 & H2 & H3 & H4 & H5 & H6).
  split; [rewrite H1, H2, H3, H4, H5; reflexivity|]. split.
  - intros ns. rewrite !Hfeat. apply H6.
  - intros sf Hr ns Hs. destruct r as [l err]. cbn in Hr. subst l.
    apply readStreamFeatures_start in H as (_ & -> & H).
    apply readStreamFeatures_loop_cache in H as (_ & Hc & _).
    apply Hfeat. destruct (Hc ns Hs) as [Hx|Hx]; [|exact Hx].
    cbn in Hx. rewrite lookup_empty in Hx. destruct Hx as [x Hx]. discriminate.
Qed.

(** X22: an initiator configured with no feature negotiates nothing: when
    [negotiateFeatures] returns without error it reports that this feature
    set is done, returns no transport, and has changed neither the state
    bits nor the negotiated namespaces, whatever the peer advertised. *)
Theorem initiator_without_features (fuel : nat) (c c' : Session) (w w' : W)
    (done : bool) (rwc' : option Transport) :
  Z.land (state c) Received <> Received ->
  negotiateFeatures fuel ∅ c w = (Val (c', (done, rwc', None)), w') ->
  done = true /\ rwc' = None /\ state c' = state c /\ negotiated c' = negotiated c.
Proof.
  intros Hr. unfold negotiateFeatures.
  destruct (Z.eqb_spec (Z.land (state c) Received) Received); [contradiction|].
  cbv zeta iota. unfold bind at 1.
  destruct (Decoder_Token w) as [[[t|e]| |] w0]; try discriminate.
  destruct t as [start| | | | |]; try discriminate.
  unfold bind.
  destruct (readStreamFeatures fuel ∅ c start w0) as [[[c1 [l err]]| |] w1] eqn:E;
    try discriminate.
  destruct err as [e|]; [discriminate|]. destruct l as [sf|]; [|discriminate].
  destruct (readStreamFeatures_frame _ _ _ _ _ _ _ _ E) as (_ & _ & Hst & _ & Hneg & _).
  assert (Hempty : cache sf = ∅).
  { apply map_empty. intros ns. destruct (cache sf !! ns) as [d|] eqn:Hd; [|reflexivity].
    exfalso. destruct (readStreamFeatures_configured _ _ _ _ _ _ _ _ _ E ns d Hd)
      as (name & Hf & _).
    rewrite lookup_empty in Hf. discriminate. }
  rewrite Hempty, map_size_empty, orb_true_r.
  intros [= <- <- <- _]. auto.
Qed.

(** *** The client's choice among the cached features *)

(** The cached entry [d] belongs to a feature not negotiated yet. *)
Definition open_in (s : Session) (d : sfData W) : Prop :=
  xml.Space (Name (feature d)) ∉ negotiated s.

Lemma select_cached_optional n (vs : list (string * sfData W)) : forall d0,
  (exists k v, In (k, v) vs /\ (xml.Space (Name (feature v)) ∉ n) /\ req v = false) ->
  exists k v, select_cached n vs d0 = Some v /\ In (k, v) vs
              /\ (xml.Space (Name (feature v)) ∉ n) /\ req v = false.
Proof.
  induction vs as [|[k v] vs IH]; intros d0 (k0 & v0 & Hin & Hn & Hr); [destruct Hin|].
  simpl. destruct (decide (xml.Space (Name (feature v)) ∈ n)) as [Hv|Hv].
  - rewrite bool_decide_eq_true_2 by exact Hv.
    destruct Hin as [E|Hin]; [injection E as _ <-; contradiction|].
    destruct (IH d0) as (k1 & v1 & H1 & H2 & H3); [eauto|].
    exists k1, v1. split; [exact H1|]. split; [right; exact H2|exact H3].
  - rewrite bool_decide_eq_false_2 by exact Hv.
    destruct (req v) eqn:Ev; cbn [negb].
    + destruct Hin as [E|Hin]; [injection E as _ <-; congruence|].
      destruct (IH (Some v)) as (k1 & v1 & H1 & H2 & H3); [eauto|].
      exists k1, v1. split; [exact H1|]. split; [right; exact H2|exact H3].
    + exists k, v. split; [reflexivity|]. split; [left; reflexivity|]. auto.
Qed.

Lemma select_cached_required n (vs : list (string * sfData W)) : forall d0,
  (forall k v, In (k, v) vs -> xml.Space (Name (feature v)) ∉ n -> req v = true) ->
  (forall k v, In (k, v) vs -> xml.Space (Name (feature v)) ∈ n) /\ select_cached n vs d0 = d0
  \/ exists k v, select_cached n vs d0 = Some v /\ In (k, v) vs
                 /\ (xml.Space (Name (feature v)) ∉ n) /\ req v = true.
Proof.
  induction vs as [|[k v] vs IH]; intros d0 Hall.
  - left. split; [intros k v []|reflexivity].
  - simpl. destruct (decide (xml.Space (Name (feature v)) ∈ n)) as [Hv|Hv].
    + rewrite bool_decide_eq_true_2 by exact Hv.
      destruct (IH d0) as [[Hneg Hsel]|(k1 & v1 & H1 & H2 & H3)].
      * intros k1 v1 Hin. apply (Hall k1). right. exact Hin.
      * left. split; [|exact Hsel]. intros k1 v1 [E|Hin]; [injection E as _ <-; exact Hv|eauto].
      * right. exists k1, v1. split; [exact H1|]. split; [right; exact H2|exact H3].
    + rewrite bool_decide_eq_false_2 by exact Hv.
      rewrite (Hall k v (or_introl eq_refl) Hv). cbn [negb].
      destruct (IH (Some v)) as [[Hneg Hsel]|(k1 & v1 & H1 & H2 & H3)].
      * intros k1 v1 Hin. apply (Hall k1). right. exact Hin.
      * right. exists k, v. split; [exact Hsel|]. split; [left; reflexivity|].
        split; [exact Hv|]. apply (Hall k v (or_introl eq_refl) Hv).
      * right. exists k1, v1. split; [exact H1|]. split; [right; exact H2|exact H3].
Qed.

Lemma In_range_cache w (m : gmap string (sfData W)) k v :
  In (k, v) (range_cache w m) <-> m !! k = Some v.
Proof.
  rewrite <- list_elem_of_In, (range_cache_perm w m). apply elem_of_map_to_list.
Qed.

(** X23: the initiator negotiates the optional features before the
    required ones, in whatever order the cache is enumerated.  Among the
    cached features (each with a non-empty local name) that are not
    negotiated yet it selects an optional one whenever there is one; a
    required one when all of them are required; and when there is none left
    it ends the negotiation of this feature set with [done] and no error.
    The selection reads nothing from the peer. *)
Theorem select_client_prefers_optional (s : Session) (list : streamFeaturesList W) (w : W) :
  (forall ns d, cache list !! ns = Some d -> xml.Local (Name (feature d)) <> EmptyString) ->
  ((exists ns d, cache list !! ns = Some d /\ open_in s d /\ req d = false) ->
   exists ns d, select_client s list w = (Val (sel_feature d), w)
                /\ cache list !! ns = Some d /\ open_in s d /\ req d = false)
  /\ ((forall ns d, cache list !! ns = Some d -> open_in s d -> req d = true) ->
      (exists ns d, cache list !! ns = Some d /\ open_in s d) ->
      exists ns d, select_client s list w = (Val (sel_feature d), w)
                   /\ cache list !! ns = Some d /\ open_in s d /\ req d = true)
  /\ ((forall ns d, cache list !! ns = Some d -> ~ open_in s d) ->
      select_client s list w = (Val (sel_return (true, None, None)), w)).
Proof.
  intros Hlocal. unfold open_in, select_client.
  assert (Hname : forall k v, In (k, v) (range_cache w (cache list)) ->
                              String.eqb (xml.Local (Name (feature v))) EmptyString = false).
  { intros k v Hin. apply In_range_cache in Hin. apply String.eqb_neq. eauto. }
  split; [|split].
  - intros (ns & d & Hd & Ho & Hr).
    destruct (select_cached_optional (negotiated s) (range_cache w (cache list)) None)
      as (k & v & Hsel & Hin & Hv & Hrv).
    { exists ns, d. split; [apply In_range_cache; exact Hd|auto]. }
    exists k, v. rewrite Hsel, (Hname k v Hin).
    split; [reflexivity|]. split; [apply (In_range_cache w); exact Hin|auto].
  - intros Hall (ns & d & Hd & Ho).
    destruct (select_cached_required (negotiated s) (range_cache w (cache list)) None)
      as [[Hneg _]|(k & v & Hsel & Hin & Hv & Hrv)].
    { intros k v Hin. apply (Hall k). apply (In_range_cache w). exact Hin. }
    + exfalso. apply Ho. apply (Hneg ns). apply In_range_cache. exact Hd.
    + exists k, v. rewrite Hsel, (Hname k v Hin).
      split; [reflexivity|]. split; [apply (In_range_cache w); exact Hin|auto].
  - intros Hnone.
    destruct (select_cached_required (negotiated s) (range_cache w (cache list)) None)
      as [[_ Hsel]|(k & v & Hsel & Hin & Hv & _)].
    { intros k v Hin Hv. exfalso. apply (Hnone k v); [apply (In_range_cache w); exact Hin|exact Hv]. }
    + rewrite Hsel. reflexivity.
    + exfalso. apply (Hnone k v); [apply (In_range_cache w); exact Hin|exact Hv].
Qed.

(** *** What negotiation leaves of the session *)

(** For features that assign nothing through the pointer, the loop and the
    function with calls are the ones without. *)
Lemma by_value_negotiate_loop fuel (server : bool) (list : streamFeaturesList W) :
  forall s rwc0 w,
    pointer.negotiate_loop pointer.by_value fuel server list s rwc0 w
    = negotiate_loop fuel server list s rwc0 w.
Proof.
  induction fuel as [|fuel IH]; intros s rwc0 w; [reflexivity|].
  simpl. unfold bind at 1 3.
  destruct ((if server then select_server s list rwc0 else select_client s list) w)
    as [[[r0|d]| |] w1]; try reflexivity.
  unfold pointer.by_value, bind.
  destruct (Negotiate (feature d) s (data d) w1) as [[[[mask rwc1] err]| |] w2];
    try reflexivity.
  cbn [ret]. destruct (bool_decide (rwc1 <> None) || req d); [reflexivity|apply IH].
Qed.

Lemma by_value_negotiateFeatures fuel (F : gmap xml.Name (StreamFeature W)) c w :
  pointer.negotiateFeatures pointer.by_value fuel F c w = negotiateFeatures fuel F c w.
Proof.
  unfold pointer.negotiateFeatures, negotiateFeatures. cbv zeta.
  destruct (Z.land (state c) Received =? Received).
  - unfold bind.
    destruct (writeStreamFeatures F c w) as [[[l [e|]]| |] w0]; try reflexivity.
    destruct l as [l|]; [apply by_value_negotiate_loop|reflexivity].
  - unfold bind at 1 3.
    destruct (Decoder_Token w) as [[[t|e]| |] w0]; try reflexivity.
    destruct t as [start| | | | |]; try reflexivity.
    unfold bind.
    destruct (readStreamFeatures fuel F c start w0) as [[[c1 [l err]]| |] w1];
      try reflexivity.
    destruct err as [e|]; [reflexivity|]. destruct l as [l|]; [|reflexivity].
    destruct (_ || _); [reflexivity|apply by_value_negotiate_loop].
Qed.

(** [s'] is [s] with, at most, more state bits and more negotiated
    namespaces; the advertised features are left open. *)
Definition only_adds (s s' : Session) : Prop :=
  config s' = config s /\ rwc s' = rwc s /\ origin s' = origin s
  /\ negotiated s ⊆ negotiated s'
  /\ forall i, Z.testbit (state s) i = true -> Z.testbit (state s') i = true.

Lemma only_adds_refl s : only_adds s s.
Proof. repeat split; auto. Qed.

Lemma only_adds_trans s1 s2 s3 : only_adds s1 s2 -> only_adds s2 s3 -> only_adds s1 s3.
Proof.
  intros (A1 & A2 & A3 & A4 & A5) (B1 & B2 & B3 & B4 & B5).
  repeat split; try congruence; [set_solver|auto].
Qed.

(** The loop's own assignments, [c.state |= mask] and
    [c.negotiated[...] = struct{}{}], only add. *)
Lemma only_adds_record s (d : sfData W) mask err :
  only_adds s (record_negotiation s d mask err).
Proof.
  destruct err as [e|]; repeat split; cbn; try set_solver; auto.
  intros i Hi. rewrite Z.lor_spec, Hi. reflexivity.
Qed.

Lemma only_adds_advertised s s' : advertises_more s s' -> only_adds s s'.
Proof.
  intros (H1 & H2 & H3 & H4 & H5 & _). repeat split; try assumption.
  - rewrite H5. reflexivity.
  - rewrite H3. auto.
Qed.

(** The feature that a pass selects is one of the cache. *)
Lemma selected_is_cached (server : bool) (s : Session) (list : streamFeaturesList W)
    rwc0 w d w1 :
  (if server then select_server s list rwc0 else select_client s list) w
  = (Val (sel_feature d), w1) ->
  exists ns, cache list !! ns = Some d.
Proof.
  intros H. destruct server.
  - unfold select_server, bind in H.
    destruct (Decoder_Token w) as [[[[]|]| |] w0]; try discriminate.
    destruct (cache list !! _) as [d'|] eqn:E; [|discriminate].
    destruct (bool_decide _); [discriminate|]. injection H as <- _. eauto.
  - unfold select_client in H.
    destruct (select_cached _ _ None) as [d'|] eqn:E; [|discriminate].
    destruct (String.eqb _ _); [discriminate|]. injection H as <- _.
    destruct (looptermination.select_cached_pending _ _ _ _ E) as [|[[k Hin] _]];
      [discriminate|].
    exists k. apply elem_of_map_to_list.
    rewrite <- (range_cache_perm w (cache list)). apply list_elem_of_In. exact Hin.
Qed.

(** The calls of the features in [F] only add. *)
Definition calls_only_add (invoke : pointer.call W) (F : gmap xml.Name (StreamFeature W))
  : Prop :=
  forall name f s d w s1 r w1,
    F !! name = Some f -> invoke f s d w = (Val (s1, r), w1) -> only_adds s s1.

Lemma negotiate_loop_only_adds (invoke : pointer.call W)
    (F : gmap xml.Name (StreamFeature W)) fuel (server : bool)
    (list : streamFeaturesList W) :
  calls_only_add invoke F ->
  (forall ns d, cache list !! ns = Some d -> exists name, F !! name = Some (feature d)) ->
  forall s rwc0 w s' r w',
    pointer.negotiate_loop invoke fuel server list s rwc0 w = (Val (s', r), w') ->
    only_adds s s'.
Proof.
  intros Hcalls Hcache.
  induction fuel as [|fuel IH]; intros s rwc0 w s' r w'; [discriminate|].
  simpl. unfold bind at 1.
  destruct ((if server then select_server s list rwc0 else select_client s list) w)
    as [[[r0|d]| |] w1] eqn:Esel; try discriminate.
  - intros [= <- _ _]. apply only_adds_refl.
  - destruct (selected_is_cached _ _ _ _ _ _ _ Esel) as [ns Hd].
    destruct (Hcache ns d Hd) as [name Hname].
    unfold bind.
    destruct (invoke (feature d) s (data d) w1) as [[[s1 [[mask rwc1] err]]| |] w2] eqn:Ecall;
      try discriminate.
    pose proof (Hcalls _ _ _ _ _ _ _ _ Hname Ecall) as H1.
    pose proof (only_adds_trans _ _ _ H1 (only_adds_record s1 d mask err)) as H2.
    destruct (bool_decide (rwc1 <> None) || req d).
    + intros [= <- _ _]. exact H2.
    + intros H. apply IH in H. exact (only_adds_trans _ _ _ H2 H).
Qed.

(** X24: [Negotiate] receives a pointer to the session.  When the calls of
    the configured features leave the session's configuration, transport
    and origin as they were, clear no state bit and remove no negotiated
    namespace, then so does [negotiateFeatures], in either role and whatever
    it returns: its own code assigns no transport (the new one is
    returned), clears no bit and forgets no feature. *)
Theorem negotiateFeatures_only_adds (invoke : pointer.call W) (fuel : nat)
    (F : gmap xml.Name (StreamFeature W)) (c c' : Session) (w w' : W)
    (r : bool * option Transport * option error) :
  (forall name f s d w0 s1 r1 w1,
     F !! name = Some f -> invoke f s d w0 = (Val (s1, r1), w1) ->
     config s1 = config s /\ rwc s1 = rwc s /\ origin s1 = origin s
     /\ negotiated s ⊆ negotiated s1
     /\ forall i, Z.testbit (state s) i = true -> Z.testbit (state s1) i = true) ->
  pointer.negotiateFeatures invoke fuel F c w = (Val (c', r), w') ->
  (config c', rwc c', origin c') = (config c, rwc c, origin c)
  /\ negotiated c ⊆ negotiated c'
  /\ (forall i, Z.testbit (state c) i = true -> Z.testbit (state c') i = true)
  /\ (forall m, Z.land (state c) m = m -> Z.land (state c') m = m).
Proof.
  intros Hcalls H.
  assert (Hp : only_adds c c').
  { unfold pointer.negotiateFeatures in H. cbv zeta in H.
    destruct (Z.land (state c) Received =? Received).
    - unfold bind in H.
      destruct (writeStreamFeatures F c w) as [[[l [e|]]| |] w0] eqn:E; try discriminate.
      + injection H as <- _ _. apply only_adds_refl.
      + destruct l as [l|]; [|discriminate].
        eapply (negotiate_loop_only_adds invoke F); [exact Hcalls| |exact H].
        exact (writeStreamFeatures_configured _ _ _ _ _ _ E).
    - unfold bind at 1 in H.
      destruct (Decoder_Token w) as [[[t|e]| |] w0]; try discriminate.
      2:{ injection H as <- _ _. apply only_adds_refl. }
      destruct t as [start| | | | |]; try (injection H as <- _ _; apply only_adds_refl).
      unfold bind in H.
      destruct (readStreamFeatures fuel F c start w0) as [[[c1 [l err]]| |] w1] eqn:E;
        try discriminate.
      pose proof (only_adds_advertised _ _ (readStreamFeatures_frame _ _ _ _ _ _ _ _ E))
        as Hbase.
      destruct err as [e|]; [injection H as <- _ _; exact Hbase|].
      destruct l as [l|]; [|discriminate].
      destruct (_ || _); [injection H as <- _ _; exact Hbase|].
      apply (only_adds_trans _ _ _ Hbase).
      eapply (negotiate_loop_only_adds invoke F); [exact Hcalls| |exact H].
      intros ns d Hd.
      destruct (readStreamFeatures_configured _ _ _ _ _ _ _ _ _ E ns d Hd)
        as (name & Hname & _).
      exists name. exact Hname. }
  destruct Hp as (H1 & H2 & H3 & H4 & H5).
  split; [rewrite H1, H2, H3; reflexivity|]. split; [exact H4|]. split; [exact H5|].
  intros m Hland. apply Z.bits_inj'. intros i Hi.
  rewrite Z.land_spec. destruct (Z.testbit m i) eqn:Em; [|apply andb_false_r].
  rewrite andb_true_r. apply H5.
  assert (E : Z.testbit (Z.land (state c) m) i = true) by (rewrite Hland; exact Em).
  rewrite Z.land_spec in E. apply andb_true_iff in E as [E _]. exact E.
Qed.

(** *** The features of a configuration *)

Lemma set_Features_spec (fs : list (StreamFeature W)) : forall m name f,
  set_Features m fs !! name = Some f <->
  (exists pre post, fs = pre ++ f :: post /\ Name f = name
                    /\ forall g, In g post -> Name g <> name)
  \/ (m !! name = Some f /\ forall g, In g fs -> Name g <> name).
Proof.
  induction fs as [|g fs IH]; intros m name f.
  - simpl. split.
    + intros H. right. split; [exact H|intros g []].
    + intros [(pre & post & E & _)|[H _]]; [destruct pre; discriminate|exact H].
  - simpl. rewrite IH. split.
    + intros [(pre & post & -> & Hn & Hpost)|[Hm Hall]].
      * left. exists (g :: pre), post. auto.
      * destruct (decide (Name g = name)) as [E|Hne].
        -- rewrite E, lookup_insert_eq in Hm. injection Hm as <-.
           left. exists [], fs. auto.
        -- rewrite lookup_insert_ne in Hm by exact Hne. right. split; [exact Hm|].
           intros g' [<-|Hin]; auto.
    + intros [(pre & post & E & Hn & Hpost)|[Hm Hall]].
      * destruct pre as [|p pre]; simpl in E; injection E as -> ->.
        -- right. rewrite Hn, lookup_insert_eq. auto.
        -- left. exists pre, post. auto.
      * right. rewrite lookup_insert_ne by (apply Hall; left; reflexivity).
        split; [exact Hm|]. intros g' Hin. apply Hall. right. exact Hin.
Qed.

Lemma name_in_dec (l : list (StreamFeature W)) (n : xml.Name) :
  (exists g, In g l /\ Name g = n) \/ (forall g, In g l -> Name g <> n).
Proof.
  induction l as [|h l [(g & Hg & Hn)|IH]].
  - right. intros g [].
  - left. exists g. split; [right; exact Hg|exact Hn].
  - destruct (decide (Name h = n)) as [E|Hne].
    + left. exists h. split; [left; reflexivity|exact E].
    + right. intros g [<-|Hg]; auto.
Qed.

(** X25: the feature map of a configuration made by [NewServerConfig] (and
    so by [NewClientConfig]) holds, under each name, the last of the given
    features that has this name: every given feature's name is a key, every
    key is the name of the feature stored under it, and a feature given
    earlier under the same name is dropped. *)
Theorem NewServerConfig_Features (location origin : jid.JID)
    (features : list (StreamFeature W)) (name : xml.Name) (f : StreamFeature W) :
  ((NewServerConfig location origin features).2 !! name = Some f <->
   exists pre post, features = pre ++ f :: post /\ Name f = name
                    /\ forall g, In g post -> Name g <> name)
  /\ (In f features -> is_Some ((NewServerConfig location origin features).2 !! Name f))
  /\ (NewClientConfig location origin features).2
     = (NewServerConfig location origin features).2.
Proof.
  unfold NewClientConfig, NewServerConfig. cbn [snd].
  assert (Hspec : set_Features ∅ features !! name = Some f <->
                  exists pre post, features = pre ++ f :: post /\ Name f = name
                                   /\ forall g, In g post -> Name g <> name).
  { rewrite set_Features_spec. split.
    - intros [H|[H _]]; [exact H|]. rewrite lookup_empty in H. discriminate.
    - intros H. left. exact H. }
  split; [exact Hspec|]. split; [|reflexivity].
  clear Hspec. intros Hin.
  assert (Hlast : forall (l : list (StreamFeature W)) n,
            (exists g, In g l /\ Name g = n) ->
            exists pre g post, l = pre ++ g :: post /\ Name g = n
                               /\ forall h, In h post -> Name h <> n).
  { induction l as [|h l IH]; intros n (g & Hg & Hn); [destruct Hg|].
    destruct (name_in_dec l n) as [Hl|Hl].
    - destruct (IH n Hl) as (pre & g' & post & -> & Hn' & Hpost).
      exists (h :: pre), g', post. auto.
    - destruct Hg as [<-|Hg]; [|exfalso; exact (Hl g Hg Hn)].
      exists [], h, l. auto. }
  destruct (Hlast features (Name f)) as (pre & g & post & E & Hn & Hpost); [eauto|].
  exists g. apply set_Features_spec. left. exists pre, post. auto.
Qed.

End Features.

(** *** On the scripted environment *)

Import sim simfeatures.

Definition features_element : xml.StartElement :=
  {| xml.Name_ := {| xml.Space := ns.Stream; xml.Local := "features" |}; xml.Attr_ := [] |}.

(** The rest of a features list that offers STARTTLS. *)
Definition offer : list xml.Token :=
  element ns.StartTLS "starttls"
  ++ [xml.TEndElement {| xml.Space := ns.Stream; xml.Local := "features" |}].

Definition offered : streamFeaturesList World := featurewitness.advertisement tls_feature.

Definition informed (st : Z) : Conn := set_features (conn st) {[ ns.StartTLS := any_nil ]}.

Lemma read_offer :
  readStreamFeatures (R:=runtime) 3 (configure [tls_feature]) (conn 0) features_element
    (world EmptyString offer)
  = (Val (informed 0, (Some offered, None)), world EmptyString []).
Proof. vm_compute. reflexivity. Qed.

Lemma readStreamFeatures_cache_witness :
  Z.of_nat (size (cache offered)) <= total offered.
Proof.
  destruct (readStreamFeatures_cache (R:=runtime) 3 (configure [tls_feature]) (conn 0)
              (informed 0) features_element (world EmptyString offer)
              (world EmptyString []) offered None read_offer)
    as (_ & _ & _ & H & _).
  exact H.
Defined.

Lemma readStreamFeatures_advertised_witness :
  (Feature (informed 0) ns.StartTLS).2 = true.
Proof.
  destruct (readStreamFeatures_advertised (R:=runtime) 3 (configure [tls_feature]) (conn 0)
              (informed 0) features_element (world EmptyString offer)
              (world EmptyString []) (Some offered, None) read_offer)
    as (_ & _ & H).
  apply (H offered eq_refl). exists (entry tls_feature true). vm_compute. reflexivity.
Defined.

Lemma initiator_without_features_witness :
  true = true /\ @None Transport = None
  /\ state (informed 0) = state (conn 0) /\ negotiated (informed 0) = negotiated (conn 0).
Proof.
  apply (initiator_without_features (B:=bits) (R:=runtime) (MO:=order) 3 (conn 0) (informed 0)
           (world EmptyString (xml.TStartElement features_element :: offer))
           (world EmptyString []) true None).
  - vm_compute. discriminate.
  - vm_compute. reflexivity.
Defined.

(** A cache with one optional feature. *)
Definition optional_only : streamFeaturesList World :=
  {| total := 1; list_req := false; cache := {[ ns.Bind := entry bind_feature false ]} |}.

Lemma select_client_prefers_optional_witness :
  exists ns d,
    select_client (MO:=order) (conn 0) optional_only (world EmptyString [])
    = (Val (sel_feature d), world EmptyString [])
    /\ cache optional_only !! ns = Some d /\ open_in (conn 0) d /\ req d = false.
Proof.
  apply (proj1 (select_client_prefers_optional (MO:=order) (conn 0) optional_only
                  (world EmptyString [])
                  ltac:(intros ns d H; unfold optional_only in H; cbn [cache] in H;
                        apply lookup_singleton_Some in H as [_ <-]; discriminate))).
  exists ns.Bind, (entry bind_feature false).
  split; [vm_compute; reflexivity|]. split; [apply not_elem_of_empty|reflexivity].
Defined.

(** A call that sets [Secure] through the pointer before it returns, as a
    feature that installs the security layer itself would. *)
Definition assigning : pointer.call World :=
  fun feature s data =>
    bind (Negotiate feature s data)
      (fun r => ret (set_state s (Z.lor (state s) Secure_), r)).

Definition secured : Conn :=
  record_negotiation (set_state (conn Received_) (Z.lor Received_ Secure_))
    (entry tls_feature true) Secure_ None.

(** The responder's run with this call: the peer selects STARTTLS, the call
    sets [Secure] and returns the new transport; the session keeps the
    [Received] bit it had. *)
Lemma negotiateFeatures_only_adds_witness :
  pointer.negotiateFeatures (B:=bits) (R:=runtime) (MO:=order) assigning 1
    (configure [tls_feature; bind_feature]) (conn Received_)
    (world EmptyString (element ns.StartTLS "starttls"))
  = (Val (secured, (false, Some (tls_Server (rwc_net 1) None), None)),
     featurewitness.after_write tls_feature
       [xml.TEndElement {| xml.Space := ns.StartTLS; xml.Local := "starttls" |}])
  /\ rwc secured = rwc_net 1
  /\ Z.land (state secured) Received_ = Received_.
Proof.
  assert (Hrun :
            pointer.negotiateFeatures (B:=bits) (R:=runtime) (MO:=order) assigning 1
              (configure [tls_feature; bind_feature]) (conn Received_)
              (world EmptyString (element ns.StartTLS "starttls"))
            = (Val (secured, (false, Some (tls_Server (rwc_net 1) None), None)),
               featurewitness.after_write tls_feature
                 [xml.TEndElement {| xml.Space := ns.StartTLS;
                                     xml.Local := "starttls" |}]))
    by (vm_compute; reflexivity).
  split; [exact Hrun|].
  destruct (negotiateFeatures_only_adds (B:=bits) (R:=runtime) (MO:=order) assigning 1
              (configure [tls_feature; bind_feature]) (conn Received_) secured
              (world EmptyString (element ns.StartTLS "starttls"))
              (featurewitness.after_write tls_feature
                 [xml.TEndElement {| xml.Space := ns.StartTLS; xml.Local := "starttls" |}])
              (false, Some (tls_Server (rwc_net 1) None), None)
              ltac:(intros name f s d w0 s1 r1 w1 _ H; unfold assigning, bind in H;
                    destruct (Negotiate f s d w0) as [[x| |] w2]; try discriminate H;
                    injection H as <- _ _; repeat split; [reflexivity|];
                    intros i Hi; cbn [state set_state]; rewrite Z.lor_spec, Hi; reflexivity)
              Hrun)
    as (Hframe & _ & _ & H).
  split.
  - exact (f_equal (fun t => t.1.2) Hframe).
  - apply H. vm_compute. reflexivity.
Defined.

End featuremore.

(** ** Stream headers *)

Module streamfacts.
Import go xmpp streams.

Section Streams.
Context {P : Platform}.

(** The namespace a stream header may declare as its default. *)
Definition content_namespace (s : string) : Prop :=
  s = EmptyString \/ s = "jabber:client" \/ s = "jabber:server".

Lemma streamFromAttrs_checked (attrs : list xml.Attr) : forall streamData d err,
  streamFromAttrs attrs streamData = (d, err) ->
  content_namespace (xmlns streamData) ->
  (err = None \/ err = Some ImproperAddressing \/ err = Some InvalidNamespace)
  /\ content_namespace (xmlns d)
  /\ (err = None ->
      forall attr, In attr attrs ->
        (named EmptyString "xmlns" attr = true ->
         xml.Value attr = "jabber:client" \/ xml.Value attr = "jabber:server")
        /\ (named "xmlns" "stream" attr = true -> xml.Value attr = ns.Stream)).
Proof.
  induction attrs as [|attr attrs IH]; intros streamData d err H Hx.
  - injection H as <- <-. split; [auto|]. split; [exact Hx|]. intros _ attr [].
  - simpl in H.
    assert (Hstep : forall sd,
              streamFromAttrs attrs sd = (d, err) ->
              content_namespace (xmlns sd) ->
              (named EmptyString "xmlns" attr = true ->
               xml.Value attr = "jabber:client" \/ xml.Value attr = "jabber:server") ->
              (named "xmlns" "stream" attr = true -> xml.Value attr = ns.Stream) ->
              (err = None \/ err = Some ImproperAddressing \/ err = Some InvalidNamespace)
              /\ content_namespace (xmlns d)
              /\ (err = None ->
                  forall a, In a (attr :: attrs) ->
                    (named EmptyString "xmlns" a = true ->
                     xml.Value a = "jabber:client" \/ xml.Value a = "jabber:server")
                    /\ (named "xmlns" "stream" a = true -> xml.Value a = ns.Stream))).
    { intros sd Hsd Hxs Ha Hb. destruct (IH sd d err Hsd Hxs) as (H1 & H2 & H3).
      split; [exact H1|]. split; [exact H2|].
      intros He a [<-|Hin]; [split; assumption|exact (H3 He a Hin)]. }
    assert (Hnames : forall s1 l1 s2 l2,
              (s1, l1) <> (s2, l2) -> named s1 l1 attr = true -> named s2 l2 attr = true -> False).
    { unfold named. intros s1 l1 s2 l2 Hne H1 H2.
      apply andb_true_iff in H1 as [A1 B1]. apply andb_true_iff in H2 as [A2 B2].
      apply String.eqb_eq in A1, B1, A2, B2. apply Hne. congruence. }
    destruct (named EmptyString "to" attr) eqn:Eto.
    { destruct (Addr_UnmarshalXMLAttr attr) as [j [e|]].
      - injection H as <- <-. split; [auto|]. split; [exact Hx|discriminate].
      - apply (Hstep _ H Hx); intros Hn; exfalso; refine (Hnames _ _ _ _ _ Eto Hn); discriminate. }
    destruct (named EmptyString "from" attr) eqn:Efrom.
    { destruct (Addr_UnmarshalXMLAttr attr) as [j [e|]].
      - injection H as <- <-. split; [auto|]. split; [exact Hx|discriminate].
      - apply (Hstep _ H Hx); intros Hn; exfalso; refine (Hnames _ _ _ _ _ Efrom Hn); discriminate. }
    destruct (named EmptyString "id" attr) eqn:Eid.
    { apply (Hstep _ H Hx); intros Hn; exfalso; refine (Hnames _ _ _ _ _ Eid Hn); discriminate. }
    destruct (named EmptyString "version" attr) eqn:Ever.
    { apply (Hstep _ H Hx); intros Hn; exfalso; refine (Hnames _ _ _ _ _ Ever Hn); discriminate. }
    destruct (named EmptyString "xmlns" attr) eqn:Ens.
    { destruct (String.eqb_spec (xml.Value attr) "jabber:client") as [Ec|Ec]; cbn [negb andb] in H.
      - apply (Hstep _ H); [right; left; exact Ec|auto|].
        intros Hn; exfalso; refine (Hnames _ _ _ _ _ Ens Hn); discriminate.
      - destruct (String.eqb_spec (xml.Value attr) "jabber:server") as [Es|Es]; cbn [negb] in H.
        + apply (Hstep _ H); [right; right; exact Es|auto|].
          intros Hn; exfalso; refine (Hnames _ _ _ _ _ Ens Hn); discriminate.
        + injection H as <- <-. split; [auto|]. split; [exact Hx|discriminate]. }
    destruct (named "xmlns" "stream" attr) eqn:Est.
    { destruct (String.eqb_spec (xml.Value attr) ns.Stream) as [Ev|Ev]; cbn [negb] in H.
      - apply (Hstep _ H Hx); [discriminate|auto].
      - injection H as <- <-. split; [auto|]. split; [exact Hx|discriminate]. }
    destruct (named "xml" "lang" attr) eqn:Elang; apply (Hstep _ H Hx); discriminate.
Qed.

(** X26: [streamFromStartElement] returns no error but the stream errors
    [ImproperAddressing] and [InvalidNamespace] (its comment: "this MUST
    only return stream errors"); the default namespace it stores is empty,
    [jabber:client] or [jabber:server]; and when it returns without error
    every [xmlns] attribute of the element is one of these two namespaces
    and every [xmlns:stream] attribute is the stream namespace. *)
Theorem streamFromStartElement_checks (s : xml.StartElement) (d : streamInfo)
    (err : option error) :
  streamFromStartElement s = (d, err) ->
  (err = None \/ err = Some ImproperAddressing \/ err = Some InvalidNamespace)
  /\ content_namespace (xmlns d)
  /\ (err = None ->
      forall attr, In attr (xml.Attr_ s) ->
        (named EmptyString "xmlns" attr = true ->
         xml.Value attr = "jabber:client" \/ xml.Value attr = "jabber:server")
        /\ (named "xmlns" "stream" attr = true -> xml.Value attr = ns.Stream)).
Proof.
  intros H. apply (streamFromAttrs_checked _ _ _ _ H). left. reflexivity.
Qed.

Context {B : StateBits} {W : Type} {R : Runtime W}.
Context (DecodeElement_streamerror : xml.StartElement -> M W (error * option error)).

Local Abbreviation expect := (expectNewStream DecodeElement_streamerror).
Local Abbreviation expect_loop := (expectNewStream_loop DecodeElement_streamerror).

(** Once the XML header has been seen the loop makes one pass. *)
Lemma expectNewStream_after_header n st w :
  expect_loop (S n) st true w = expect_loop 1 st true w.
Proof.
  reflexivity.
Qed.

(** A computation that does not stop at the loop bound of the model. *)
Definition stops {A} (r : res A * W) : Prop := r.1 <> Unfinished.

(** X27: the loop of [expectNewStream] makes at most two passes, so it
    reads at most two tokens: one XML declaration is skipped and whatever
    follows it ends the function.  With more than two passes allowed the
    result is the result of two, and two passes never stop at the bound
    when the context, the tokenizer and the decoder return. *)
Theorem expectNewStream_two_passes (n : nat) (st : Z) (w : W) :
  expect (S (S n)) st w = expect 2 st w
  /\ ((forall w0, stops (ctx_Err w0)) ->
      (forall w0, stops (Decoder_Token w0)) ->
      (forall tok w0, stops (DecodeElement_streamerror tok w0)) ->
      stops (expect 2 st w)).
Proof.
  split.
  - reflexivity.
  - intros Hctx Htok Hdec. unfold stops, expectNewStream. simpl. unfold bind.
    pose proof (Hctx w) as H0. unfold stops in H0.
    destruct (ctx_Err w) as [[[e|]| |] w0]; cbn in H0 |- *; try discriminate; [|contradiction].
    pose proof (Htok w0) as H1. unfold stops in H1.
    destruct (Decoder_Token w0) as [[[t|e]| |] w1]; cbn in H1 |- *; try discriminate;
      [|contradiction].
    destruct t as [tok|name|d|c|target inst|d]; try discriminate.
    + destruct (_ && _).
      * pose proof (Hdec tok w1) as H2. unfold stops in H2.
        destruct (DecodeElement_streamerror tok w1) as [[[se [e|]]| |] w2]; cbn in H2 |- *;
          try discriminate. contradiction.
      * destruct (negb _); [discriminate|]. destruct (negb _); [discriminate|].
        destruct (streamFromStartElement tok) as [sd [e|]]; [discriminate|].
        destruct (negb _); [discriminate|]. destruct (_ && _); discriminate.
    + cbn [negb andb]. destruct (String.eqb target "xml"); [|discriminate].
      pose proof (Hctx w1) as H2. unfold stops in H2.
      destruct (ctx_Err w1) as [[[e|]| |] w2]; cbn in H2 |- *; try discriminate; [|contradiction].
      pose proof (Htok w2) as H3. unfold stops in H3.
      destruct (Decoder_Token w2) as [[[t|e]| |] w3]; cbn in H3 |- *; try discriminate;
        [|contradiction].
      destruct t as [tok|name|d|c|target' inst'|d]; try discriminate.
      destruct (_ && _).
      * pose proof (Hdec tok w3) as H4. unfold stops in H4.
        destruct (DecodeElement_streamerror tok w3) as [[[se [e|]]| |] w4]; cbn in H4 |- *;
          try discriminate. contradiction.
      * destruct (negb _); [discriminate|]. destruct (negb _); [discriminate|].
        destruct (streamFromStartElement tok) as [sd [e|]]; [discriminate|].
        destruct (negb _); [discriminate|]. destruct (_ && _); discriminate.
Qed.

Lemma expectNewStream_loop_accepts fuel st : forall found w info err w',
  expect_loop fuel st found w = (Val (info, err), w') ->
  (err = None <-> info <> None)
  /\ forall i, info = Some i ->
       version i = DefaultVersion /\ content_namespace (xmlns i)
       /\ (Z.land st Received <> Received -> id i <> EmptyString).
Proof.
  assert (Hbad : forall (e : error) (info : option streamInfo) (err : option error)
                          (w0 w' : W),
            (Val (@None streamInfo, Some e), w0) = (Val (info, err), w') ->
            (err = None <-> info <> None)
            /\ forall i, info = Some i ->
                 version i = DefaultVersion /\ content_namespace (xmlns i)
                 /\ (Z.land st Received <> Received -> id i <> EmptyString)).
  { intros e info err w0 w' [= <- <- _].
    split; [split; [discriminate|congruence]|discriminate]. }
  induction fuel as [|fuel IH]; intros found w info err w'; [discriminate|].
  simpl. unfold bind at 1.
  destruct (ctx_Err w) as [[[e|]| |] w0]; try discriminate.
  { apply Hbad. }
  unfold bind at 1.
  destruct (Decoder_Token w0) as [[[t|e]| |] w1]; try discriminate.
  2:{ apply Hbad. }
  destruct t as [tok|name|d|c|target inst|d];
    try (apply Hbad).
  - destruct (_ && _).
    { unfold bind.
      destruct (DecodeElement_streamerror tok w1) as [[[se [e|]]| |] w2]; try discriminate;
        apply Hbad. }
    destruct (negb _); [apply Hbad|].
    destruct (negb _); [apply Hbad|].
    destruct (streamFromStartElement tok) as [sd [e|]] eqn:Esd;
      [apply Hbad|].
    destruct (decide (version sd = DefaultVersion)) as [Hv|Hv].
    2:{ rewrite bool_decide_eq_false_2 by exact Hv. cbn [negb].
        apply Hbad. }
    rewrite bool_decide_eq_true_2 by exact Hv. cbn [negb].
    destruct (negb (Z.land st Received =? Received) && String.eqb (id sd) EmptyString) eqn:Ei;
      [apply Hbad|].
    intros [= <- <- _]. split; [split; [discriminate|reflexivity]|].
    intros i [= <-]. split; [exact Hv|]. split.
    + apply (streamFromAttrs_checked _ _ _ _ Esd). left. reflexivity.
    + intros Hr Hid. rewrite Hid in Ei. cbn in Ei. rewrite andb_true_r in Ei.
      apply negb_false_iff, Z.eqb_eq in Ei. contradiction.
  - destruct (negb found && String.eqb target "xml"); [apply IH|].
    apply Hbad.
Qed.

(** X28: [expectNewStream] stores stream information exactly when it
    returns a nil error, and what it stores was checked: the version is the
    default version, the content namespace is empty, [jabber:client] or
    [jabber:server], and on the initiating side (the [Received] bit is
    clear) the stream has a non-empty id. *)
Theorem expectNewStream_accepts (fuel : nat) (st : Z) (w w' : W)
    (info : option streamInfo) (err : option error) :
  expect fuel st w = (Val (info, err), w') ->
  (err = None <-> info <> None)
  /\ forall i, info = Some i ->
       version i = DefaultVersion /\ content_namespace (xmlns i)
       /\ (Z.land st Received <> Received -> id i <> EmptyString).
Proof. apply expectNewStream_loop_accepts. Qed.

End Streams.

(** *** On the scripted environment *)

Import sim.

(** Addresses and language tags as the text of the attribute, versions as
    a pair of numbers, of which ["1.0"] is the only one decoded. *)
Definition plain_platform : Platform := {|
  Addr := string;
  Addr_UnmarshalXMLAttr := fun attr => (xml.Value attr, None);
  Version := Z * Z;
  Version_eq_dec := _;
  Version_zero := (0, 0);
  DefaultVersion := (1, 0);
  Version_UnmarshalXMLAttr :=
    fun v attr => if String.eqb (xml.Value attr) "1.0" then (1, 0) else v;
  Tag := string;
  Tag_zero := EmptyString;
  language_Make := fun s => s;
|}.

Definition attr (space local value : string) : xml.Attr :=
  {| xml.attr_Name := {| xml.Space := space; xml.Local := local |}; xml.Value := value |}.

Definition header : xml.StartElement :=
  {| xml.Name_ := {| xml.Space := ns.Stream; xml.Local := "stream" |};
     xml.Attr_ := [ attr EmptyString "id" "316732270768047465";
                    attr EmptyString "version" "1.0";
                    attr "xml" "lang" "en";
                    attr "xmlns" "stream" ns.Stream;
                    attr EmptyString "xmlns" "jabber:client" ] |}.

Definition header_info : @streamInfo plain_platform :=
  @Build_streamInfo plain_platform None None "316732270768047465" (1, 0)
    "jabber:client" "en".

Definition expect_script :=
  expectNewStream (P:=plain_platform) (B:=bits) (R:=runtime)
    (@Decoder_DecodeElement_failure _ runtime).

Lemma streamFromStartElement_checks_witness : content_namespace "jabber:client".
Proof.
  destruct (streamFromStartElement_checks (P:=plain_platform) header header_info None
              ltac:(vm_compute; reflexivity)) as (_ & H & _).
  exact H.
Defined.

Lemma expectNewStream_two_passes_witness :
  stops (expect_script 2 0 (world EmptyString [xml.TProcInst "xml" EmptyString])).
Proof.
  apply (proj2 (expectNewStream_two_passes (P:=plain_platform) (B:=bits) (R:=runtime)
                  (@Decoder_DecodeElement_failure _ runtime) 0 0
                  (world EmptyString [xml.TProcInst "xml" EmptyString]))).
  - intros w0. unfold stops. discriminate.
  - intros w0. unfold stops. cbn. unfold Token_script. destruct (tokens w0); discriminate.
  - intros tok w0. unfold stops. cbn. unfold DecodeElement_script.
    destruct (skip 0 (tokens w0)); discriminate.
Defined.

Lemma expectNewStream_accepts_witness :
  version header_info = (1, 0) /\ content_namespace (xmlns header_info)
  /\ (Z.land 0 (@Received bits) <> @Received bits -> id header_info <> EmptyString).
Proof.
  apply (proj2 (expectNewStream_accepts (P:=plain_platform) (B:=bits) (R:=runtime)
                  (@Decoder_DecodeElement_failure _ runtime) 2 0
                  (world EmptyString
                     [xml.TProcInst "xml" EmptyString; xml.TStartElement header])
                  (world EmptyString []) (Some header_info) None
                  ltac:(vm_compute; reflexivity)) header_info eq_refl).
Defined.

End streamfacts.

(** ** The stream element of the first draft *)

Module streamelement.
Import go stream.

Section Stream.
Context {P : Platform}.

(** X29: reading back the start element that [StartElement] makes of a
    stream recovers the addresses (when the address text parses back to the
    address), the content namespace, the language and the id, but not the
    version: [StartElement] writes a [version] attribute that
    [StreamFromStartElement] does not read, so the version of the stream
    read back is always empty. *)
Theorem Stream_round_trip (s : Stream) (t f : EnforcedJID) (t_text f_text : string) :
  to s = Some t -> from s = Some f ->
  EnforcedJID_String (Some t) = Returns t_text ->
  EnforcedJID_String (Some f) = Returns f_text ->
  EnforcedFromString t_text = (Some t, None) ->
  EnforcedFromString f_text = (Some f, None) ->
  exists start,
    StartElement s = Returns start
    /\ StreamFromStartElement start
       = (Some {| to := Some t; from := Some f; version := EmptyString;
                  xmlns := xmlns s; lang := lang s; id := id s |}, None).
Proof.
  intros Ht Hf Hts Hfs Htp Hfp. unfold StartElement. rewrite Ht, Hf, Hts, Hfs.
  eexists. split; [reflexivity|].
  unfold StreamFromStartElement. cbn [xml.Name_ xml.Local xml.Space xml.Attr_].
  change (negb (String.eqb "stream" "stream") || negb (String.eqb "stream" "stream"))
    with false. cbv iota.
  unfold attribute. cbn. rewrite Htp, Hfp. reflexivity.
Qed.

End Stream.

(** Addresses as their text. *)
Definition text_platform : Platform := {|
  EnforcedJID := string;
  EnforcedFromString := fun s => (Some s, None);
  EnforcedJID_String := fun j => Returns (default EmptyString j);
|}.

Definition sample : @Stream text_platform :=
  @Build_Stream text_platform (Some "example.net") (Some "mercutio@example.net/rp")
    "1.0" "jabber:client" "en" "316732270768047465".

Lemma Stream_round_trip_witness :
  exists start,
    @StartElement text_platform sample = Returns start
    /\ @StreamFromStartElement text_platform start
       = (Some (@Build_Stream text_platform (Some "example.net")
                  (Some "mercutio@example.net/rp") EmptyString "jabber:client" "en"
                  "316732270768047465"), None).
Proof.
  apply (@Stream_round_trip text_platform sample "example.net" "mercutio@example.net/rp"
           "example.net" "mercutio@example.net/rp"); reflexivity.
Defined.

End streamelement.

(** ** Dial deadlines *)

Module deadlinefacts.
Import dial.

Section Deadline.
Context {C : Clock}.

Lemma Before_irrefl a : Before a a = false.
Proof.
  destruct (Before a a) eqn:E; [|reflexivity]. rewrite (Before_asym a a E) in E. discriminate.
Qed.

(** The smaller of the two times that are set. *)
Lemma minNonzeroTime_spec a b :
  IsZero (minNonzeroTime a b) = IsZero a && IsZero b
  /\ (minNonzeroTime a b = a \/ minNonzeroTime a b = b)
  /\ (IsZero a = false -> Before a (minNonzeroTime a b) = false)
  /\ (IsZero b = false -> Before b (minNonzeroTime a b) = false).
Proof.
  unfold minNonzeroTime.
  destruct (IsZero a) eqn:Ea.
  - split; [reflexivity|]. split; [auto|]. split; [discriminate|].
    intros _. apply Before_irrefl.
  - destruct (IsZero b) eqn:Eb; cbn [orb andb].
    + split; [exact Ea|]. split; [auto|]. split; [intros _; apply Before_irrefl|discriminate].
    + destruct (Before a b) eqn:Eab.
      * split; [exact Ea|]. split; [auto|].
        split; [intros _; apply Before_irrefl|intros _; apply Before_asym, Eab].
      * split; [exact Eb|]. split; [auto|].
        split; [intros _; exact Eab|intros _; apply Before_irrefl].
Qed.

(** The times [deadline] chooses among. *)
Definition candidates (d : Dialer) (ctx_Deadline : option Time) (now : Time) : list Time :=
  (if negb (Timeout d =? 0) then [Add now (Timeout d)] else [])
  ++ match ctx_Deadline with Some t => [t] | None => [] end
  ++ [Deadline d].

(** X30: [deadline] returns the zero time exactly when none of
    now+Timeout (for a non-zero Timeout), the context's deadline and the
    dialer's Deadline is a non-zero time; otherwise it returns one of those
    that are non-zero, and none of them is before it. *)
Theorem deadline_earliest (d : Dialer) (ctx_Deadline : option Time) (now : Time) :
  (IsZero (deadline d ctx_Deadline now) = true <->
   forall c, In c (candidates d ctx_Deadline now) -> IsZero c = true)
  /\ (IsZero (deadline d ctx_Deadline now) = false ->
      In (deadline d ctx_Deadline now) (candidates d ctx_Deadline now)
      /\ forall c, In c (candidates d ctx_Deadline now) -> IsZero c = false ->
                   Before c (deadline d ctx_Deadline now) = false).
Proof.
  unfold deadline, candidates. cbv zeta.
  set (e1 := if negb (Timeout d =? 0) then Add now (Timeout d) else Time_zero).
  set (e2 := match ctx_Deadline with Some d' => minNonzeroTime e1 d' | None => e1 end).
  set (l1 := if negb (Timeout d =? 0) then [Add now (Timeout d)] else []).
  set (l2 := match ctx_Deadline with Some t => [t] | None => [] end).
  (* the first candidate *)
  assert (H1 : (IsZero e1 = true <-> forall c, In c l1 -> IsZero c = true)
               /\ (IsZero e1 = false -> In e1 l1)).
  { unfold e1, l1. destruct (negb (Timeout d =? 0)).
    - split; [split|].
      + intros H c [<-|[]]. exact H.
      + intros H. apply H. left. reflexivity.
      + intros _. left. reflexivity.
    - rewrite IsZero_zero. split; [split; [intros _ c []|reflexivity]|discriminate]. }
  (* the first two *)
  assert (H2 : (IsZero e2 = true <-> forall c, In c (l1 ++ l2) -> IsZero c = true)
               /\ (IsZero e2 = false ->
                   In e2 (l1 ++ l2)
                   /\ forall c, In c (l1 ++ l2) -> IsZero c = false -> Before c e2 = false)).
  { destruct H1 as [Hz1 Hin1]. unfold e2, l2. destruct ctx_Deadline as [t|].
    - destruct (minNonzeroTime_spec e1 t) as (Mz & Mor & Ma & Mb). split; [split|].
      + rewrite Mz. intros H. apply andb_true_iff in H as [Ha Hb].
        intros c Hc. apply in_app_or in Hc as [Hc|[<-|[]]]; [apply Hz1; assumption|exact Hb].
      + intros H. rewrite Mz. apply andb_true_iff. split.
        * apply Hz1. intros c Hc. apply H, in_or_app. left. exact Hc.
        * apply H, in_or_app. right. left. reflexivity.
      + intros Hnz. split.
        * destruct Mor as [E|E]; rewrite E.
          -- apply in_or_app. left. apply Hin1. rewrite <- E. exact Hnz.
          -- apply in_or_app. right. left. reflexivity.
        * intros c Hc Hcz. apply in_app_or in Hc as [Hc|[<-|[]]]; [|apply Mb, Hcz].
          assert (Hc1 : c = e1).
          { unfold l1 in Hc. unfold e1. destruct (negb (Timeout d =? 0)); [|destruct Hc].
            destruct Hc as [<-|[]]. reflexivity. }
          subst c. apply Ma, Hcz.
    - rewrite app_nil_r. split; [exact Hz1|]. intros Hnz. split; [apply Hin1, Hnz|].
      intros c Hc _.
      assert (Hc1 : c = e1).
      { unfold l1 in Hc. unfold e1. destruct (negb (Timeout d =? 0)); [|destruct Hc].
        destruct Hc as [<-|[]]. reflexivity. }
      subst c. apply Before_irrefl. }
  clearbody e2 l1 l2. clear e1 H1. destruct H2 as [Hz2 Hin2].
  destruct (minNonzeroTime_spec e2 (Deadline d)) as (Mz & Mor & Ma & Mb).
  rewrite app_assoc. split; [split|].
  - rewrite Mz. intros H. apply andb_true_iff in H as [Ha Hb].
    intros c Hc. apply in_app_or in Hc as [Hc|[<-|[]]]; [apply Hz2; assumption|exact Hb].
  - intros H. rewrite Mz. apply andb_true_iff. split.
    + apply Hz2. intros c Hc. apply H, in_or_app. left. exact Hc.
    + apply H, in_or_app. right. left. reflexivity.
  - intros Hnz. split.
    + destruct Mor as [E|E]; rewrite E.
      * apply in_or_app. left. apply Hin2. rewrite <- E. exact Hnz.
      * apply in_or_app. right. left. reflexivity.
    + intros c Hc Hcz. apply in_app_or in Hc as [Hc|[<-|[]]]; [|apply Mb, Hcz].
      destruct (IsZero e2) eqn:Ez2.
      * rewrite (proj1 Hz2 eq_refl c Hc) in Hcz. discriminate.
      * destruct (Hin2 eq_refl) as [_ Hmin].
        apply (Before_trans c e2); [apply Hmin; assumption|apply Ma; reflexivity].
Qed.

End Deadline.

(** Times as whole numbers of nanoseconds since the zero time. *)
Definition instants : Clock.
Proof.
  refine {| Time := Z; Time_zero := 0; IsZero := fun t => t =? 0;
            Before := Z.ltb; Add := Z.add |}.
  - reflexivity.
  - intros a b H. apply Z.ltb_lt in H. apply Z.ltb_ge. lia.
  - intros a b c H1 H2. apply Z.ltb_ge in H1, H2. apply Z.ltb_ge. lia.
Defined.

(** A dialer with a timeout of 30 and no deadline of its own. *)
Definition patient : @Dialer instants := @Build_Dialer instants 30 0.

Lemma deadline_earliest_witness :
  In (@deadline instants patient (Some 120) 100) (@candidates instants patient (Some 120) 100)
  /\ forall c, In c (@candidates instants patient (Some 120) 100) ->
               @IsZero instants c = false ->
               @Before instants c (@deadline instants patient (Some 120) 100) = false.
Proof.
  apply (proj2 (@deadline_earliest instants patient (Some 120) 100)).
  reflexivity.
Defined.

End deadlinefacts.
